(** * CAPTCHA text-recovery pipeline: OCR.py and the solver of amazon_scraper.py

    A shallow embedding of [ImageTextExtractor] (trimming, projection
    segmentation, rotation-search recognition, assembling) and of
    [_solve_captcha], followed by the properties of the design document,
    stated and proved against the embedding.

    Python values are modelled as follows.  An RGB image is the list of
    its rows, each a list of pixels, as [np.asarray] presents it.  A [str]
    is a [string] whose characters are code points 0..255.  A [float] is
    an exact rational, an infinity or NaN, so that [>] is exact.  A call
    that may raise returns a [result]. *)

From Stdlib Require Import String Ascii ZArith QArith Lia Bool Arith List Sorted.
Import ListNotations.

Local Open Scope nat_scope.

(** * Part I: the program *)

(** ** Exceptions *)

Inductive exn : Type :=
| TimeoutException
| NoSuchElementException
| OtherException (msg : string).

Inductive result (A : Type) : Type :=
| Ok (a : A)
| Raise (e : exn).
Arguments Ok {A} a.
Arguments Raise {A} e.

Definition bind {A B} (m : result A) (k : A -> result B) : result B :=
  match m with
  | Ok a => k a
  | Raise e => Raise e
  end.

Notation "x <- m ;; k" := (bind m (fun x => k))
  (at level 61, m at next level, right associativity).

(** A [for] loop that appends one result per element and stops at the
    first exception. *)
Fixpoint for_each {A B} (f : A -> result B) (l : list A) : result (list B) :=
  match l with
  | [] => Ok []
  | a :: l' => b <- f a ;; bs <- for_each f l' ;; Ok (b :: bs)
  end.

(** The indices of a range that satisfy a test, ascending, as
    [np.where(mask)[0]] returns them. *)
Definition where_ (mask : nat -> bool) (n : nat) : list nat :=
  filter mask (seq 0 n).

(** ** Python strings *)

Module PyStr.

Definition code (c : ascii) : nat := nat_of_ascii c.

(** [str.isspace] on the code points 0..255. *)
Definition isspace (c : ascii) : bool :=
  let n := code c in
  ((9 <=? n) && (n <=? 13)) || ((28 <=? n) && (n <=? 32))
  || (n =? 133) || (n =? 160).

(** [str.isalnum] on the code points 0..255. *)
Definition isalnum (c : ascii) : bool :=
  let n := code c in
  ((48 <=? n) && (n <=? 57)) || ((65 <=? n) && (n <=? 90))
  || ((97 <=? n) && (n <=? 122))
  || (n =? 170) || (n =? 178) || (n =? 179) || (n =? 181)
  || (n =? 185) || (n =? 186) || ((188 <=? n) && (n <=? 190))
  || ((192 <=? n) && (n <=? 214)) || ((216 <=? n) && (n <=? 246))
  || ((248 <=? n) && (n <=? 255)).

Definition is_empty (s : string) : bool :=
  match s with
  | EmptyString => true
  | String _ _ => false
  end.

Fixpoint lstrip (s : string) : string :=
  match s with
  | EmptyString => EmptyString
  | String c s' => if isspace c then lstrip s' else s
  end.

Fixpoint rstrip (s : string) : string :=
  match s with
  | EmptyString => EmptyString
  | String c s' =>
      let r := rstrip s' in
      if is_empty r && isspace c then EmptyString else String c r
  end.

(** [s.strip()] *)
Definition strip (s : string) : string := rstrip (lstrip s).

(** [s.replace(old, '')] for a one-character [old]. *)
Fixpoint remove_char (old : ascii) (s : string) : string :=
  match s with
  | EmptyString => EmptyString
  | String c s' =>
      if Ascii.eqb c old then remove_char old s'
      else String c (remove_char old s')
  end.

(** [''.join(l)] *)
Definition join (l : list string) : string := String.concat EmptyString l.

(** [''.join(ch for ch in s if keep(ch))] *)
Fixpoint keep_chars (keep : ascii -> bool) (s : string) : string :=
  match s with
  | EmptyString => EmptyString
  | String c s' =>
      if keep c then String c (keep_chars keep s') else keep_chars keep s'
  end.

Fixpoint all_chars (p : ascii -> bool) (s : string) : bool :=
  match s with
  | EmptyString => true
  | String c s' => p c && all_chars p s'
  end.

Definition first_char (s : string) : option ascii :=
  match s with
  | EmptyString => None
  | String c _ => Some c
  end.

Fixpoint last_char (s : string) : option ascii :=
  match s with
  | EmptyString => None
  | String c s' =>
      match last_char s' with
      | None => Some c
      | Some d => Some d
      end
  end.

End PyStr.

(** ** Python floats *)

Module PyFloat.

Inductive pyfloat : Type :=
| Fin (q : Q)
| PInf
| NInf
| NaN.

(** [a > b] *)
Definition gt (a b : pyfloat) : bool :=
  match a, b with
  | NaN, _ | _, NaN => false
  | PInf, PInf => false
  | PInf, _ => true
  | _, PInf => false
  | NInf, _ => false
  | Fin _, NInf => true
  | Fin x, Fin y => negb (Qle_bool x y)
  end.

Definition is_nan (a : pyfloat) : bool :=
  match a with
  | NaN => true
  | _ => false
  end.

End PyFloat.

(** ** Raster images *)

Module Img.

(** An RGB pixel, one value per channel (0..255 in an 8-bit image). *)
Definition pixel : Type := Z * Z * Z.

Definition black : pixel := (0, 0, 0)%Z.
Definition white : pixel := (255, 255, 255)%Z.

(** The array of rows, height first.  Image files never have zero rows;
    for the empty list the width is taken to be 0. *)
Definition image : Type := list (list pixel).

Definition height (img : image) : nat := length img.
Definition width (img : image) : nat := length (hd [] img).

(** All rows have the image's width. *)
Definition rectangular (img : image) : Prop :=
  Forall (fun row => length row = width img) img.

Definition pixel_at (img : image) (x y : nat) : pixel :=
  nth x (nth y img []) black.

(** [image.crop((left, top, right, bottom))]: a new image; Pillow fills
    what lies outside the source with zeros. *)
Definition crop (img : image) (left top right bottom : nat) : image :=
  map (fun y => map (fun x => pixel_at img x y) (seq left (right - left)))
      (seq top (bottom - top)).

End Img.

(** ** Bounding-box trimmer *)

Module Trim.
Import Img.

(** [np.all(img_array == [255,255,255], axis=-1)] at one pixel. *)
Definition is_white (p : pixel) : bool :=
  let '(r, g, b) := p in ((r =? 255) && (g =? 255) && (b =? 255))%Z.

(** [np.all(is_white, axis=1)[y]] and [np.all(is_white, axis=0)[x]]. *)
Definition row_white (img : image) (y : nat) : bool :=
  forallb (fun x => is_white (pixel_at img x y)) (seq 0 (width img)).
Definition col_white (img : image) (x : nat) : bool :=
  forallb (fun y => is_white (pixel_at img x y)) (seq 0 (height img)).

Definition rows (img : image) : list nat :=
  where_ (fun y => negb (row_white img y)) (height img).
Definition cols (img : image) : list nat :=
  where_ (fun x => negb (col_white img x)) (width img).

Definition _trim_whitespace (img : image) : image :=
  if (length (rows img) =? 0) || (length (cols img) =? 0) then img
  else
    let top := hd 0 (rows img) in
    let bottom := last (rows img) 0 + 1 in
    let left := hd 0 (cols img) in
    let right := last (cols img) 0 + 1 in
    crop img left top right bottom.

(** Every pixel is pure white. *)
Definition all_white (img : image) : Prop :=
  forall x y, x < width img -> y < height img ->
              is_white (pixel_at img x y) = true.

(** No border row or column is pure white: an already-trimmed image. *)
Definition no_white_border (img : image) : Prop :=
  0 < height img /\ 0 < width img /\
  row_white img 0 = false /\ row_white img (height img - 1) = false /\
  col_white img 0 = false /\ col_white img (width img - 1) = false.

End Trim.

(** ** Projection segmenter *)

Module Segment.
Import Img.

(** Brightness of a pixel as [image.convert('L')] computes it: Pillow's
    fixed-point ITU-R 601-2 luma transform. *)
Definition luma (p : pixel) : Z :=
  let '(r, g, b) := p in
  Z.shiftr (r * 19595 + g * 38470 + b * 7471 + 32768) 16.

Definition convert_L (img : image) : list (list Z) := map (map luma) img.

(** [np.where(arr < 32, 0, 255)] *)
Definition binarize (arr : list (list Z)) : list (list Z) :=
  map (map (fun v => if (v <? 32)%Z then 0%Z else 255%Z)) arr.

(** [np.sum(binary == 0, axis=0)]: per column, the number of rows whose
    entry is 0. *)
Definition column_zero_count (binary : list (list Z)) (x : nat) : nat :=
  length (filter (fun row => (nth x row 255 =? 0)%Z) binary).

Definition vsum (img : image) : list nat :=
  let binary := binarize (convert_L img) in
  map (column_zero_count binary) (seq 0 (width img)).

(** The loop variables [parts] and [start]; a part is recorded by the
    columns it is cropped at. *)
Record scan_state : Type := {
  parts : list (nat * nat);
  start : option nat
}.

(** One iteration of [for x, count in enumerate(vsum)]. *)
Definition scan_step (st : scan_state) (xc : nat * nat) : scan_state :=
  let '(x, count) := xc in
  match start st with
  | None =>
      (* count>0 and start is None *)
      if 0 <? count then {| parts := parts st; start := Some x |} else st
  | Some s =>
      (* count==0 and start is not None *)
      if count =? 0 then
        {| parts := if 5 <=? x - s then parts st ++ [(s, x)] else parts st;
           start := None |}
      else st
  end.

Definition enumerate {A} (l : list A) : list (nat * A) :=
  combine (seq 0 (length l)) l.

(** The column intervals [(start, x)] of the parts, in the order they
    are appended. *)
Definition segment_spans (vsum : list nat) : list (nat * nat) :=
  let st := fold_left scan_step (enumerate vsum)
                      {| parts := []; start := None |} in
  match start st with
  | Some s =>
      if 5 <=? length vsum - s then parts st ++ [(s, length vsum)]
      else parts st
  | None => parts st
  end.

Definition _segment_letters_by_projection (img : image) : list image :=
  map (fun '(s, x) => crop img s 0 x (height img))
      (segment_spans (vsum img)).

(** A maximal run of consecutive columns with non-zero ink count:
    columns [s .. e-1] all have ink, the column before [s] (if any) and
    the column [e] (if any) have none. *)
Definition ink_run (v : list nat) (s e : nat) : Prop :=
  s < e /\ e <= length v /\
  (forall i, s <= i < e -> 0 < nth i v 0) /\
  (s = 0 \/ nth (s - 1) v 0 = 0) /\
  (e = length v \/ nth e v 0 = 0).

(** The number of pixels of column [x] whose brightness is below 32. *)
Definition ink_count (img : image) (x : nat) : nat :=
  length (filter (fun y => (luma (pixel_at img x y) <? 32)%Z)
                 (seq 0 (height img))).

(** Spans are ordered left to right, each ending before the next starts. *)
Definition before (p q : nat * nat) : Prop := snd p < fst q.

(** What holds of the loop variables when column [x] is about to be
    examined. *)
Record scan_inv (v : list nat) (x : nat) (st : scan_state) : Prop := {
  inv_bound : x <= length v;
  inv_parts : forall s e,
    In (s, e) (parts st) <-> ink_run v s e /\ 5 <= e - s /\ e < x;
  inv_sorted : StronglySorted before (parts st);
  inv_start :
    match start st with
    | None => x = 0 \/ nth (x - 1) v 0 = 0
    | Some s => s < x /\ (forall i, s <= i < x -> 0 < nth i v 0) /\
                (s = 0 \/ nth (s - 1) v 0 = 0)
    end
}.

End Segment.

(** ** Assembler *)

Module Assemble.
Import PyStr.
Local Open Scope string_scope.

Definition not_space (c : ascii) : bool := negb (Ascii.eqb c " ").

(** ["".join(extracted_text).replace(' ', '').strip()] *)
Definition assemble (extracted_text : list string) : string :=
  strip (remove_char " "%char (join extracted_text)).

End Assemble.

(** ** Rotation-search recognizer *)

Module Recognize.
Import Img PyStr PyFloat.
Local Open Scope string_scope.

(** The columns ["text"] and ["conf"] of the dictionary returned by
    [pytesseract.image_to_data]. *)
Record ocr_data (conf_t : Type) : Type := {
  text : list string;
  conf : list conf_t
}.
Arguments text {conf_t} o.
Arguments conf {conf_t} o.

(** The loop variables [best_char] and [best_conf]. *)
Record best : Type := {
  best_char : string;
  best_conf : pyfloat
}.

Definition sentinel : pyfloat := Fin (-1).
Definition initial_best : best := {| best_char := ""; best_conf := sentinel |}.

Definition angles : list Z := [-30; -15; 15; 30]%Z.

Section Recognizer.

(** What the engine stores as a confidence, and [float(conf)] on it:
    [None] when the conversion raises. *)
Variable conf_t : Type.
Variable float : conf_t -> option pyfloat.

(** [image.rotate(ang, expand=True, fillcolor=(255,255,255))] *)
Variable rotate : image -> Z -> image.

(** [pytesseract.image_to_data(rot, config=tconfig, output_type=DICT)] *)
Variable image_to_data : image -> result (ocr_data conf_t).

(** [for txt, conf in zip(data["text"], data["conf"])]: [continue] on
    an empty stripped text or a confidence that does not convert,
    [break] after the first pair that passes both tests. *)
Fixpoint scan_pairs (pairs : list (string * conf_t)) (b : best) : best :=
  match pairs with
  | [] => b
  | (txt, cf) :: rest =>
      let txt := strip txt in
      if is_empty txt then scan_pairs rest b
      else
        match float cf with
        | None => scan_pairs rest b
        | Some c_conf =>
            if gt c_conf (best_conf b)
            then {| best_char := txt; best_conf := c_conf |}
            else b
        end
  end.

Definition pairs_of (data : ocr_data conf_t) : list (string * conf_t) :=
  combine (text data) (conf data).

(** [for ang in angles] *)
Fixpoint rotations_loop (img : image) (angs : list Z) (b : best)
  : result best :=
  match angs with
  | [] => Ok b
  | ang :: rest =>
      let rot := rotate img ang in
      data <- image_to_data rot ;;
      rotations_loop img rest (scan_pairs (pairs_of data) b)
  end.

Definition _recognize_with_rotations (img : image) : result string :=
  b <- rotations_loop img angles initial_best ;;
  Ok (best_char b).

(** The capability answers with [ds], one dictionary per angle. *)
Definition answers (img : image) (angs : list Z)
           (ds : list (ocr_data conf_t)) : Prop :=
  Forall2 (fun ang d => image_to_data (rotate img ang) = Ok d) angs ds.

(** The first pair of a scan that passes both tests, with its
    stripped text and converted confidence. *)
Fixpoint first_accepted (pairs : list (string * conf_t))
  : option (string * pyfloat) :=
  match pairs with
  | [] => None
  | (txt, cf) :: rest =>
      if is_empty (strip txt) then first_accepted rest
      else
        match float cf with
        | None => first_accepted rest
        | Some c => Some (strip txt, c)
        end
  end.

(** [if c_conf > best_conf: best_conf, best_char = c_conf, txt] *)
Definition update_best (b : best) (a : option (string * pyfloat)) : best :=
  match a with
  | Some (t, c) =>
      if gt c (best_conf b) then {| best_char := t; best_conf := c |}
      else b
  | None => b
  end.

(** The pairs accepted at the angles, in the order of the angles. *)
Definition accepted_list (ds : list (ocr_data conf_t))
  : list (option (string * pyfloat)) :=
  map (fun d => first_accepted (pairs_of d)) ds.

(** A pair passes both tests of the scan: its stripped text [t] is
    non-empty and its confidence converts to [c]. *)
Definition qualifies (p : string * conf_t) (t : string) (c : pyfloat)
  : Prop :=
  strip (fst p) = t /\ t <> "" /\ float (snd p) = Some c.

(** The pair accepted at one angle: the first qualifying pair in the
    engine's order, if there is one. *)
Definition accepted_at (pairs : list (string * conf_t))
           (a : option (string * pyfloat)) : Prop :=
  match a with
  | Some (t, c) =>
      exists i p, nth_error pairs i = Some p /\ qualifies p t c /\
        forall j q, j < i -> nth_error pairs j = Some q ->
                    forall t' c', ~ qualifies q t' c'
  | None => forall p, In p pairs -> forall t c, ~ qualifies p t c
  end.

End Recognizer.

(** A confidence as the engine reports it for a recognized word: a
    number that is not negative (Tesseract's range is 0..100). *)
Definition valid_conf (c : pyfloat) : Prop :=
  match c with
  | Fin q => (0 <= q)%Q
  | _ => False
  end.

End Recognize.

(** ** [extract_text] *)

Module Extract.
Import Img PyStr.
Local Open Scope string_scope.

Section Stages.

(** [os.path.exists(self.image_path)] and
    [Image.open(self.image_path).convert('RGB')] *)
Variable path_exists : bool.
Variable open_rgb : result image.

(** The three stages, each a call that may raise. *)
Variable trim : image -> result image.
Variable segment : image -> result (list image).
Variable recognize : image -> result string.

Definition extract_text_with : result string :=
  if negb path_exists then Ok ""
  else
    (* try: ... except Exception: return "" *)
    match (image <- open_rgb ;; trim image) with
    | Raise _ => Ok ""
    | Ok image =>
        parts <- segment image ;;
        extracted_text <- for_each recognize parts ;;
        Ok (Assemble.assemble extracted_text)
    end.

End Stages.

Section Pipeline.

Variable conf_t : Type.
Variable float : conf_t -> option PyFloat.pyfloat.
Variable rotate : image -> Z -> image.
Variable image_to_data : image -> result (Recognize.ocr_data conf_t).

(** [extract_text] with the stages of this class. *)
Definition extract_text (path_exists : bool) (open_rgb : result image)
  : result string :=
  extract_text_with path_exists open_rgb
    (fun image => Ok (Trim._trim_whitespace image))
    (fun image => Ok (Segment._segment_letters_by_projection image))
    (Recognize._recognize_with_rotations conf_t float rotate image_to_data).

End Pipeline.

End Extract.

(** ** Solve-retry controller *)

Module Solver.
Import PyStr.
Local Open Scope Z_scope.

(** What the browser answers during one attempt. *)

(** [wait.until(EC.presence_of_element_located(...))]: the element, a
    [TimeoutException], or another exception. *)
Inductive detect_outcome : Type := Detected | DetectTimeout | DetectFault.

(** [browser.find_element(...)]: the element, a
    [NoSuchElementException], or another exception. *)
Inductive lookup_outcome : Type := Found | NotFound | LookupFault.

Record attempt_obs : Type := {
  detect : detect_outcome;
  (** [os.makedirs] and [captcha_img.screenshot] went through *)
  screenshot_ok : bool;
  (** [extractor.extract_text()] *)
  extracted : result string;
  (** the refresh icon, and whether clicking it went through; when it
      did not, whether what the click raised is a
      [NoSuchElementException] *)
  refresh_lookup : lookup_outcome;
  refresh_click_ok : bool;
  refresh_click_no_such : bool;
  (** the input field before submission; any failure is an exception *)
  input_lookup : bool;
  clear_ok : bool;
  send_keys_ok : bool;
  (** the submit button *)
  submit_lookup : bool;
  submit_click_ok : bool;
  (** the input field after submission *)
  still_captcha : lookup_outcome
}.

(** What the controller does that can be observed. *)
Inductive event : Type :=
| LogAttempt (attempt : Z)
| Screenshot (attempt : Z)
| ClickRefresh
| ClearInput
| SendKeys (s : string)
| ClickSubmit.

(** How the body of the loop is left. *)
Inductive flow : Type :=
| Continue
| Return (b : bool)
| Raised.

(** A piece of the loop body: the events it performs, and either a
    value to go on with or the way the body is left. *)
Definition act (A : Type) : Type := (list event * (A + flow))%type.

Definition ret {A} (a : A) : act A := ([], inl a).
Definition exit {A} (f : flow) : act A := ([], inr f).
Definition emit (e : event) : act unit := ([e], inl tt).

Definition then_ {A B} (m : act A) (k : A -> act B) : act B :=
  let '(ev, r) := m in
  match r with
  | inl a => let '(ev', r') := k a in (ev ++ ev', r')
  | inr f => (ev, inr f)
  end.

Notation "x <~ m ;; k" := (then_ m (fun x => k))
  (at level 61, m at next level, right associativity).
Notation "m ;;; k" := (then_ m (fun _ => k))
  (at level 61, right associativity).

Definition raise_unless (ok : bool) : act unit :=
  if ok then ret tt else exit Raised.

(** From "Enter CAPTCHA text" to the end of the [try] block. *)
Definition submit_and_verify (o : attempt_obs) (captcha_text : string)
  : act unit :=
  raise_unless (input_lookup o) ;;;
  raise_unless (clear_ok o) ;;;
  emit ClearInput ;;;
  raise_unless (send_keys_ok o) ;;;
  emit (SendKeys captcha_text) ;;;
  raise_unless (submit_lookup o) ;;;
  raise_unless (submit_click_ok o) ;;;
  emit ClickSubmit ;;;
  match still_captcha o with
  | Found => exit Continue
  | NotFound => exit (Return true)
  | LookupFault => exit Raised
  end.

(** The [try] block of one iteration. *)
Definition attempt_body (o : attempt_obs) (attempt max_attempts : Z)
  : act unit :=
  emit (LogAttempt attempt) ;;;
  match detect o with
  | Detected => ret tt
  | DetectTimeout => exit (Return true)
  | DetectFault => exit Raised
  end ;;;
  raise_unless (screenshot_ok o) ;;;
  emit (Screenshot attempt) ;;;
  text <~ match extracted o with
          | Ok s => ret s
          | Raise _ => exit Raised
          end ;;
  let captcha_text := keep_chars isalnum text in
  (if is_empty captcha_text then
     if attempt <? max_attempts then
       match refresh_lookup o with
       | Found =>
           if refresh_click_ok o then
             emit ClickRefresh ;;;
             exit Continue
           else if refresh_click_no_such o then ret tt
           else exit Raised
       | NotFound => ret tt
       | LookupFault => exit Raised
       end
     else ret tt
   else ret tt) ;;;
  submit_and_verify o captcha_text.

(** [for attempt in ...], with the [except Exception] handler and the
    [return False] after the loop. *)
Fixpoint attempts_loop (env : Z -> attempt_obs) (max_attempts : Z)
         (atts : list Z) : list event * bool :=
  match atts with
  | [] => ([], false)
  | attempt :: rest =>
      let '(ev, r) := attempt_body (env attempt) attempt max_attempts in
      let next :=
        let '(ev', b) := attempts_loop env max_attempts rest in
        (ev ++ ev', b) in
      match r with
      | inr (Return b) => (ev, b)
      | inr Raised => if max_attempts <=? attempt then (ev, false) else next
      | inr Continue => next
      | inl _ => next
      end
  end.

(** [k] consecutive integers from [lo] on, and [range(lo, hi)]. *)
Definition range_from (lo : Z) (k : nat) : list Z :=
  map (fun i => lo + Z.of_nat i) (seq 0 k).

Definition py_range (lo hi : Z) : list Z :=
  range_from lo (Z.to_nat (hi - lo)).

Definition _solve_captcha (env : Z -> attempt_obs) (max_attempts : Z)
  : list event * bool :=
  attempts_loop env max_attempts (py_range 1 (max_attempts + 1)).

(** The attempts that were started, in order. *)
Definition attempts_started (evs : list event) : list Z :=
  flat_map (fun e => match e with LogAttempt n => [n] | _ => [] end) evs.

Definition is_submit_event (e : event) : bool :=
  match e with
  | ClearInput | SendKeys _ | ClickSubmit => true
  | _ => false
  end.

(** One cycle written out step by step, in the order Detecting,
    Capturing, Recognizing, then the refresh or Submitting: for each
    step whether it goes through, and what is done when it does. *)
Definition is_detected (d : detect_outcome) : bool :=
  match d with
  | Detected => true
  | _ => false
  end.

(** The text that is typed: the alphanumeric characters of what was
    recognized. *)
Definition recognized (o : attempt_obs) : string :=
  match extracted o with
  | Ok text => keep_chars isalnum text
  | Raise _ => EmptyString
  end.

Inductive refresh_outcome : Type := Refreshed | NoRefresh | RefreshFault.

Definition refreshing (o : attempt_obs) (attempt max_attempts : Z)
  : refresh_outcome :=
  if is_empty (recognized o) && (attempt <? max_attempts) then
    match refresh_lookup o, refresh_click_ok o, refresh_click_no_such o with
    | Found, true, _ => Refreshed
    | Found, false, true => NoRefresh
    | Found, false, false => RefreshFault
    | NotFound, _, _ => NoRefresh
    | LookupFault, _, _ => RefreshFault
    end
  else NoRefresh.

Definition cycle_steps (o : attempt_obs) (attempt max_attempts : Z)
  : list (bool * list event) :=
  [(true, [LogAttempt attempt]);
   (is_detected (detect o), []);
   (screenshot_ok o, [Screenshot attempt]);
   (match extracted o with Ok _ => true | Raise _ => false end, [])]
  ++ match refreshing o attempt max_attempts with
     | Refreshed => [(true, [ClickRefresh])]
     | RefreshFault => [(false, [])]
     | NoRefresh =>
         [(input_lookup o && clear_ok o, [ClearInput]);
          (send_keys_ok o, [SendKeys (recognized o)]);
          (submit_lookup o && submit_click_ok o, [ClickSubmit])]
     end.

(** What is done of a list of steps: the steps before the first one
    that does not go through. *)
Fixpoint carried_out (steps : list (bool * list event)) : list event :=
  match steps with
  | [] => []
  | (ok, evs) :: rest => if ok then evs ++ carried_out rest else []
  end.

(** A full cycle with a submission. *)
Definition full_cycle (o : attempt_obs) (attempt : Z) : list event :=
  [LogAttempt attempt; Screenshot attempt;
   ClearInput; SendKeys (recognized o); ClickSubmit].

(** The browser does what it is asked and something is recognized:
    the screenshot is taken, the text has an alphanumeric character,
    the input field and the submit control are found and every action on
    them goes through. *)
Definition cooperative (o : attempt_obs) : Prop :=
  screenshot_ok o = true /\
  (exists text, extracted o = Ok text) /\
  recognized o <> EmptyString /\
  input_lookup o = true /\ clear_ok o = true /\ send_keys_ok o = true /\
  submit_lookup o = true /\ submit_click_ok o = true.

(** The challenge never disappears: its image is found at every
    attempt and its input field is never missing after a submission. *)
Definition never_disappears (env : Z -> attempt_obs) : Prop :=
  forall attempt, detect (env attempt) <> DetectTimeout /\
                  still_captcha (env attempt) <> NotFound.

End Solver.

(** ** Sample inputs *)

Module Samples.
Import Img.

(** A dark pixel inside a white frame. *)
Definition framed_dot : image :=
  [ [white; white; white];
    [white; black; white];
    [white; white; white] ].

(** An image with no white border. *)
Definition dot : image := [ [black] ].

Definition blank : image := [ [white; white]; [white; white] ].

(** One row of sixteen columns: six dark, two white, two dark (noise),
    one white, five dark up to the right edge. *)
Definition strip_image : image :=
  [ [black; black; black; black; black; black; white; white;
     black; black; white; black; black; black; black; black] ].

(** A scripted recognition engine.  Its confidences are given with
    the value [float] makes of them, [None] for one that does not
    convert; the rotation marks the image with its angle so that the
    script can answer per angle. *)
Definition conf_t : Type := option PyFloat.pyfloat.
Definition float (c : conf_t) : option PyFloat.pyfloat := c.

Definition rotate (img : image) (ang : Z) : image := [ [ (ang, 0, 0)%Z ] ].

Definition angle_of (img : image) : Z :=
  match img with
  | [ [ (a, _, _) ] ] => a
  | _ => 0%Z
  end.

Definition scripted (script : Z -> Recognize.ocr_data conf_t)
  : image -> result (Recognize.ocr_data conf_t) :=
  fun rot => Ok (script (angle_of rot)).

Definition data (l : list (string * conf_t)) : Recognize.ocr_data conf_t :=
  {| Recognize.text := map fst l; Recognize.conf := map snd l |}.

Definition num (z : Z) : conf_t := Some (PyFloat.Fin (inject_Z z)).

(** Blank rows and a fragment with spaces around it at -30; a
    confidence that does not convert at -15; equal confidences for
    different letters at 15 and 30. *)
Definition tie_script (ang : Z) : Recognize.ocr_data conf_t :=
  if (ang =? -30)%Z then data [(""%string, num (-1)); (" B "%string, num 80)]
  else if (ang =? -15)%Z then data [("A"%string, None); ("C"%string, num 80)]
  else if (ang =? 15)%Z then data [("D"%string, num 95); ("X"%string, num 99)]
  else data [("E"%string, num 95)].

(** The same two-letter fragment at every angle. *)
Definition pair_script (ang : Z) : Recognize.ocr_data conf_t :=
  data [("AB"%string, num 90)].

(** A fragment reported with the confidence -1 at every angle. *)
Definition low_script (ang : Z) : Recognize.ocr_data conf_t :=
  data [("Z"%string, num (-1))].

(** An engine whose every call fails. *)
Definition failing_engine : image -> result (Recognize.ocr_data conf_t) :=
  fun _ => Raise (OtherException "TesseractError").

(** Scripts for the browser. *)

(** The challenge is there, every element is found, every action goes
    through, and the input field is still there after the submission. *)
Definition stuck (text : string) : Solver.attempt_obs :=
  {| Solver.detect := Solver.Detected;
     Solver.screenshot_ok := true;
     Solver.extracted := Ok text;
     Solver.refresh_lookup := Solver.Found;
     Solver.refresh_click_ok := true;
     Solver.refresh_click_no_such := false;
     Solver.input_lookup := true;
     Solver.clear_ok := true;
     Solver.send_keys_ok := true;
     Solver.submit_lookup := true;
     Solver.submit_click_ok := true;
     Solver.still_captcha := Solver.Found |}.

(** As [stuck], without a refresh icon. *)
Definition stuck_no_refresh (text : string) : Solver.attempt_obs :=
  {| Solver.detect := Solver.Detected;
     Solver.screenshot_ok := true;
     Solver.extracted := Ok text;
     Solver.refresh_lookup := Solver.NotFound;
     Solver.refresh_click_ok := true;
     Solver.refresh_click_no_such := false;
     Solver.input_lookup := true;
     Solver.clear_ok := true;
     Solver.send_keys_ok := true;
     Solver.submit_lookup := true;
     Solver.submit_click_ok := true;
     Solver.still_captcha := Solver.Found |}.

(** The challenge is gone. *)
Definition gone : Solver.attempt_obs :=
  {| Solver.detect := Solver.DetectTimeout;
     Solver.screenshot_ok := true;
     Solver.extracted := Ok ""%string;
     Solver.refresh_lookup := Solver.NotFound;
     Solver.refresh_click_ok := true;
     Solver.refresh_click_no_such := false;
     Solver.input_lookup := false;
     Solver.clear_ok := true;
     Solver.send_keys_ok := true;
     Solver.submit_lookup := false;
     Solver.submit_click_ok := true;
     Solver.still_captcha := Solver.NotFound |}.

(** A challenge that never goes away and is read as "KXRTP". *)
Definition stubborn_env (attempt : Z) : Solver.attempt_obs :=
  stuck "KXRTP".

(** Nothing is recognized at the first attempt and there is no refresh
    icon; at the second attempt the challenge is gone. *)
Definition no_refresh_env (attempt : Z) : Solver.attempt_obs :=
  if (attempt =? 1)%Z then stuck_no_refresh ""%string else gone.

(** Only punctuation is recognized at the first attempt; the refresh
    icon is there. *)
Definition refresh_env (attempt : Z) : Solver.attempt_obs :=
  if (attempt =? 1)%Z then stuck "?!"%string else stuck "KXRTP".

End Samples.

From Stdlib Require Import Permutation.

(** ** More string operations *)

Module PyText.
Import PyStr.

(** [s.split(sep)] for a one-character [sep]. *)
Fixpoint split_char (sep : ascii) (s : string) : list string :=
  match s with
  | EmptyString => [EmptyString]
  | String c s' =>
      if Ascii.eqb c sep then EmptyString :: split_char sep s'
      else
        match split_char sep s' with
        | [] => [String c EmptyString]
        | p :: ps => String c p :: ps
        end
  end.

(** [s.split(sep, 1)] for a one-character [sep]: [parts[0]], and
    [parts[1]] when there is one. *)
Fixpoint split_once (sep : ascii) (s : string) : string * option string :=
  match s with
  | EmptyString => (EmptyString, None)
  | String c s' =>
      if Ascii.eqb c sep then (EmptyString, Some s')
      else let '(p, q) := split_once sep s' in (String c p, q)
  end.

(** [s.replace(old, new)] for one-character [old] and [new]. *)
Fixpoint replace_char (old new : ascii) (s : string) : string :=
  match s with
  | EmptyString => EmptyString
  | String c s' =>
      String (if Ascii.eqb c old then new else c) (replace_char old new s')
  end.

Fixpoint has_char (p : ascii -> bool) (s : string) : bool :=
  match s with
  | EmptyString => false
  | String c s' => p c || has_char p s'
  end.

(** [\d] on the code points 0..255. *)
Definition is_digit (c : ascii) : bool :=
  let n := code c in ((48 <=? n) && (n <=? 57))%nat.

Definition LF : ascii := ascii_of_nat 10.
Definition CR : ascii := ascii_of_nat 13.

(** The string has no leading or trailing whitespace and is not empty:
    what [strip] leaves of a non-blank string. *)
Definition clean (s : string) : Prop :=
  s <> EmptyString /\
  (forall c, first_char s = Some c -> isspace c = false) /\
  (forall c, last_char s = Some c -> isspace c = false).

(** The string holds no line feed and no carriage return. *)
Definition one_line (s : string) : Prop :=
  has_char (fun c => Ascii.eqb c LF || Ascii.eqb c CR) s = false.

Definition no_cr (s : string) : Prop :=
  has_char (fun c => Ascii.eqb c CR) s = false.

(** [[x.strip() for x in xs if x.strip()]] *)
Definition stripped_nonblank (xs : list string) : list string :=
  map strip (filter (fun x => negb (is_empty (strip x))) xs).

End PyText.

(** ** Text files *)

Module TextFile.
Import PyStr PyText.

(** What [open(path, 'r')] meets. *)
Inductive file_state : Type :=
| Missing
| Unreadable (e : exn)
| Content (text : string).

(** Reading in text mode: ["\r\n"] and ["\r"] become ["\n"]. *)
Fixpoint universal_newlines (s : string) : string :=
  match s with
  | EmptyString => EmptyString
  | String c s' =>
      if Ascii.eqb c CR then
        match s' with
        | String d s'' =>
            if Ascii.eqb d LF then String LF (universal_newlines s'')
            else String LF (universal_newlines s')
        | EmptyString => String LF EmptyString
        end
      else String c (universal_newlines s')
  end.

(** [for line in f]: the lines, each with its ["\n"], the last one
    without if the text does not end in one. *)
Fixpoint iter_lines (s : string) : list string :=
  match s with
  | EmptyString => []
  | String c s' =>
      if Ascii.eqb c LF then String LF EmptyString :: iter_lines s'
      else
        match iter_lines s' with
        | [] => [String c EmptyString]
        | l :: ls => String c l :: ls
        end
  end.

(** A line as the iteration over a file yields it: no line break but,
    at most, the line feed that ends it. *)
Definition file_line (l : string) : Prop :=
  exists body, one_line body /\ (l = body \/ l = append body (String LF EmptyString)).

Definition read_lines (text : string) : list string :=
  iter_lines (universal_newlines text).

(** Writing in text mode: every ["\n"] becomes the line separator of
    the platform. *)
Fixpoint write_text (linesep : string) (s : string) : string :=
  match s with
  | EmptyString => EmptyString
  | String c s' =>
      if Ascii.eqb c LF then append linesep (write_text linesep s')
      else String c (write_text linesep s')
  end.

(** [os.linesep] is ["\n"] or ["\r\n"]. *)
Definition is_linesep (linesep : string) : Prop :=
  linesep = String LF EmptyString \/
  linesep = String CR (String LF EmptyString).

End TextFile.

(** ** validate_proxies.py *)

Module ProxyFile.
Import PyStr PyText TextFile.

(** [load_proxies(filename)]: a missing file gives the empty list. *)
Definition load_proxies (file : file_state) : result (list string) :=
  match file with
  | Missing => Ok []
  | Unreadable e => Raise e
  | Content text => Ok (stripped_nonblank (read_lines text))
  end.

(** [save_valid_proxies(valid_proxies, filename)]: the text that reaches the file. *)
Definition save_valid_proxies (linesep : string) (valid_proxies : list string)
  : string :=
  String.concat EmptyString
    (map (fun proxy => write_text linesep (append proxy (String LF EmptyString)))
         valid_proxies).

(** [validate_proxies(input_file, output_file)].  [is_valid i proxy] is
    what [test_proxy] answers for the [i]-th proxy submitted;
    [completed] lists the submissions in the order in which they
    complete.  The result is what is written to the output file, if
    anything is. *)
Definition validate_proxies (input : file_state)
           (is_valid : nat -> string -> bool) (completed : list nat)
           (linesep : string) : result (option string) :=
  proxies <- load_proxies input ;;
  if (length proxies =? 0)%nat then Ok None
  else
    let valid_proxies :=
      flat_map (fun i =>
                  match nth_error proxies i with
                  | Some proxy => if is_valid i proxy then [proxy] else []
                  | None => []
                  end) completed in
    if (length valid_proxies =? 0)%nat then Ok None
    else Ok (Some (save_valid_proxies linesep valid_proxies)).

(** The proxies that pass the test, in the order of the input. *)
Definition working (is_valid : nat -> string -> bool) (proxies : list string)
  : list string :=
  flat_map (fun i =>
              match nth_error proxies i with
              | Some proxy => if is_valid i proxy then [proxy] else []
              | None => []
              end) (seq 0 (length proxies)).

End ProxyFile.

(** ** data_processing.py: ratings *)

Module Rating.
Import PyStr PyText.
Local Open Scope string_scope.

(** The longest prefix of digits, and what follows it. *)
Fixpoint take_digits (s : string) : string * string :=
  match s with
  | EmptyString => (EmptyString, EmptyString)
  | String c s' =>
      if is_digit c then let '(ds, rest) := take_digits s' in (String c ds, rest)
      else (EmptyString, s)
  end.

(** The match of [(\d+(\.\d+)?)] that starts at the beginning of [s]. *)
Definition match_number_at (s : string) : option string :=
  let '(ds, rest) := take_digits s in
  if is_empty ds then None
  else
    match rest with
    | String c rest' =>
        if Ascii.eqb c "."%char then
          let '(fs, _) := take_digits rest' in
          if is_empty fs then Some ds else Some (ds ++ "." ++ fs)
        else Some ds
    | EmptyString => Some ds
    end.

(** [re.search(r"(\d+(\.\d+)?)", s)]: group 1 of the leftmost match. *)
Fixpoint search_number (s : string) : option string :=
  match match_number_at s with
  | Some m => Some m
  | None =>
      match s with
      | EmptyString => None
      | String _ s' => search_number s'
      end
  end.

(** [extract_rating], on [str(rating_str)]. *)
Definition extract_rating (rating_str : string) : string :=
  if String.eqb (strip rating_str) "" || String.eqb (strip rating_str) "N/A"
  then "N/A"
  else
    match search_number rating_str with
    | Some m => m
    | None => "N/A"
    end.

(** Digits, optionally followed by a point and digits. *)
Definition numeral (s : string) : Prop :=
  exists ds, ds <> "" /\ all_chars is_digit ds = true /\
    (s = ds \/
     exists fs, fs <> "" /\ all_chars is_digit fs = true /\
                s = ds ++ "." ++ fs).

End Rating.

(** ** proxy_manager.py *)

Module ProxyManager.
Import PyStr PyText TextFile.

Section Clock.

(** The values of [time.time()], whether one of them is true as a
    condition (it is not zero), and the test
    [now - start >= rotation_seconds]. *)
Variable time_t : Type.
Variable time_truthy : time_t -> bool.
Variable elapsed_ge : time_t -> time_t -> Z -> bool.

(** The attributes of a [ProxyManager] that its rotation reads and
    writes.  [last_refresh], [refresh_interval] and [api_key] are
    used by [refresh_proxies_from_api] alone. *)
Record manager : Type := {
  proxies : list string;
  rotation_seconds : Z;
  current_proxy : option string;
  current_proxy_start_time : option time_t;
  used_proxies : list string;
  available_proxies : list string;
  api_url : option string
}.

(** [s.add(x)] on a set kept as a list without repetition. *)
Definition set_add (x : string) (s : list string) : list string :=
  if existsb (String.eqb x) s then s else s ++ [x].

(** [l.remove(x)]: without the first item equal to [x]. *)
Fixpoint list_remove (x : string) (l : list string) : list string :=
  match l with
  | [] => []
  | y :: l' => if String.eqb x y then l' else y :: list_remove x l'
  end.

(** [random.choice(seq)] for a non-empty [seq]; [rnd] is the draw. *)
Definition choice (rnd : nat) (seq : list string) : string :=
  nth (rnd mod length seq) seq EmptyString.

Definition reset_proxy_rotation (m : manager) : manager :=
  {| proxies := proxies m;
     rotation_seconds := rotation_seconds m;
     current_proxy := None;
     current_proxy_start_time := None;
     used_proxies := [];
     available_proxies := proxies m;
     api_url := api_url m |}.

(** [not x] for an optional string and for an optional time. *)
Definition falsy_str (x : option string) : bool :=
  match x with
  | None => true
  | Some s => is_empty s
  end.

Definition falsy_time (x : option time_t) : bool :=
  match x with
  | None => true
  | Some t => negb (time_truthy t)
  end.

Definition should_rotate_proxy (m : manager) (now : time_t) : bool :=
  if falsy_str (current_proxy m) || falsy_time (current_proxy_start_time m)
  then true
  else
    match current_proxy_start_time m with
    | Some start => elapsed_ge now start (rotation_seconds m)
    | None => true
    end.

Definition get_next_proxy (m : manager) (rnd : nat) (now : time_t)
  : option string * manager :=
  let m1 :=
    match available_proxies m with
    | [] => reset_proxy_rotation m
    | _ :: _ => m
    end in
  match available_proxies m1 with
  | [] => (None, m1)
  | _ :: _ =>
      let proxy := choice rnd (available_proxies m1) in
      (Some proxy,
       {| proxies := proxies m1;
          rotation_seconds := rotation_seconds m1;
          current_proxy := Some proxy;
          current_proxy_start_time := Some now;
          used_proxies := set_add proxy (used_proxies m1);
          available_proxies := list_remove proxy (available_proxies m1);
          api_url := api_url m1 |})
  end.

(** [now] is the time read by [should_rotate_proxy], [later] the one
    read by [get_next_proxy]. *)
Definition get_current_proxy (m : manager) (now : time_t) (rnd : nat)
           (later : time_t) : option string * manager :=
  if should_rotate_proxy m now then get_next_proxy m rnd later
  else (current_proxy m, m).

Definition get_proxy_for_selenium (m : manager) (now : time_t) (rnd : nat)
           (later : time_t) : option string * manager :=
  get_current_proxy m now rnd later.

Definition __len__ (m : manager) : nat := length (proxies m).

Definition with_proxies (m : manager) (l : list string) : manager :=
  {| proxies := l;
     rotation_seconds := rotation_seconds m;
     current_proxy := current_proxy m;
     current_proxy_start_time := current_proxy_start_time m;
     used_proxies := used_proxies m;
     available_proxies := available_proxies m;
     api_url := api_url m |}.

(** [os.getenv(name, default)] *)
Definition getenv (environ : string -> option string)
           (name default : string) : string :=
  match environ name with
  | Some value => value
  | None => default
  end.

Section Load.

(** The proxy file, the environment of the process
    ([os.environ]), and [refresh_proxies_from_api]. *)
Variable file : file_state.
Variable environ : string -> option string.
Variable refresh_proxies_from_api : manager -> manager.

Definition load_proxies (m : manager) : manager :=
  (* the file, when it exists and can be read *)
  let m1 :=
    match file with
    | Content text => with_proxies m (stripped_nonblank (read_lines text))
    | Missing => m
    | Unreadable _ => m
    end in
  (* then the environment *)
  let m2 :=
    match proxies m1 with
    | [] =>
        let env := getenv environ "PROXY_URLS" "" in
        with_proxies m1 (stripped_nonblank (split_char ","%char env))
    | _ :: _ => m1
    end in
  (* then the API *)
  let m3 :=
    match proxies m2 with
    | [] => if negb (falsy_str (api_url m2))
            then refresh_proxies_from_api m2 else m2
    | _ :: _ => m2
    end in
  match proxies m3 with
  | [] => m3
  | _ :: _ =>
      {| proxies := proxies m3;
         rotation_seconds := rotation_seconds m3;
         current_proxy := current_proxy m3;
         current_proxy_start_time := current_proxy_start_time m3;
         used_proxies := used_proxies m3;
         available_proxies := proxies m3;
         api_url := api_url m3 |}
  end.

(** [ProxyManager(rotation_minutes)] *)
Definition __init__ (rotation_minutes : Z) : manager :=
  load_proxies
    {| proxies := [];
       rotation_seconds := rotation_minutes * 60;
       current_proxy := None;
       current_proxy_start_time := None;
       used_proxies := [];
       available_proxies := [];
       api_url := environ "PROXY_API_URL" |}.

End Load.



(** Successive calls of [get_next_proxy], one per draw. *)
Fixpoint next_proxies (m : manager) (draws : list (nat * time_t))
  : list (option string) * manager :=
  match draws with
  | [] => ([], m)
  | (rnd, now) :: rest =>
      let '(p, m1) := get_next_proxy m rnd now in
      let '(ps, m2) := next_proxies m1 rest in
      (p :: ps, m2)
  end.

(** What the rotation keeps true: the proxies in use, waiting or
    used are configured ones. *)
Definition consistent (m : manager) : Prop :=
  incl (available_proxies m) (proxies m) /\
  incl (used_proxies m) (proxies m) /\
  (forall p, current_proxy m = Some p -> In p (proxies m)).

End Clock.

End ProxyManager.

(** ** amazon_scraper.py: product data *)

Module ProductData.
Import PyStr PyText.
Local Open Scope string_scope.

Inductive by_t : Type := CSS_SELECTOR | XPATH.

(** A value of the product dictionary: a string, or [None] (an
    attribute that the element does not have). *)
Inductive pyval : Type :=
| VStr (s : string)
| VNone.

(** An element that was found: [found_element.text] and
    [found_element.get_attribute('src')], calls that may raise. *)
Record element : Type := {
  text_of : result string;
  src_of : result pyval
}.

Definition dict : Type := list (string * pyval).

(** [d[key] = value]: in place for a key that is there, at the end for
    a new one. *)
Fixpoint dict_set (key : string) (value : pyval) (d : dict) : dict :=
  match d with
  | [] => [(key, value)]
  | (k, v) :: d' =>
      if String.eqb k key then (k, value) :: d'
      else (k, v) :: dict_set key value d'
  end.

(** [d.get(key)] *)
Fixpoint dict_get (key : string) (d : dict) : option pyval :=
  match d with
  | [] => None
  | (k, v) :: d' => if String.eqb k key then Some v else dict_get key d'
  end.

Definition keys (d : dict) : list string := map fst d.

(** [if value:] *)
Definition truthy (v : pyval) : bool :=
  match v with
  | VStr s => negb (is_empty s)
  | VNone => false
  end.

(** [value != "N/A"] *)
Definition not_na (v : pyval) : bool :=
  match v with
  | VStr s => negb (String.eqb s "N/A")
  | VNone => true
  end.

Definition dq : string := String (ascii_of_nat 34) "".
Definition dq_char : ascii := ascii_of_nat 34.

Definition AttributeError : exn := OtherException "AttributeError".

Definition extractors : list (string * list (by_t * string * string)) :=
  [
    ("name",
      [
       (CSS_SELECTOR, "span#productTitle", "text")
      ]);
    ("price",
      [
       (XPATH, "//*[@id=" ++ dq ++ "corePriceDisplay_desktop_feature_div" ++ dq ++ "]/div[1]/span[2]/span[2]", "text");
       (CSS_SELECTOR, "span.a-price span.a-offscreen", "text");
       (CSS_SELECTOR, "span.a-price", "text")
      ]);
    ("rating",
      [
       (XPATH, "//*[@id=" ++ dq ++ "cm_cr_dp_d_rating_histogram" ++ dq ++ "]/div[2]/div/div[2]/div/span/span", "text");
       (CSS_SELECTOR, "span.a-icon-alt", "text");
       (CSS_SELECTOR, "div.a-row a-spacing-small > span", "text")
      ]);
    ("image",
      [
       (CSS_SELECTOR, "img#landingImage", "src")
      ]);
    ("characteristics",
      [
       (XPATH, "//*[@id=" ++ dq ++ "poExpander" ++ dq ++ "]/div[1]/div/table/tbody", "text")
      ]);
    ("about_this_item",
      [
       (XPATH, "//*[@id=" ++ dq ++ "feature-bullets" ++ dq ++ "]/ul", "text");
       (CSS_SELECTOR, "div#feature-bullets ul", "text")
      ]);
    ("technical_details",
      [
       (XPATH, "//*[@id=" ++ dq ++ "productDetails_techSpec_section_1" ++ dq ++ "]/tbody", "text")
      ]);
    ("product_description",
      [
       (XPATH, "//*[@id=" ++ dq ++ "productDescription" ++ dq ++ "]/p/span", "text");
       (CSS_SELECTOR, "div#productDescription p", "text")
      ]);
    ("additional_information",
      [
       (XPATH, "//*[@id=" ++ dq ++ "productDetails_db_sections" ++ dq ++ "]", "text")
      ]);
    ("warranty",
      [
       (XPATH, "//*[@id=" ++ dq ++ "productSpecifications_dp_warranty_and_support" ++ dq ++ "]/div/div[1]/span[3]", "text")
      ]);
    ("compare_with_similar_items",
      [
       (XPATH, "//div[@class=" ++ dq ++ "_product-comparison-desktop_desktopFaceoutStyle_comparison-table-wrapper__1UCJ-" ++ dq ++ "]", "text")
      ])
  ].

Definition is_no_such (e : exn) : bool :=
  match e with
  | NoSuchElementException => true
  | _ => false
  end.

Section Browser.

(** [browser.find_element(by, selector)] *)
Variable find_element : by_t -> string -> result element.

(** The body of the [try] for one selector, up to the value. *)
Definition probe (sel : by_t * string * string) : result pyval :=
  let '(by_, selector, attr) := sel in
  found_element <- find_element by_ selector ;;
  if String.eqb attr "src" then src_of found_element
  else (t <- text_of found_element ;; Ok (VStr t)).

(** [for by, selector, attr in selector_list] *)
Fixpoint try_selectors (selector_list : list (by_t * string * string))
         (value : pyval) : result pyval :=
  match selector_list with
  | [] => Ok value
  | sel :: rest =>
      match probe sel with
      | Ok v => if truthy v then Ok v else try_selectors rest v
      | Raise e =>
          if is_no_such e then try_selectors rest value else Raise e
      end
  end.

(** What is stored for one key. *)
Definition store (key : string) (value : pyval) (data : dict)
  : result dict :=
  if String.eqb key "name" && not_na value then
    match value with
    | VStr s =>
        let '(part0, part1) := split_once dq_char s in
        let data := dict_set "name" (VStr (strip part0)) data in
        Ok (dict_set "resume"
                     (VStr (match part1 with
                            | Some p => strip p
                            | None => ""
                            end)) data)
    | VNone => Raise AttributeError
    end
  else if String.eqb key "characteristics" then
    match value with
    | VStr s => Ok (dict_set key (VStr (replace_char LF ","%char s)) data)
    | VNone => Raise AttributeError
    end
  else Ok (dict_set key value data).

(** [for key, selector_list in extractors.items()] *)
Fixpoint extract_loop (exts : list (string * list (by_t * string * string)))
         (data : dict) : result dict :=
  match exts with
  | [] => Ok data
  | (key, selector_list) :: rest =>
      value <- try_selectors selector_list (VStr "N/A") ;;
      data' <- store key value data ;;
      extract_loop rest data'
  end.

Definition _extract_product_data (url : string) : result dict :=
  data <- extract_loop extractors [] ;;
  Ok (dict_set "url" (VStr url) data).

(** The selectors before a position give no value that counts: no
    element, or an element whose value is empty or [None]. *)
Definition passed_over (sel : by_t * string * string) : Prop :=
  probe sel = Raise NoSuchElementException \/
  exists v, probe sel = Ok v /\ truthy v = false.

End Browser.

Definition keys_after_name : list string :=
  ["price"; "rating"; "image"; "characteristics"; "about_this_item";
   "technical_details"; "product_description"; "additional_information";
   "warranty"; "compare_with_similar_items"; "url"].

End ProductData.

(** ** amazon_scraper.py: loading one product page *)

Module Scraper.
Import PyStr ProductData.

(** What happens during one attempt to load a page. *)
Record page_obs : Type := {
  (** [browser.quit()] on the session of an earlier attempt *)
  quit_ok : bool;
  (** [uc.Chrome(options=options)] *)
  chrome_ok : bool;
  (** [browser.get(url)] *)
  get_ok : bool;
  (** the wait for [document.readyState] to be "complete" *)
  ready_ok : bool;
  (** the browser as [_solve_captcha] meets it *)
  captcha : Z -> Solver.attempt_obs;
  (** the wait for a product container, by selector *)
  container : string -> Solver.detect_outcome;
  (** the scrolling script and the pause *)
  scroll_ok : bool;
  (** the browser as [_extract_product_data] meets it *)
  find_element : by_t -> string -> result element
}.

(** What can be observed; a session is named by the attempt that
    opened it. *)
Inductive event : Type :=
| QuitCall (session : Z)
| OpenSession (session : Z)
| Captcha (events : list Solver.event) (solved : bool)
| Append (product_data : dict)
| WriteJson.

(** How the body of the loop is left. *)
Inductive flow : Type :=
| Break
| Next
| Raised.

Definition container_selectors : list string :=
  ["div#ppd"; "div#dp-container"; "div#centerCol"]%string.

(** [for selector in [...]]: whether a container was found. *)
Fixpoint find_container (o : page_obs) (selectors : list string)
  : result bool :=
  match selectors with
  | [] => Ok false
  | selector :: rest =>
      match container o selector with
      | Solver.Detected => Ok true
      | Solver.DetectTimeout => find_container o rest
      | Solver.DetectFault => Raise (OtherException "WebDriverException"%string)
      end
  end.

(** [product_data.get('name') != 'N/A'] *)
Definition has_name (product_data : dict) : bool :=
  match dict_get "name"%string product_data with
  | Some (VStr s) => negb (String.eqb s "N/A"%string)
  | Some VNone => true
  | None => true
  end.

(** The [try] block of one attempt.  [browser] is the session held
    when the attempt starts; the result gives the events, the session
    held afterwards and the way the block is left. *)
Definition page_body (url : string) (o : page_obs) (attempt : Z)
           (browser : option Z) : list event * option Z * flow :=
  let ev0 := match browser with
             | Some b => [QuitCall b]
             | None => []
             end in
  if match browser with Some _ => negb (quit_ok o) | None => false end
  then (ev0, browser, Raised)
  else if negb (chrome_ok o) then (ev0, browser, Raised)
  else
    let browser := Some attempt in
    let ev1 := ev0 ++ [OpenSession attempt] in
    if negb (get_ok o) then (ev1, browser, Raised)
    else if negb (ready_ok o) then (ev1, browser, Raised)
    else
      let '(cev, captcha_solved) := Solver._solve_captcha (captcha o) 5 in
      let ev2 := ev1 ++ [Captcha cev captcha_solved] in
      if negb captcha_solved then (ev2, browser, Next)
      else
        match find_container o container_selectors with
        | Raise _ => (ev2, browser, Raised)
        | Ok false => (ev2, browser, Next)
        | Ok true =>
            if negb (scroll_ok o) then (ev2, browser, Raised)
            else
              match _extract_product_data (find_element o) url with
              | Raise _ => (ev2, browser, Raised)
              | Ok product_data =>
                  if has_name product_data
                  then
                    let ev3 := ev2 ++ [Append product_data; WriteJson] in
                    (* [product_data['name']] in the message logged *)
                    match dict_get "name"%string product_data with
                    | Some _ => (ev3, browser, Break)
                    | None => (ev3, browser, Raised)
                    end
                  else (ev2, browser, Next)
              end
        end.

(** [for attempt in range(1, max_page_load_attempts + 1)] *)
Fixpoint page_loop (url : string) (env : Z -> page_obs) (atts : list Z)
         (browser : option Z) : list event * option Z :=
  match atts with
  | [] => ([], browser)
  | attempt :: rest =>
      let '(ev, browser, fl) := page_body url (env attempt) attempt browser in
      match fl with
      | Break => (ev, browser)
      | Next | Raised =>
          let '(ev', browser) := page_loop url env rest browser in
          (ev ++ ev', browser)
      end
  end.

Definition max_page_load_attempts : Z := 3.

(** The work of [main] on one URL, from [browser = None] to the
    [browser.quit()] after the loop.  [final_quit_ok] tells whether
    that last call goes through; when it does not, its exception
    leaves [main]. *)
Definition scrape_url (url : string) (env : Z -> page_obs)
           (final_quit_ok : bool) : list event * result unit :=
  let '(ev, browser) :=
    page_loop url env (Solver.py_range 1 (max_page_load_attempts + 1)) None in
  match browser with
  | Some b =>
      (ev ++ [QuitCall b],
       if final_quit_ok then Ok tt
       else Raise (OtherException "WebDriverException"%string))
  | None => (ev, Ok tt)
  end.

(** The call of [quit] that starts an attempt, if a session is held. *)
Definition quit_part (browser : option Z) : list event :=
  match browser with
  | Some b => [QuitCall b]
  | None => []
  end.

(** An attempt on which nothing fails: the session starts, the page
    loads, no challenge stays, a container is there and the data have
    a name. *)
Definition good (url : string) (o : page_obs) : Prop :=
  quit_ok o = true /\ chrome_ok o = true /\ get_ok o = true /\
  ready_ok o = true /\
  snd (Solver._solve_captcha (captcha o) 5) = true /\
  find_container o container_selectors = Ok true /\
  scroll_ok o = true /\
  exists product_data,
    _extract_product_data (find_element o) url = Ok product_data /\
    has_name product_data = true.

(** The sessions that were opened and not quit since, most recent
    first. *)
Fixpoint still_open (evs : list event) (opened : list Z) : list Z :=
  match evs with
  | [] => opened
  | OpenSession s :: rest => still_open rest (s :: opened)
  | QuitCall s :: rest =>
      still_open rest (filter (fun x => negb (x =? s)%Z) opened)
  | _ :: rest => still_open rest opened
  end.

Definition sessions (evs : list event) : list Z :=
  flat_map (fun e => match e with OpenSession s => [s] | _ => [] end) evs.

Definition appended (evs : list event) : list dict :=
  flat_map (fun e => match e with Append d => [d] | _ => [] end) evs.

End Scraper.

(** ** More sample inputs *)

Module MoreSamples.
Import PyText TextFile.
Local Open Scope string_scope.

Definition nl : string := String LF "".
Definition crlf : string := String CR (String LF "").

(** A proxy file with blank lines, spaces around an entry and a
    carriage return before a line feed. *)
Definition proxy_text : string :=
  "10.0.0.1:8080" ++ crlf ++ nl ++ "  10.0.0.2:3128 " ++ nl ++ "10.0.0.3:80".

Definition three_proxies : list string :=
  ["10.0.0.1:8080"; "10.0.0.2:3128"; "10.0.0.3:80"].

(** A manager over whole seconds: a time is true unless it is zero,
    and the elapsed time is the difference. *)
Definition seconds : Type := Z.
Definition seconds_truthy (t : seconds) : bool := negb (t =? 0)%Z.
Definition seconds_elapsed_ge (now start : seconds) (limit : Z) : bool :=
  (limit <=? now - start)%Z.

Definition no_api (m : ProxyManager.manager seconds) : ProxyManager.manager seconds := m.

(** An environment in which no variable is set, one that sets
    [PROXY_URLS], and one that sets a variable of another name. *)
Definition no_environ (name : string) : option string := None.



Definition sample_manager : ProxyManager.manager seconds :=
  ProxyManager.__init__ seconds (Content proxy_text) no_environ no_api 2.

(** An engine that answers as [Samples.tie_script] says, except at
    the angle 15, where it fails. *)
Definition fails_at_15 (rot : Img.image)
  : result (Recognize.ocr_data Samples.conf_t) :=
  if (Samples.angle_of rot =? 15)%Z
  then Raise (OtherException "TesseractError")
  else Ok (Samples.tie_script (Samples.angle_of rot)).

End MoreSamples.

Module PageSamples.
Import ProductData.
Local Open Scope string_scope.

(** A product page on which only the title and one of the price
    elements are there. *)
Definition title_text : string :=
  "Desk Lamp " ++ dq ++ "Aura" ++ dq ++ " 12W, warm white ".

Definition shown (t : string) : element :=
  {| text_of := Ok t; src_of := Ok VNone |}.

Definition lamp_page (by_ : by_t) (selector : string) : result element :=
  if String.eqb selector "span#productTitle" then Ok (shown title_text)
  else if String.eqb selector "span.a-price span.a-offscreen" then Ok (shown "")
  else if String.eqb selector "span.a-price" then Ok (shown "$19.99")
  else Raise NoSuchElementException.

Definition empty_page (by_ : by_t) (selector : string) : result element :=
  Raise NoSuchElementException.

(** A page on which the lookup of the first price element fails with
    an exception of the driver. *)
Definition broken_page (by_ : by_t) (selector : string) : result element :=
  if String.eqb selector "span#productTitle" then Ok (shown title_text)
  else Raise (OtherException "WebDriverException").

(** Loading a page: the first session cannot be started, the second
    meets a challenge that is not solved, the third finds no challenge
    and the product. *)
Definition load (chrome : bool) (captcha : Z -> Solver.attempt_obs)
  : Scraper.page_obs :=
  {| Scraper.quit_ok := true;
     Scraper.chrome_ok := chrome;
     Scraper.get_ok := true;
     Scraper.ready_ok := true;
     Scraper.captcha := captcha;
     Scraper.container := fun selector =>
       if String.eqb selector "div#dp-container" then Solver.Detected
       else Solver.DetectTimeout;
     Scraper.scroll_ok := true;
     Scraper.find_element := lamp_page |}.

Definition three_loads (attempt : Z) : Scraper.page_obs :=
  if (attempt =? 1)%Z then load false Samples.stubborn_env
  else if (attempt =? 2)%Z then load true Samples.stubborn_env
  else load true (fun _ => Samples.gone).

End PageSamples.

(** * Part II: properties *)

(** ** Lists and index ranges *)

Section ListFacts.

Context {A : Type}.

Lemma map_nth_seq_id (d : A) (l : list A) :
  map (fun i => nth i l d) (seq 0 (length l)) = l.
Proof.
  apply nth_ext with (d := d) (d' := d).
  - now rewrite length_map, length_seq.
  - intros n Hn. rewrite length_map, length_seq in Hn.
    rewrite nth_indep with (d' := nth 0 l d) by now rewrite length_map, length_seq.
    rewrite map_nth with (f := fun i => nth i l d) (d := 0).
    now rewrite seq_nth.
Qed.

Lemma nth_map_seq (f : nat -> A) (d : A) (s n i : nat) :
  i < n -> nth i (map f (seq s n)) d = f (s + i).
Proof.
  intros Hi.
  rewrite nth_indep with (d' := f 0) by now rewrite length_map, length_seq.
  rewrite map_nth with (d := 0). now rewrite seq_nth.
Qed.

Lemma last_In (l : list A) d : l <> [] -> In (last l d) l.
Proof.
  intros H. destruct (exists_last H) as (l' & z & ->).
  rewrite last_last. apply in_or_app. right. now left.
Qed.

Lemma hd_In (l : list A) d : l <> [] -> In (hd d l) l.
Proof. destruct l; [congruence|]. intros _. now left. Qed.

Lemma forallb_false_iff (f : A -> bool) (l : list A) :
  forallb f l = false <-> exists x, In x l /\ f x = false.
Proof.
  induction l as [|a l IH]; simpl.
  - split; [discriminate|]. intros (x & [] & _).
  - rewrite andb_false_iff, IH. split.
    + intros [H|(x & Hin & Hx)]; [exists a|exists x]; auto.
    + intros (x & [<-|Hin] & Hx); [now left|right; now exists x].
Qed.

End ListFacts.

Lemma where_In mask n i : In i (where_ mask n) <-> i < n /\ mask i = true.
Proof.
  unfold where_. rewrite filter_In, in_seq. intuition lia.
Qed.

Lemma filter_seq_hd_le mask s n a d :
  In a (filter mask (seq s n)) -> hd d (filter mask (seq s n)) <= a.
Proof.
  revert s. induction n as [|n IH]; intros s; simpl; [tauto|].
  destruct (mask s) eqn:E; simpl.
  - intros [<-|H]; [lia|]. apply filter_In in H as [H _]. apply in_seq in H. lia.
  - apply IH.
Qed.

Lemma filter_seq_last_ge mask s n a d :
  In a (filter mask (seq s n)) -> a <= last (filter mask (seq s n)) d.
Proof.
  revert s. induction n as [|n IH]; intros s; [simpl; tauto|].
  cbn [seq filter]. destruct (mask s) eqn:E.
  - intros [<-|H].
    + destruct (filter mask (seq (S s) n)) as [|b l] eqn:F; [simpl; lia|].
      assert (Hb : In (last (b :: l) d) (filter mask (seq (S s) n))).
      { rewrite F. apply last_In. discriminate. }
      apply filter_In in Hb as [Hb _]. apply in_seq in Hb.
      change (last (s :: b :: l) d) with (last (b :: l) d). lia.
    + specialize (IH _ H).
      destruct (filter mask (seq (S s) n)) as [|b l]; [destruct H|].
      exact IH.
  - apply IH.
Qed.

Lemma where_hd_first mask n d :
  0 < n -> mask 0 = true -> hd d (where_ mask n) = 0.
Proof.
  intros Hn H0.
  assert (H : In 0 (where_ mask n)) by (apply where_In; split; [lia|exact H0]).
  pose proof (filter_seq_hd_le mask 0 n 0 d H). unfold where_. lia.
Qed.

Lemma where_last_final mask n d :
  0 < n -> mask (n - 1) = true -> last (where_ mask n) d = n - 1.
Proof.
  intros Hn H0.
  assert (H : In (n - 1) (where_ mask n)) by (apply where_In; split; [lia|exact H0]).
  pose proof (filter_seq_last_ge mask 0 n _ d H) as Hge.
  assert (Hne : where_ mask n <> []) by (intros E; rewrite E in H; destruct H).
  pose proof (last_In _ d Hne) as Hl. apply where_In in Hl as [Hl _].
  unfold where_ in *. lia.
Qed.

(** ** Cropping *)

Module ImgFacts.
Import Img.

Lemma crop_height img l t r b : height (crop img l t r b) = b - t.
Proof. unfold height, crop. now rewrite length_map, length_seq. Qed.

Lemma crop_width img l t r b : t < b -> width (crop img l t r b) = r - l.
Proof.
  intros H. unfold width, crop.
  destruct (b - t) as [|k] eqn:E; [lia|]. simpl.
  now rewrite length_map, length_seq.
Qed.

Lemma crop_rectangular img l t r b : rectangular (crop img l t r b).
Proof.
  destruct (Nat.lt_ge_cases t b) as [H|H].
  - unfold rectangular. rewrite crop_width by exact H.
    unfold crop. apply Forall_forall. intros row Hin.
    apply in_map_iff in Hin as (y & <- & _).
    now rewrite length_map, length_seq.
  - unfold crop. replace (b - t) with 0 by lia. constructor.
Qed.

Lemma crop_pixel_at img l t r b x y :
  x < r - l -> y < b - t ->
  pixel_at (crop img l t r b) x y = pixel_at img (l + x) (t + y).
Proof.
  intros Hx Hy. unfold pixel_at at 1. unfold crop.
  rewrite nth_map_seq by exact Hy.
  now rewrite nth_map_seq by exact Hx.
Qed.

Lemma row_length img y :
  rectangular img -> y < height img -> length (nth y img []) = width img.
Proof.
  intros Hrect Hy. unfold rectangular in Hrect.
  rewrite Forall_forall in Hrect. apply Hrect. now apply nth_In.
Qed.

Lemma crop_full img :
  rectangular img -> crop img 0 0 (width img) (height img) = img.
Proof.
  intros Hrect. unfold crop. rewrite !Nat.sub_0_r.
  transitivity (map (fun y => nth y img []) (seq 0 (length img)));
    [|apply map_nth_seq_id].
  apply map_ext_in. intros y Hy. apply in_seq in Hy.
  unfold pixel_at. rewrite <- (row_length img y Hrect) by (unfold height; lia).
  apply map_nth_seq_id.
Qed.

End ImgFacts.

(** ** The trimmer *)

Module TrimFacts.
Import Img ImgFacts Trim.

Lemma row_white_false img y :
  row_white img y = false <->
  exists x, x < width img /\ is_white (pixel_at img x y) = false.
Proof.
  unfold row_white. rewrite forallb_false_iff.
  split; intros (x & H & Hx); exists x; split; auto;
    rewrite in_seq in *; lia.
Qed.

Lemma col_white_false img x :
  col_white img x = false <->
  exists y, y < height img /\ is_white (pixel_at img x y) = false.
Proof.
  unfold col_white. rewrite forallb_false_iff.
  split; intros (y & H & Hy); exists y; split; auto;
    rewrite in_seq in *; lia.
Qed.

Lemma rows_In img y :
  In y (rows img) <-> y < height img /\ row_white img y = false.
Proof. unfold rows. rewrite where_In, negb_true_iff. tauto. Qed.

Lemma cols_In img x :
  In x (cols img) <-> x < width img /\ col_white img x = false.
Proof. unfold cols. rewrite where_In, negb_true_iff. tauto. Qed.

Lemma all_white_rows img : all_white img -> rows img = [].
Proof.
  intros H. destruct (rows img) as [|y l] eqn:E; [reflexivity|].
  assert (Hy : In y (rows img)) by (rewrite E; now left).
  apply rows_In in Hy as [Hy Hw]. apply row_white_false in Hw as (x & Hx & Hp).
  rewrite (H x y Hx Hy) in Hp. discriminate.
Qed.

Lemma trim_all_white img : all_white img -> _trim_whitespace img = img.
Proof.
  intros H. unfold _trim_whitespace. now rewrite (all_white_rows _ H).
Qed.

Lemma trim_of_trimmed img :
  rectangular img -> no_white_border img -> _trim_whitespace img = img.
Proof.
  intros Hrect (Hh & Hw & Hr0 & Hr1 & Hc0 & Hc1).
  unfold _trim_whitespace.
  assert (R0 : In 0 (rows img)) by (apply rows_In; auto).
  assert (C0 : In 0 (cols img)) by (apply cols_In; auto).
  destruct (rows img) as [|r rs] eqn:ER; [destruct R0|].
  destruct (cols img) as [|c cs] eqn:EC; [destruct C0|].
  cbn [length Nat.eqb orb]. rewrite <- ER, <- EC.
  unfold rows, cols.
  rewrite !where_hd_first, !where_last_final
    by (auto; now apply negb_true_iff).
  replace (height img - 1 + 1) with (height img) by lia.
  replace (width img - 1 + 1) with (width img) by lia.
  now apply crop_full.
Qed.

Lemma cropped_no_white_border img :
  rows img <> [] -> cols img <> [] ->
  no_white_border
    (crop img (hd 0 (cols img)) (hd 0 (rows img))
          (last (cols img) 0 + 1) (last (rows img) 0 + 1)).
Proof.
  intros HR HC.
  pose proof (hd_In _ 0 HR) as Htop. pose proof (last_In _ 0 HR) as Hbot.
  pose proof (hd_In _ 0 HC) as Hleft. pose proof (last_In _ 0 HC) as Hright.
  set (top := hd 0 (rows img)) in *. set (bot := last (rows img) 0) in *.
  set (left := hd 0 (cols img)) in *. set (right := last (cols img) 0) in *.
  assert (Hrow : forall y, In y (rows img) -> top <= y <= bot).
  { intros y Hy. split; [apply filter_seq_hd_le|apply filter_seq_last_ge]; exact Hy. }
  assert (Hcol : forall x, In x (cols img) -> left <= x <= right).
  { intros x Hx. split; [apply filter_seq_hd_le|apply filter_seq_last_ge]; exact Hx. }
  pose proof (Hrow _ Htop) as Htb. pose proof (Hcol _ Hleft) as Hlr.
  (* a non-white row has a non-white pixel inside the column range,
     and a non-white column has one inside the row range *)
  assert (Hrw : forall y, In y (rows img) ->
            exists x, left <= x <= right /\ is_white (pixel_at img x y) = false).
  { intros y Hy. apply rows_In in Hy as [Hy Hw].
    apply row_white_false in Hw as (x & Hx & Hp). exists x. split; [|exact Hp].
    apply Hcol, cols_In. split; [exact Hx|]. apply col_white_false. now exists y. }
  assert (Hcw : forall x, In x (cols img) ->
            exists y, top <= y <= bot /\ is_white (pixel_at img x y) = false).
  { intros x Hx. apply cols_In in Hx as [Hx Hw].
    apply col_white_false in Hw as (y & Hy & Hp). exists y. split; [|exact Hp].
    apply Hrow, rows_In. split; [exact Hy|]. apply row_white_false. now exists x. }
  unfold no_white_border.
  rewrite crop_height, crop_width by lia.
  split; [lia|]. split; [lia|].
  repeat split.
  - apply row_white_false. destruct (Hrw _ Htop) as (x & Hx & Hp).
    rewrite crop_width by lia. exists (x - left). split; [lia|].
    rewrite crop_pixel_at by lia.
    replace (left + (x - left)) with x by lia. now rewrite Nat.add_0_r.
  - apply row_white_false. destruct (Hrw _ Hbot) as (x & Hx & Hp).
    rewrite crop_width by lia. exists (x - left). split; [lia|].
    rewrite crop_pixel_at by lia.
    replace (left + (x - left)) with x by lia.
    now replace (top + (bot + 1 - top - 1)) with bot by lia.
  - apply col_white_false. destruct (Hcw _ Hleft) as (y & Hy & Hp).
    rewrite crop_height. exists (y - top). split; [lia|].
    rewrite crop_pixel_at by lia.
    replace (top + (y - top)) with y by lia. now rewrite Nat.add_0_r.
  - apply col_white_false. destruct (Hcw _ Hright) as (y & Hy & Hp).
    rewrite crop_height. exists (y - top). split; [lia|].
    rewrite crop_pixel_at by lia.
    replace (top + (y - top)) with y by lia.
    now replace (left + (right + 1 - left - 1)) with right by lia.
Qed.

Lemma trim_cases img :
  _trim_whitespace img = img \/
  (rows img <> [] /\ cols img <> [] /\
   _trim_whitespace img =
     crop img (hd 0 (cols img)) (hd 0 (rows img))
          (last (cols img) 0 + 1) (last (rows img) 0 + 1)).
Proof.
  unfold _trim_whitespace.
  destruct (rows img) as [|r rs]; [now left|].
  destruct (cols img) as [|c cs]; [now left|].
  right. repeat split; discriminate || reflexivity.
Qed.

(** C8.  Trimming is idempotent: for every image, trimming the trimmed
    image gives the trimmed image again.  An image whose first and last
    rows and columns each hold a pixel that is not pure white is
    returned with the same pixels and size, and so is an image all of
    whose pixels are pure white. *)
Theorem trim_whitespace_idempotent (img : image) :
  _trim_whitespace (_trim_whitespace img) = _trim_whitespace img /\
  (rectangular img -> no_white_border img -> _trim_whitespace img = img) /\
  (all_white img -> _trim_whitespace img = img).
Proof.
  split; [|split].
  - destruct (trim_cases img) as [E|(HR & HC & E)]; rewrite E.
    + exact E.
    + apply trim_of_trimmed; [apply crop_rectangular|].
      now apply cropped_no_white_border.
  - apply trim_of_trimmed.
  - apply trim_all_white.
Qed.

Lemma trim_whitespace_idempotent_witness :
  _trim_whitespace Samples.framed_dot = Samples.dot /\
  _trim_whitespace (_trim_whitespace Samples.framed_dot)
    = _trim_whitespace Samples.framed_dot /\
  _trim_whitespace Samples.dot = Samples.dot /\
  _trim_whitespace Samples.blank = Samples.blank.
Proof.
  split; [reflexivity|]. split; [|split].
  - apply (proj1 (trim_whitespace_idempotent Samples.framed_dot)).
  - apply (proj1 (proj2 (trim_whitespace_idempotent Samples.dot))).
    + constructor; [reflexivity|constructor].
    + unfold no_white_border. cbn. repeat split; lia.
  - apply (proj2 (proj2 (trim_whitespace_idempotent Samples.blank))).
    intros x y Hx Hy. cbv in Hx, Hy.
    destruct x as [|[|x]]; destruct y as [|[|y]]; try lia; reflexivity.
Defined.

End TrimFacts.

(** ** The segmenter *)

Module SegmentFacts.
Import Img ImgFacts Segment.

Lemma StronglySorted_snoc {A} (R : A -> A -> Prop) l b :
  StronglySorted R l -> (forall a, In a l -> R a b) ->
  StronglySorted R (l ++ [b]).
Proof.
  induction 1 as [|a l Hl IH Ha]; intros Hb; simpl.
  - repeat constructor.
  - constructor.
    + apply IH. intros; apply Hb; now right.
    + apply Forall_app. split; [exact Ha|].
      constructor; [|constructor]. apply Hb. now left.
Qed.

(** A run that is open at [x] starts where the scan recorded it. *)
Lemma open_run_start v x s a :
  s < x -> (forall i, s <= i < x -> 0 < nth i v 0) ->
  (s = 0 \/ nth (s - 1) v 0 = 0) ->
  a < x -> (forall i, a <= i < x -> 0 < nth i v 0) ->
  (a = 0 \/ nth (a - 1) v 0 = 0) ->
  a = s.
Proof.
  intros Hs Hink Hs0 Ha Hinka Ha0.
  destruct (Nat.lt_trichotomy a s) as [Hlt|[Heq|Hgt]]; [|exact Heq|].
  - destruct Hs0 as [->|Hz]; [lia|].
    specialize (Hinka (s - 1)). lia.
  - destruct Ha0 as [->|Hz]; [lia|].
    specialize (Hink (a - 1)). lia.
Qed.

Lemma scan_inv_init v : scan_inv v 0 {| parts := []; start := None |}.
Proof.
  constructor; simpl.
  - lia.
  - intros s e. split; [tauto|]. intros (_ & _ & H). lia.
  - constructor.
  - now left.
Qed.

Lemma scan_inv_step v x st :
  x < length v -> scan_inv v x st ->
  scan_inv v (S x) (scan_step st (x, nth x v 0)).
Proof.
  intros Hx [Hb Hparts Hsorted Hstart].
  unfold scan_step. destruct (start st) as [s|] eqn:Es.
  - destruct Hstart as (Hsx & Hink & Hs0).
    destruct (Nat.eqb_spec (nth x v 0) 0) as [Hc|Hc].
    + (* the run [s, x) closes at column x *)
      assert (Hrun : ink_run v s x).
      { unfold ink_run. split; [exact Hsx|]. split; [lia|]. split; [exact Hink|]. split; [exact Hs0|now right]. }
      assert (Hprev : forall a b, In (a, b) (parts st) -> b < s).
      { intros a b Hin. apply Hparts in Hin as ((_ & _ & _ & _ & He) & _ & Hlt).
        destruct He as [He|He]; [lia|].
        destruct (Nat.lt_ge_cases b s) as [|Hge]; [assumption|].
        specialize (Hink b). lia. }
      constructor; cbn [parts start].
      * lia.
      * intros a b. split.
        -- intros Hin.
           assert (Hor : In (a, b) (parts st) \/ ((a, b) = (s, x) /\ 5 <= x - s)).
           { destruct (5 <=? x - s) eqn:E5.
             - apply in_app_or in Hin as [Hin|[Hin|[]]]; [now left|].
               right. apply Nat.leb_le in E5. now split.
             - now left. }
           destruct Hor as [Hin'|[Heq H5]].
           ++ apply Hparts in Hin'. intuition lia.
           ++ injection Heq as -> ->. repeat split; auto.
        -- intros (Hr & H5 & Hlt).
           destruct (Nat.eq_dec b x) as [->|Hne].
           ++ destruct Hr as (Hax & _ & Hinka & Ha0 & _).
              assert (a = s) by (eapply open_run_start; eauto). subst a.
              destruct (Nat.leb_spec 5 (x - s)); [|lia].
              apply in_or_app. right. now left.
           ++ assert (Hin : In (a, b) (parts st)) by (apply Hparts; split; [exact Hr|lia]).
              destruct (5 <=? x - s); [apply in_or_app; now left|exact Hin].
      * destruct (5 <=? x - s); [|exact Hsorted].
        apply StronglySorted_snoc; [exact Hsorted|].
        intros [a b] Hin. unfold before; simpl. eapply Hprev; eauto.
      * right. replace (S x - 1) with x by lia. exact Hc.
    + (* the run goes on *)
      constructor; rewrite ?Es; cbn [parts start].
      * lia.
      * intros a b. rewrite Hparts. split.
        -- intuition lia.
        -- intros (Hr & H5 & Hlt). split; [exact Hr|]. split; [exact H5|].
           destruct (Nat.eq_dec b x) as [->|]; [|lia].
           destruct Hr as (_ & _ & _ & _ & [He|He]); lia.
      * exact Hsorted.
      * split; [lia|]. split; [|exact Hs0]. intros i Hi.
        destruct (Nat.eq_dec i x) as [->|]; [lia|]. apply Hink. lia.
  - destruct (Nat.ltb_spec 0 (nth x v 0)) as [Hc|Hc].
    + (* a run opens at column x *)
      constructor; cbn [parts start].
      * lia.
      * intros a b. rewrite Hparts. split.
        -- intuition lia.
        -- intros (Hr & H5 & Hlt). split; [exact Hr|]. split; [exact H5|].
           destruct (Nat.eq_dec b x) as [->|]; [|lia].
           destruct Hr as (_ & _ & _ & _ & [He|He]); lia.
      * exact Hsorted.
      * split; [lia|]. split.
        -- intros i Hi. replace i with x by lia. exact Hc.
        -- destruct Hstart as [->|Hz]; [now left|right; exact Hz].
    + (* background goes on *)
      constructor; rewrite ?Es; cbn [parts start].
      * lia.
      * intros a b. rewrite Hparts. split.
        -- intuition lia.
        -- intros (Hr & H5 & Hlt). split; [exact Hr|]. split; [exact H5|].
           destruct (Nat.eq_dec b x) as [->|]; [|lia].
           destruct Hr as (Hax & _ & Hinka & _ & _).
           destruct Hstart as [->|Hz]; [lia|].
           specialize (Hinka (x - 1)). lia.
      * exact Hsorted.
      * right. replace (S x - 1) with x by lia. lia.
Qed.

Lemma scan_inv_fold v cs :
  forall pre st, v = pre ++ cs -> scan_inv v (length pre) st ->
    scan_inv v (length v)
      (fold_left scan_step (combine (seq (length pre) (length cs)) cs) st).
Proof.
  induction cs as [|c cs IH]; intros pre st Hv Hinv.
  - simpl. rewrite app_nil_r in Hv. now subst.
  - simpl.
    assert (Hc : nth (length pre) v 0 = c) by (subst v; apply nth_middle).
    assert (Hlt : length pre < length v).
    { subst v. rewrite length_app. simpl. lia. }
    pose proof (scan_inv_step v _ st Hlt Hinv) as Hstep. rewrite Hc in Hstep.
    specialize (IH (pre ++ [c]) (scan_step st (length pre, c))).
    rewrite length_app in IH. simpl in IH. rewrite Nat.add_1_r in IH.
    apply IH; [|exact Hstep].
    rewrite <- app_assoc. exact Hv.
Qed.

Lemma scan_inv_final v :
  scan_inv v (length v)
    (fold_left scan_step (enumerate v) {| parts := []; start := None |}).
Proof.
  apply (scan_inv_fold v v [] _ eq_refl). apply scan_inv_init.
Qed.

Lemma segment_spans_exact v s e :
  In (s, e) (segment_spans v) <-> ink_run v s e /\ 5 <= e - s.
Proof.
  unfold segment_spans.
  destruct (scan_inv_final v) as [_ Hparts _ Hstart].
  set (st := fold_left scan_step (enumerate v) _) in *.
  assert (Hclosed : forall a b, ink_run v a b -> b <> length v -> b < length v).
  { intros a b (_ & Hle & _) Hne. lia. }
  destruct (start st) as [s0|].
  - destruct Hstart as (Hs0 & Hink & Hz).
    assert (Hrun : ink_run v s0 (length v)).
    { unfold ink_run. split; [exact Hs0|]. split; [lia|]. split; [exact Hink|]. split; [exact Hz|now left]. }
    assert (Huniq : forall a, ink_run v a (length v) -> a = s0).
    { intros a (Ha & _ & Hinka & Ha0 & _). eapply open_run_start; eauto. }
    destruct (Nat.leb_spec 5 (length v - s0)) as [H5|H5].
    + split.
      * intros Hin. apply in_app_or in Hin as [Hin|[Hin|[]]].
        -- apply Hparts in Hin. tauto.
        -- injection Hin as <- <-. now split.
      * intros (Hr & Hw). apply in_or_app.
        destruct (Nat.eq_dec e (length v)) as [->|Hne].
        -- right. left. now rewrite (Huniq _ Hr).
        -- left. apply Hparts. split; [exact Hr|]. split; [exact Hw|]. eauto.
    + rewrite Hparts. split; [tauto|].
      intros (Hr & Hw). split; [exact Hr|]. split; [exact Hw|].
      destruct (Nat.eq_dec e (length v)) as [->|Hne]; [|eauto].
      rewrite (Huniq _ Hr) in Hw. lia.
  - rewrite Hparts. split; [tauto|].
    intros (Hr & Hw). split; [exact Hr|]. split; [exact Hw|].
    destruct (Nat.eq_dec e (length v)) as [->|Hne]; [|eauto].
    destruct Hr as (Ha & _ & Hinka & _ & _).
    destruct Hstart as [Hz|Hz]; [lia|].
    specialize (Hinka (length v - 1)). lia.
Qed.

Lemma segment_spans_sorted v : StronglySorted before (segment_spans v).
Proof.
  unfold segment_spans.
  destruct (scan_inv_final v) as [_ Hparts Hsorted Hstart].
  set (st := fold_left scan_step (enumerate v) _) in *.
  destruct (start st) as [s0|]; [|exact Hsorted].
  destruct (5 <=? length v - s0); [|exact Hsorted].
  apply StronglySorted_snoc; [exact Hsorted|].
  intros [a b] Hin. unfold before; simpl.
  apply Hparts in Hin as ((_ & _ & _ & _ & He) & _ & Hlt).
  destruct Hstart as (_ & Hink & _).
  destruct He as [He|He]; [lia|].
  destruct (Nat.lt_ge_cases b s0) as [|Hge]; [assumption|].
  specialize (Hink b). lia.
Qed.

Lemma vsum_length img : length (vsum img) = width img.
Proof. unfold vsum. now rewrite length_map, length_seq. Qed.

Lemma length_filter_map {A B} (p : B -> bool) (g : A -> B) l :
  length (filter p (map g l)) = length (filter (fun a => p (g a)) l).
Proof.
  induction l as [|a l IH]; simpl; [reflexivity|].
  destruct (p (g a)); simpl; now rewrite IH.
Qed.

(** An entry of the projection counts the pixels of its column whose
    brightness is below 32. *)
Lemma vsum_ink_count img x :
  rectangular img -> x < width img -> nth x (vsum img) 0 = ink_count img x.
Proof.
  intros Hrect Hx. unfold vsum.
  rewrite nth_map_seq by exact Hx. simpl.
  unfold column_zero_count, ink_count, binarize, convert_L.
  rewrite !length_filter_map.
  rewrite <- (map_nth_seq_id [] img) at 1.
  rewrite length_filter_map. f_equal.
  apply filter_ext_in. intros y Hy. apply in_seq in Hy.
  unfold pixel_at.
  assert (Hlen : x < length (nth y img [])).
  { rewrite row_length; auto. lia. }
  set (f := fun v : Z => if (v <? 32)%Z then 0%Z else 255%Z).
  rewrite nth_indep with (d' := f (luma black))
    by now rewrite !length_map.
  rewrite map_nth with (f := f), map_nth with (f := luma).
  unfold f. now destruct (luma (nth x (nth y img []) black) <? 32)%Z.
Qed.

Lemma StronglySorted_nth {A} (R : A -> A -> Prop) l :
  StronglySorted R l ->
  forall i j a b, i < j -> nth_error l i = Some a -> nth_error l j = Some b ->
                  R a b.
Proof.
  induction 1 as [|x l Hl IH Hx]; intros i j a b Hij Ha Hb.
  - destruct i; discriminate.
  - destruct j as [|j]; [lia|]. simpl in Hb.
    destruct i as [|i]; simpl in Ha.
    + injection Ha as ->. rewrite Forall_forall in Hx.
      apply Hx. eapply nth_error_In; eauto.
    + apply (IH i j a b); [lia|exact Ha|exact Hb].
Qed.

Lemma StronglySorted_weaken {A} (R R' : A -> A -> Prop) l :
  (forall a b, In a l -> In b l -> R a b -> R' a b) ->
  StronglySorted R l -> StronglySorted R' l.
Proof.
  intros Hw Hs. induction Hs as [|x l Hl IH Hx]; constructor.
  - apply IH. intros a b Ha Hb. apply Hw; now right.
  - rewrite Forall_forall in *. intros b Hb.
    apply Hw; [now left|now right|now apply Hx].
Qed.

(** C7.  The parts returned for an image are exactly the maximal runs
    of consecutive columns with non-zero ink count that are at least 5
    columns wide, a run reaching the last column included; a column's
    count is the number of its pixels with brightness strictly below
    32; the parts come in left-to-right order, each cropped over the
    full height from the image that was passed in; without such a run
    the result is the empty list. *)
Theorem projection_segments_exact (img : image) :
  let v := vsum img in
  let spans := segment_spans v in
  (rectangular img ->
   forall x, x < width img -> nth x v 0 = ink_count img x) /\
  length v = width img /\
  (forall s e, In (s, e) spans <-> ink_run v s e /\ 5 <= e - s) /\
  StronglySorted (fun p q => fst p < fst q) spans /\
  length (_segment_letters_by_projection img) = length spans /\
  (forall k s e, nth_error spans k = Some (s, e) ->
     exists part, nth_error (_segment_letters_by_projection img) k = Some part /\
       part = crop img s 0 e (height img) /\
       height part = height img /\
       forall x y, x < e - s -> y < height img ->
                   pixel_at part x y = pixel_at img (s + x) y) /\
  ((forall s e, ink_run v s e -> e - s < 5) ->
   _segment_letters_by_projection img = []).
Proof.
  intros v spans.
  split; [intros Hrect x Hx; now apply vsum_ink_count|].
  split; [apply vsum_length|].
  split; [intros s e; apply segment_spans_exact|].
  split.
  { apply StronglySorted_weaken with (R := before); [|apply segment_spans_sorted].
    intros [s e] [s' e'] Ha _ Hb. unfold before in Hb. simpl in *.
    apply segment_spans_exact in Ha as ((Hse & _) & _). lia. }
  split; [unfold _segment_letters_by_projection; now rewrite length_map|].
  split.
  - intros k s e Hk. exists (crop img s 0 e (height img)).
    split; [|split; [reflexivity|split]].
    + unfold _segment_letters_by_projection. fold v. fold spans.
      rewrite nth_error_map, Hk. reflexivity.
    + rewrite crop_height. lia.
    + intros x y Hx Hy. rewrite crop_pixel_at by lia. reflexivity.
  - intros Hnone. unfold _segment_letters_by_projection. fold v. fold spans.
    destruct spans as [|[s e] l] eqn:E; [reflexivity|].
    assert (Hin : In (s, e) spans) by (rewrite E; now left).
    apply segment_spans_exact in Hin as (Hr & Hw).
    specialize (Hnone s e Hr). lia.
Qed.

Lemma projection_segments_exact_witness :
  segment_spans (vsum Samples.strip_image) = [(0, 6); (11, 16)] /\
  nth 3 (vsum Samples.strip_image) 0 = ink_count Samples.strip_image 3 /\
  (exists part,
      nth_error (_segment_letters_by_projection Samples.strip_image) 1
        = Some part /\
      part = crop Samples.strip_image 11 0 16 1) /\
  _segment_letters_by_projection Samples.blank = [].
Proof.
  split; [reflexivity|].
  pose proof (projection_segments_exact Samples.strip_image) as H.
  cbv zeta in H. destruct H as (Hink & _ & _ & _ & _ & Hcrop & _).
  split; [|split].
  - apply Hink; [constructor; [reflexivity|constructor]|cbv; lia].
  - destruct (Hcrop 1 11 16 eq_refl) as (part & Hp & Heq & _).
    exists part. split; [exact Hp|exact Heq].
  - apply (projection_segments_exact Samples.blank).
    intros s e (Hse & Hle & Hink' & _). cbv in Hle.
    specialize (Hink' s). cbv in Hink'.
    destruct s as [|[|s]]; lia.
Defined.

(** C10.  The column intervals of the returned parts are non-empty,
    pairwise disjoint and increasing: an earlier part ends at or before
    the column where a later one starts, and between the two lies a
    column whose ink count is zero. *)
Theorem segment_intervals_separated (img : image) :
  forall i j s1 e1 s2 e2,
    i < j ->
    nth_error (segment_spans (vsum img)) i = Some (s1, e1) ->
    nth_error (segment_spans (vsum img)) j = Some (s2, e2) ->
    s1 < e1 /\ e1 <= s2 /\ s2 < e2 /\
    exists c, e1 <= c < s2 /\ nth c (vsum img) 0 = 0.
Proof.
  intros i j s1 e1 s2 e2 Hij H1 H2.
  pose proof (StronglySorted_nth _ _ (segment_spans_sorted (vsum img))
                i j _ _ Hij H1 H2) as Hb.
  unfold before in Hb. simpl in Hb.
  apply nth_error_In, segment_spans_exact in H1 as ((Hs1 & _ & _ & _ & He1) & _).
  apply nth_error_In, segment_spans_exact in H2 as ((Hs2 & Hle2 & _) & _).
  repeat split; try lia.
  exists e1. split; [lia|]. destruct He1 as [He1|He1]; [lia|exact He1].
Qed.

Lemma segment_intervals_separated_witness :
  (0 < 6 /\ 6 <= 11 /\ 11 < 16 /\
   exists c, 6 <= c < 11 /\ nth c (vsum Samples.strip_image) 0 = 0).
Proof.
  apply (segment_intervals_separated Samples.strip_image 0 1 0 6 11 16);
    [lia|reflexivity|reflexivity].
Defined.

End SegmentFacts.

(** ** Strings *)

Module PyStrFacts.
Import PyStr.
Local Open Scope string_scope.

Lemma append_nil_r s : s ++ "" = s.
Proof. induction s as [|c s IH]; simpl; [reflexivity|now rewrite IH]. Qed.

Lemma append_assoc a b c : (a ++ b) ++ c = a ++ b ++ c.
Proof. induction a as [|x a IH]; simpl; [reflexivity|now rewrite IH]. Qed.

Lemma is_empty_true s : is_empty s = true <-> s = "".
Proof. destruct s; simpl; split; intros; congruence. Qed.

Lemma all_chars_app p a b :
  all_chars p (a ++ b) = all_chars p a && all_chars p b.
Proof.
  induction a as [|c a IH]; simpl; [reflexivity|].
  now rewrite IH, andb_assoc.
Qed.

Lemma last_char_none s : last_char s = None -> s = "".
Proof.
  destruct s as [|c s]; [reflexivity|]. simpl.
  destruct (last_char s); discriminate.
Qed.

Lemma join_cons s l : join (s :: l) = s ++ join l.
Proof.
  unfold join. destruct l as [|t l]; simpl.
  - now rewrite append_nil_r.
  - reflexivity.
Qed.

(** [''.join] is the concatenation in order. *)
Lemma join_fold l : join l = fold_right append "" l.
Proof.
  induction l as [|s l IH]; [reflexivity|].
  rewrite join_cons, IH. reflexivity.
Qed.

Lemma remove_char_keep old s :
  remove_char old s = keep_chars (fun c => negb (Ascii.eqb c old)) s.
Proof.
  induction s as [|c s IH]; simpl; [reflexivity|].
  destruct (Ascii.eqb c old); simpl; now rewrite IH.
Qed.

Lemma keep_chars_all p s : all_chars p (keep_chars p s) = true.
Proof.
  induction s as [|c s IH]; simpl; [reflexivity|].
  destruct (p c) eqn:E; simpl; [now rewrite E|exact IH].
Qed.

Lemma lstrip_spec s :
  exists pre, s = pre ++ lstrip s /\ all_chars isspace pre = true /\
              forall c, first_char (lstrip s) = Some c -> isspace c = false.
Proof.
  induction s as [|c s (pre & Hs & Hpre & Hfirst)]; simpl.
  - exists "". repeat split. discriminate.
  - destruct (isspace c) eqn:E.
    + exists (String c pre). simpl. rewrite E, Hpre.
      repeat split; [now rewrite <- Hs|exact Hfirst].
    + exists "". repeat split. simpl. intros d [= <-]. exact E.
Qed.

Lemma rstrip_spec s :
  exists post, s = rstrip s ++ post /\ all_chars isspace post = true /\
               forall c, last_char (rstrip s) = Some c -> isspace c = false.
Proof.
  induction s as [|c s (post & Hs & Hpost & Hlast)]; simpl.
  - exists "". repeat split. discriminate.
  - destruct (is_empty (rstrip s) && isspace c) eqn:E.
    + apply andb_true_iff in E as [Er Ec]. apply is_empty_true in Er.
      rewrite Er in Hs. simpl in Hs. subst s.
      exists (String c post). simpl. rewrite Ec, Hpost.
      repeat split. discriminate.
    + exists post. simpl. split; [now rewrite <- Hs|]. split; [exact Hpost|].
      intros d. destruct (last_char (rstrip s)) as [d'|] eqn:El.
      * intros [= <-]. now apply Hlast.
      * intros [= <-]. apply last_char_none in El. rewrite El in E.
        simpl in E. exact E.
Qed.

Lemma rstrip_first s c :
  first_char s = Some c -> isspace c = false ->
  first_char (rstrip s) = Some c.
Proof.
  destruct s as [|d s]; simpl; [discriminate|].
  intros [= ->] E. now rewrite E, andb_false_r.
Qed.

Lemma rstrip_first_inv s c :
  first_char (rstrip s) = Some c -> first_char s = Some c.
Proof.
  destruct s as [|d s]; simpl; [discriminate|].
  destruct (is_empty (rstrip s) && isspace d); simpl; [discriminate|auto].
Qed.

(** [strip] removes a whitespace prefix and a whitespace suffix, and
    what is left neither starts nor ends with whitespace. *)
Lemma strip_spec s :
  exists pre post,
    s = pre ++ strip s ++ post /\
    all_chars isspace pre = true /\ all_chars isspace post = true /\
    (forall c, first_char (strip s) = Some c -> isspace c = false) /\
    (forall c, last_char (strip s) = Some c -> isspace c = false).
Proof.
  destruct (lstrip_spec s) as (pre & Hs & Hpre & Hfirst).
  destruct (rstrip_spec (lstrip s)) as (post & Hl & Hpost & Hlast).
  exists pre, post. unfold strip. repeat split; auto.
  - now rewrite <- Hl.
  - intros c Hc. apply Hfirst. now apply rstrip_first_inv.
Qed.

Lemma strip_empty : strip "" = "".
Proof. reflexivity. Qed.

End PyStrFacts.

(** ** The assembler *)

Module AssembleFacts.
Import PyStr PyStrFacts Assemble.
Local Open Scope string_scope.

Lemma concat_all_empty l :
  Forall (fun s => s = "") l -> fold_right append "" l = "".
Proof.
  induction 1 as [|s l Hs _ IH]; simpl; [reflexivity|].
  now rewrite Hs, IH.
Qed.

(** C9.  The assembled string is the concatenation of the parts in
    order, with every space character removed, less a prefix and a
    suffix made of whitespace only; it holds no space character and
    neither starts nor ends with whitespace.  The parts "A", "", "B",
    " " give "AB"; no parts, or empty parts only, give the empty
    string. *)
Theorem assemble_spec (extracted_text : list string) :
  let whole := fold_right append "" extracted_text in
  let r := assemble extracted_text in
  (exists pre post,
      keep_chars not_space whole = pre ++ r ++ post /\
      all_chars isspace pre = true /\ all_chars isspace post = true) /\
  all_chars not_space r = true /\
  (forall c, first_char r = Some c -> isspace c = false) /\
  (forall c, last_char r = Some c -> isspace c = false) /\
  assemble ["A"; ""; "B"; " "] = "AB" /\
  assemble [] = "" /\
  (Forall (fun s => s = "") extracted_text -> r = "").
Proof.
  intros whole r.
  assert (Hr : r = strip (keep_chars not_space whole)).
  { unfold r, assemble, whole. now rewrite remove_char_keep, join_fold. }
  destruct (strip_spec (keep_chars not_space whole))
    as (pre & post & Hs & Hpre & Hpost & Hfirst & Hlast).
  rewrite <- Hr in *.
  split; [now exists pre, post|].
  split.
  { pose proof (keep_chars_all not_space whole) as Hall.
    rewrite Hs, !all_chars_app in Hall.
    apply andb_true_iff in Hall as [_ Hall].
    now apply andb_true_iff in Hall as [Hall _]. }
  split; [exact Hfirst|]. split; [exact Hlast|].
  split; [reflexivity|]. split; [reflexivity|].
  intros Hall. rewrite Hr.
  unfold whole. now rewrite (concat_all_empty _ Hall).
Qed.

Lemma assemble_spec_witness :
  Forall (fun s => s = "") [""; ""] /\ assemble [""; ""] = "".
Proof.
  assert (H : Forall (fun s => s = "") [""; ""]) by (repeat constructor).
  split; [exact H|].
  apply (proj2 (proj2 (proj2 (proj2 (proj2 (proj2
           (assemble_spec [""; ""]))))))).
  exact H.
Defined.

End AssembleFacts.

(** ** Float comparison *)

Module PyFloatFacts.
Import PyFloat.

Lemma gt_fin x y : gt (Fin x) (Fin y) = true <-> (y < x)%Q.
Proof.
  simpl. rewrite negb_true_iff. split.
  - intros H. apply Qnot_le_lt. intros Hle.
    apply Qle_bool_iff in Hle. congruence.
  - intros H. destruct (Qle_bool x y) eqn:E; [|reflexivity].
    apply Qle_bool_iff in E. exfalso. eapply Qlt_not_le; eauto.
Qed.

Lemma gt_fin_false x y : gt (Fin x) (Fin y) = false <-> (x <= y)%Q.
Proof.
  simpl. rewrite negb_false_iff. apply Qle_bool_iff.
Qed.

Lemma gt_irrefl a : gt a a = false.
Proof.
  destruct a; try reflexivity. apply gt_fin_false. apply Qle_refl.
Qed.

Lemma gt_trans a b c : gt a b = true -> gt b c = true -> gt a c = true.
Proof.
  destruct a, b, c; try (simpl; congruence).
  rewrite !gt_fin. intros H1 H2. eapply Qlt_trans; eauto.
Qed.

Lemma gt_asym a b : gt a b = true -> gt b a = false.
Proof.
  intros H. destruct (gt b a) eqn:E; [|reflexivity].
  pose proof (gt_trans _ _ _ H E) as Hc. rewrite gt_irrefl in Hc. discriminate.
Qed.

(** Below or equal, then below: [a <= b < c] gives [a < c] when [a]
    and [b] are numbers. *)
Lemma gt_le_trans a b c :
  is_nan a = false -> is_nan b = false ->
  gt a b = false -> gt c b = true -> gt c a = true.
Proof.
  destruct a, b, c; try (simpl; congruence).
  intros _ _. rewrite gt_fin_false, !gt_fin. intros H1 H2.
  eapply Qle_lt_trans; eauto.
Qed.

Lemma gt_not_nan_l a b : gt a b = true -> is_nan a = false.
Proof. destruct a, b; simpl; congruence. Qed.

End PyFloatFacts.

(** ** The recognizer *)

Module RecognizeFacts.
Import Img PyStr PyStrFacts PyFloat PyFloatFacts Recognize.
Local Open Scope string_scope.

(** Arbitration between the pairs accepted at the successive angles. *)
Lemma arbitrate_spec (accs : list (option (string * pyfloat))) :
  forall b0, is_nan (best_conf b0) = false ->
    let b := fold_left update_best accs b0 in
    (b = b0 /\
     forall k t c, nth_error accs k = Some (Some (t, c)) ->
                   gt c (best_conf b0) = false)
    \/
    (exists k t c,
        nth_error accs k = Some (Some (t, c)) /\
        b = {| best_char := t; best_conf := c |} /\
        gt c (best_conf b0) = true /\
        (forall j t' c', nth_error accs j = Some (Some (t', c')) ->
                         gt c' c = false) /\
        (forall j t' c', j < k -> nth_error accs j = Some (Some (t', c')) ->
                         gt c c' = true \/ is_nan c' = true)).
Proof.
  induction accs as [|a rest IH]; intros b0 Hnan; cbn zeta.
  - left. split; [reflexivity|]. intros [|k] t c; discriminate.
  - cbn [fold_left]. destruct a as [[t0 c0]|]; cbn [update_best].
    + destruct (gt c0 (best_conf b0)) eqn:E.
      * (* the pair takes the lead *)
        specialize (IH {| best_char := t0; best_conf := c0 |}
                       (gt_not_nan_l _ _ E)).
        cbn zeta in IH. cbn [best_conf] in IH. right.
        destruct IH as [[Hb Hrest]|(k & t & c & Hk & Hb & Hgt & Hmax & Hearlier)].
        -- exists 0, t0, c0. repeat split; auto.
           ++ intros [|j] t' c' Hj; simpl in Hj.
              ** injection Hj as <- <-. apply gt_irrefl.
              ** eapply Hrest; eauto.
           ++ intros j t' c' Hj. lia.
        -- exists (S k), t, c. repeat split; auto.
           ++ eapply gt_trans; eauto.
           ++ intros [|j] t' c' Hj; simpl in Hj.
              ** injection Hj as <- <-. now apply gt_asym.
              ** eapply Hmax; eauto.
           ++ intros [|j] t' c' Hlt Hj; simpl in Hj.
              ** injection Hj as <- <-. now left.
              ** apply (Hearlier j t'); [lia|exact Hj].
      * (* the pair is accepted but does not take the lead *)
        specialize (IH b0 Hnan). cbn zeta in IH.
        destruct IH as [[Hb Hrest]|(k & t & c & Hk & Hb & Hgt & Hmax & Hearlier)].
        -- left. split; [exact Hb|].
           intros [|j] t' c' Hj; simpl in Hj.
           ++ now injection Hj as <- <-.
           ++ eapply Hrest; eauto.
        -- right. exists (S k), t, c. repeat split; auto.
           ++ intros [|j] t' c' Hj; simpl in Hj.
              ** injection Hj as <- <-.
                 destruct (gt c0 c) eqn:E'; [|reflexivity].
                 rewrite (gt_trans _ _ _ E' Hgt) in E. discriminate.
              ** eapply Hmax; eauto.
           ++ intros [|j] t' c' Hlt Hj; simpl in Hj.
              ** injection Hj as <- <-.
                 destruct (is_nan c0) eqn:En; [now right|left].
                 exact (gt_le_trans c0 (best_conf b0) c En Hnan E Hgt).
              ** apply (Hearlier j t'); [lia|exact Hj].
    + (* nothing accepted at this angle *)
      specialize (IH b0 Hnan). cbn zeta in IH.
      destruct IH as [[Hb Hrest]|(k & t & c & Hk & Hb & Hgt & Hmax & Hearlier)].
      * left. split; [exact Hb|].
        intros [|j] t' c' Hj; simpl in Hj; [discriminate|].
        eapply Hrest; eauto.
      * right. exists (S k), t, c. repeat split; auto.
        -- intros [|j] t' c' Hj; simpl in Hj; [discriminate|].
           eapply Hmax; eauto.
        -- intros [|j] t' c' Hlt Hj; simpl in Hj; [discriminate|].
           apply (Hearlier j t'); [lia|exact Hj].
Qed.

Section WithEngine.

Variable conf_t : Type.
Variable float : conf_t -> option pyfloat.
Variable rotate : image -> Z -> image.
Variable image_to_data : image -> result (ocr_data conf_t).

Local Abbreviation scan_pairs := (scan_pairs conf_t float).
Local Abbreviation first_accepted := (first_accepted conf_t float).
Local Abbreviation accepted_at := (accepted_at conf_t float).
Local Abbreviation qualifies := (qualifies conf_t float).
Local Abbreviation answers := (answers conf_t rotate image_to_data).
Local Abbreviation rotations_loop := (rotations_loop conf_t float rotate image_to_data).
Local Abbreviation pairs_of := (pairs_of conf_t).
Local Abbreviation accepted_list := (accepted_list conf_t float).
Local Abbreviation recognize :=
  (_recognize_with_rotations conf_t float rotate image_to_data).

(** The scan of one angle updates the best pair with the first pair
    that passes both tests, and with nothing else. *)
Lemma scan_pairs_first pairs b :
  scan_pairs pairs b = update_best b (first_accepted pairs).
Proof.
  induction pairs as [|[txt cf] rest IH]; simpl; [reflexivity|].
  destruct (is_empty (strip txt)); [exact IH|].
  destruct (float cf); [reflexivity|exact IH].
Qed.

Lemma accepted_at_skip p rest a :
  (forall t c, ~ qualifies p t c) ->
  accepted_at rest a -> accepted_at (p :: rest) a.
Proof.
  intros Hp. destruct a as [[t c]|]; simpl.
  - intros (i & q & Hi & Hq & Hfirst). exists (S i), q.
    split; [exact Hi|]. split; [exact Hq|].
    intros [|j] q' Hlt Hj; simpl in Hj.
    + injection Hj as <-. exact Hp.
    + apply (Hfirst j); [lia|exact Hj].
  - intros Hnone q [<-|Hin]; [exact Hp|now apply Hnone].
Qed.

Lemma first_accepted_spec pairs : accepted_at pairs (first_accepted pairs).
Proof.
  induction pairs as [|[txt cf] rest IH]; cbn [Recognize.first_accepted].
  - intros p [].
  - destruct (is_empty (strip txt)) eqn:E.
    + apply accepted_at_skip; [|exact IH].
      intros t c (Ht & Hne & _). simpl in Ht.
      apply is_empty_true in E. congruence.
    + destruct (float cf) as [c|] eqn:F.
      * exists 0, (txt, cf). split; [reflexivity|]. split.
        -- split; [reflexivity|]. split; [|exact F].
           intros Hs. rewrite Hs in E. discriminate.
        -- intros j q Hj. lia.
      * apply accepted_at_skip; [|exact IH].
        intros t c (_ & _ & Hf). simpl in Hf. congruence.
Qed.

(** At most one outcome fits the description of acceptance. *)
Lemma accepted_at_unique pairs a a' :
  accepted_at pairs a -> accepted_at pairs a' -> a = a'.
Proof.
  assert (Hsn : forall t c, accepted_at pairs (Some (t, c)) ->
                            accepted_at pairs None -> False).
  { intros t c (i & p & Hi & Hq & _) Hnone.
    eapply Hnone; eauto. eapply nth_error_In; eauto. }
  destruct a as [[t c]|], a' as [[t' c']|]; intros H H'; try reflexivity;
    try (exfalso; eapply Hsn; eassumption).
  destruct H as (i & p & Hi & Hq & Hfirst).
  destruct H' as (i' & p' & Hi' & Hq' & Hfirst').
  destruct (Nat.lt_trichotomy i i') as [Hlt|[->|Hlt]].
  - exfalso. eapply Hfirst'; eauto.
  - rewrite Hi in Hi'. injection Hi' as <-.
    destruct Hq as (Ht & _ & Hc), Hq' as (Ht' & _ & Hc').
    congruence.
  - exfalso. eapply Hfirst; eauto.
Qed.

Lemma rotations_loop_answers img angs ds :
  answers img angs ds ->
  forall b, rotations_loop img angs b =
            Ok (fold_left update_best
                          (map (fun d => first_accepted (pairs_of d)) ds) b).
Proof.
  induction 1 as [|ang d angs ds Hd _ IH]; intros b; simpl; [reflexivity|].
  rewrite Hd. simpl. rewrite scan_pairs_first. apply IH.
Qed.

(** The first fault of the capability leaves the recognizer. *)
Lemma rotations_loop_raises img angs ds ang e rest :
  answers img angs ds ->
  image_to_data (rotate img ang) = Raise e ->
  forall b, rotations_loop img (angs ++ ang :: rest) b = Raise e.
Proof.
  induction 1 as [|a d angs ds Hd _ IH]; intros He b; simpl.
  - now rewrite He.
  - rewrite Hd. simpl. now apply IH.
Qed.

Lemma update_best_nonempty b a :
  (forall t c, a = Some (t, c) -> t <> "") ->
  best_char b <> "" -> best_char (update_best b a) <> "".
Proof.
  intros Ha Hb. destruct a as [[t c]|]; simpl; [|exact Hb].
  destruct (gt c (best_conf b)); simpl; [|exact Hb].
  eapply Ha; eauto.
Qed.

Lemma Forall2_map_self {A B} (R : A -> B -> Prop) (f : A -> B) l :
  (forall x, R x (f x)) -> Forall2 R l (map f l).
Proof. intros H. induction l; simpl; constructor; auto. Qed.

Lemma Forall2_firstn {A B} (R : A -> B -> Prop) n l l' :
  Forall2 R l l' -> Forall2 R (firstn n l) (firstn n l').
Proof.
  intros H. revert n. induction H; intros [|n]; simpl; constructor; auto.
Qed.

Lemma accepted_list_nth ds k t c :
  nth_error (accepted_list ds) k = Some (Some (t, c)) ->
  exists d p, In d ds /\ In p (pairs_of d) /\ qualifies p t c.
Proof.
  unfold Recognize.accepted_list. rewrite nth_error_map.
  destruct (nth_error ds k) as [d|] eqn:E; [|discriminate].
  simpl. intros [= Hf].
  pose proof (first_accepted_spec (pairs_of d)) as Hacc.
  rewrite Hf in Hacc. destruct Hacc as (i & p & Hi & Hq & _).
  exists d, p. split; [eapply nth_error_In; eauto|].
  split; [eapply nth_error_In; eauto|exact Hq].
Qed.

Lemma recognize_answers img ds :
  answers img angles ds ->
  recognize img =
    Ok (best_char (fold_left update_best (accepted_list ds) initial_best)).
Proof.
  intros H. unfold Recognize._recognize_with_rotations.
  now rewrite (rotations_loop_answers img angles ds H).
Qed.

Lemma valid_above_sentinel c : valid_conf c -> gt c sentinel = true.
Proof.
  destruct c as [q| | |]; simpl; try tauto. intros H0.
  change (gt (Fin q) (Fin (-1)) = true). apply gt_fin.
  eapply Qlt_le_trans; [|exact H0]. reflexivity.
Qed.

(** C3.  The angles are -30, -15, 15, 30, in this order.  When the
    capability answers at each of them, the pair accepted at an angle
    is the first one, in the order returned, whose stripped text is
    non-empty and whose confidence converts to a number; pairs before
    it fail one of the two tests and pairs after it are not looked
    at.  The recognizer returns the text of the accepted pair whose
    confidence no accepted pair exceeds, and which strictly exceeds
    the confidence of every pair accepted at an earlier angle (so a
    tie keeps the earlier angle); it returns the empty string when no
    accepted pair has a confidence above the initial -1, in
    particular when no pair is accepted. *)
Theorem rotation_search_spec (img : image) (ds : list (ocr_data conf_t)) :
  answers img angles ds ->
  angles = [-30; -15; 15; 30]%Z /\
  exists accs r,
    Forall2 accepted_at (map pairs_of ds) accs /\
    recognize img = Ok r /\
    ((r = "" /\
      forall k t c, nth_error accs k = Some (Some (t, c)) ->
                    gt c sentinel = false)
     \/
     (exists k c,
         nth_error accs k = Some (Some (r, c)) /\
         gt c sentinel = true /\
         (forall j t' c', nth_error accs j = Some (Some (t', c')) ->
                          gt c' c = false) /\
         (forall j t' c', j < k ->
                          nth_error accs j = Some (Some (t', c')) ->
                          gt c c' = true \/ is_nan c' = true))).
Proof.
  intros Hans. split; [reflexivity|].
  exists (accepted_list ds).
  exists (best_char (fold_left update_best (accepted_list ds) initial_best)).
  split.
  { unfold Recognize.accepted_list. rewrite <- (map_map pairs_of first_accepted).
    apply Forall2_map_self. apply first_accepted_spec. }
  split; [now apply recognize_answers|].
  destruct (arbitrate_spec (accepted_list ds) initial_best eq_refl)
    as [[Hb Hnone]|(k & t & c & Hk & Hb & Hgt & Hmax & Hearlier)];
    cbv zeta in *; rewrite Hb.
  - left. split; [reflexivity|exact Hnone].
  - right. exists k, c. simpl. repeat split; auto.
Qed.

Lemma accepted_list_at ds j dj a :
  nth_error ds j = Some dj -> accepted_at (pairs_of dj) a ->
  nth_error (accepted_list ds) j = Some a.
Proof.
  intros Hj Ha. unfold Recognize.accepted_list.
  rewrite nth_error_map, Hj. simpl. f_equal.
  eapply accepted_at_unique; [apply first_accepted_spec|exact Ha].
Qed.

Lemma accepted_list_inv ds j a :
  nth_error (accepted_list ds) j = Some a ->
  exists dj, nth_error ds j = Some dj /\ accepted_at (pairs_of dj) a.
Proof.
  unfold Recognize.accepted_list. rewrite nth_error_map.
  destruct (nth_error ds j) as [dj|]; [|discriminate].
  simpl. intros [= <-]. exists dj. split; [reflexivity|].
  apply first_accepted_spec.
Qed.

(** Pairs that are not above the initial confidence leave the best
    pair as it is at the start. *)
Lemma fold_below_sentinel accs :
  (forall j t c, nth_error accs j = Some (Some (t, c)) ->
                 gt c sentinel = false) ->
  fold_left update_best accs initial_best = initial_best.
Proof.
  induction accs as [|a accs IH]; intros H; [reflexivity|].
  cbn [fold_left].
  assert (Ha : update_best initial_best a = initial_best).
  { destruct a as [[t c]|]; [|reflexivity]. cbn [update_best].
    change (best_conf initial_best) with sentinel.
    now rewrite (H 0 t c eq_refl). }
  rewrite Ha. apply IH. intros j t c Hj. exact (H (S j) t c Hj).
Qed.

(** C4, as amended.  The initial best confidence is -1 and every
    valid confidence is strictly above it.  When a pair is accepted
    at an angle with a confidence above -1, and no pair accepted at
    an earlier angle is above -1, this pair is the best pair as soon
    as its angle has been scanned, and the recognizer returns a
    non-empty string: the text of this pair, unless a pair accepted
    at a later angle has a strictly greater confidence, and in any
    case the text of an accepted pair that no accepted pair exceeds.
    When no accepted pair is above -1 the initial pair stays and the
    recognizer returns the empty string. *)
Theorem sentinel_first_detection (img : image) (ds : list (ocr_data conf_t)) :
  answers img angles ds ->
  best_conf initial_best = Fin (-1) /\
  (forall c', valid_conf c' -> gt c' (best_conf initial_best) = true) /\
  (forall (k : nat) (d : ocr_data conf_t) (t : string) (c : pyfloat),
      (forall j dj t' c', j < k -> nth_error ds j = Some dj ->
                          accepted_at (pairs_of dj) (Some (t', c')) ->
                          gt c' sentinel = false) ->
      nth_error ds k = Some d ->
      accepted_at (pairs_of d) (Some (t, c)) ->
      gt c sentinel = true ->
      rotations_loop img (firstn (S k) angles) initial_best
        = Ok {| best_char := t; best_conf := c |} /\
      exists r, recognize img = Ok r /\ r <> "" /\
        (exists k' d' c',
            k <= k' /\ nth_error ds k' = Some d' /\
            accepted_at (pairs_of d') (Some (r, c')) /\
            ((k' = k /\ r = t /\ c' = c) \/ (k < k' /\ gt c' c = true)) /\
            forall j dj t'' c'',
              nth_error ds j = Some dj ->
              accepted_at (pairs_of dj) (Some (t'', c'')) ->
              gt c'' c' = false) /\
        ((forall j dj t' c', k < j -> nth_error ds j = Some dj ->
                             accepted_at (pairs_of dj) (Some (t', c')) ->
                             gt c' c = false) ->
         r = t)) /\
  ((forall j dj t' c', nth_error ds j = Some dj ->
                       accepted_at (pairs_of dj) (Some (t', c')) ->
                       gt c' sentinel = false) ->
   recognize img = Ok "").
Proof.
  intros Hans.
  split; [reflexivity|]. split; [exact valid_above_sentinel|]. split.
  - intros k d t c Hbefore Hk Hacc Habove.
    assert (Hfirst : first_accepted (pairs_of d) = Some (t, c)).
    { eapply accepted_at_unique; [apply first_accepted_spec|exact Hacc]. }
    split.
    + rewrite (rotations_loop_answers img _ (firstn (S k) ds))
        by now apply Forall2_firstn.
      f_equal.
      destruct (nth_error_split ds k Hk) as (l1 & l2 & -> & Hlen).
      replace (S k) with (length l1 + 1) by lia.
      rewrite firstn_app_2. cbn [firstn]. rewrite map_app, fold_left_app.
      change (map (fun d0 => first_accepted (pairs_of d0)) l1)
        with (accepted_list l1).
      rewrite fold_below_sentinel.
      * simpl. rewrite Hfirst. cbn [update_best].
        change (best_conf initial_best) with sentinel. now rewrite Habove.
      * intros j t' c' Hj.
        apply accepted_list_inv in Hj as (dj & Hdj & Ha).
        assert (Hlt : j < length l1) by (apply nth_error_Some; congruence).
        apply (Hbefore j dj t' c'); [lia| |exact Ha].
        now rewrite nth_error_app1 by exact Hlt.
    + exists (best_char (fold_left update_best (accepted_list ds) initial_best)).
      split; [now apply recognize_answers|].
      assert (Hin : nth_error (accepted_list ds) k = Some (Some (t, c))).
      { now apply (accepted_list_at ds k d). }
      destruct (arbitrate_spec (accepted_list ds) initial_best eq_refl)
        as [[Hb Hnone]|(k' & t' & c' & Hk' & Hb & Hgt & Hmax & Hearlier)];
        cbv zeta in *.
      { exfalso. specialize (Hnone _ _ _ Hin).
        change (best_conf initial_best) with sentinel in Hnone. congruence. }
      rewrite Hb. cbn [best_char].
      change (best_conf initial_best) with sentinel in Hgt.
      destruct (accepted_list_inv ds k' _ Hk') as (d' & Hd' & Ha').
      assert (Hle : k <= k').
      { destruct (Nat.le_gt_cases k k') as [Hle|Hlt]; [exact Hle|].
        rewrite (Hbefore k' d' t' c' Hlt Hd' Ha') in Hgt. discriminate. }
      assert (Hcase : (k' = k /\ t' = t /\ c' = c) \/ (k < k' /\ gt c' c = true)).
      { destruct (Nat.eq_dec k' k) as [->|Hne].
        - left. rewrite Hin in Hk'. injection Hk' as <- <-. auto.
        - right. assert (Hlt : k < k') by lia. split; [exact Hlt|].
          destruct (Hearlier k t c Hlt Hin) as [H|H]; [exact H|].
          rewrite (gt_not_nan_l _ _ Habove) in H. discriminate. }
      split.
      { destruct Ha' as (i & p & _ & (_ & Hne & _) & _). exact Hne. }
      split.
      { exists k', d', c'. split; [exact Hle|]. split; [exact Hd'|].
        split; [exact Ha'|]. split; [exact Hcase|].
        intros j dj t'' c'' Hj Ha''.
        exact (Hmax j t'' c'' (accepted_list_at ds j dj _ Hj Ha'')). }
      intros Hlater.
      destruct Hcase as [(_ & Ht & _)|(Hlt & Hgt')]; [exact Ht|].
      rewrite (Hlater k' d' t' c' Hlt Hd' Ha') in Hgt'. discriminate.
  - intros Hbelow. rewrite (recognize_answers img ds Hans).
    rewrite fold_below_sentinel; [reflexivity|].
    intros j t c Hj.
    apply accepted_list_inv in Hj as (dj & Hdj & Ha).
    exact (Hbelow j dj t c Hdj Ha).
Qed.

End WithEngine.

Lemma rotation_search_spec_witness :
  answers Samples.conf_t Samples.rotate (Samples.scripted Samples.tie_script)
          Samples.dot angles (map Samples.tie_script angles) /\
  exists r,
    _recognize_with_rotations Samples.conf_t Samples.float Samples.rotate
      (Samples.scripted Samples.tie_script) Samples.dot = Ok r /\
    r = "D".
Proof.
  assert (H : answers Samples.conf_t Samples.rotate
                      (Samples.scripted Samples.tie_script)
                      Samples.dot angles (map Samples.tie_script angles))
    by (repeat constructor).
  split; [exact H|].
  destruct (rotation_search_spec Samples.conf_t Samples.float Samples.rotate
              (Samples.scripted Samples.tie_script) Samples.dot _ H)
    as (_ & accs & r & _ & Hr & _).
  exists r. split; [exact Hr|].
  vm_compute in Hr. now injection Hr.
Defined.

Lemma sentinel_first_detection_witness :
  rotations_loop Samples.conf_t Samples.float Samples.rotate
    (Samples.scripted Samples.tie_script) Samples.dot [(-30)%Z] initial_best
    = Ok {| best_char := "B"; best_conf := Fin (inject_Z 80) |} /\
  exists r,
    _recognize_with_rotations Samples.conf_t Samples.float Samples.rotate
      (Samples.scripted Samples.tie_script) Samples.dot = Ok r /\
    r <> "".
Proof.
  assert (Hans : answers Samples.conf_t Samples.rotate
                   (Samples.scripted Samples.tie_script)
                   Samples.dot angles (map Samples.tie_script angles))
    by (repeat constructor).
  destruct (sentinel_first_detection Samples.conf_t Samples.float
              Samples.rotate (Samples.scripted Samples.tie_script)
              Samples.dot (map Samples.tie_script angles) Hans)
    as (_ & _ & Hfirst & _).
  destruct (Hfirst 0 (Samples.tie_script (-30)) "B" (Fin (inject_Z 80)))
    as (Hloop & r & Hr & Hne & _).
  - intros j dj t' c' Hj. lia.
  - reflexivity.
  - exact (first_accepted_spec Samples.conf_t Samples.float
             (pairs_of Samples.conf_t (Samples.tie_script (-30)))).
  - reflexivity.
  - split; [exact Hloop|]. exists r. split; [exact Hr|exact Hne].
Defined.

(** C4 as it is stated fails: a fragment reported with the confidence
    -1 is accepted (its text is not empty, its confidence is a number)
    but does not replace the initial pair, and the recognizer returns
    the empty string. *)
Lemma accepted_at_sentinel_ignored :
  answers Samples.conf_t Samples.rotate (Samples.scripted Samples.low_script)
          Samples.dot angles (map Samples.low_script angles) /\
  accepted_at Samples.conf_t Samples.float
              (pairs_of Samples.conf_t (Samples.low_script (-30)))
              (Some ("Z", Fin (inject_Z (-1)))) /\
  _recognize_with_rotations Samples.conf_t Samples.float Samples.rotate
    (Samples.scripted Samples.low_script) Samples.dot = Ok "" /\
  ~ (forall img ds k d t c,
        answers Samples.conf_t Samples.rotate
                (Samples.scripted Samples.low_script) img angles ds ->
        nth_error ds k = Some d ->
        accepted_at Samples.conf_t Samples.float
                    (pairs_of Samples.conf_t d) (Some (t, c)) ->
        exists r,
          _recognize_with_rotations Samples.conf_t Samples.float Samples.rotate
            (Samples.scripted Samples.low_script) img = Ok r /\
          r <> "").
Proof.
  assert (Hans : answers Samples.conf_t Samples.rotate
                   (Samples.scripted Samples.low_script)
                   Samples.dot angles (map Samples.low_script angles))
    by (repeat constructor).
  assert (Hacc : accepted_at Samples.conf_t Samples.float
                   (pairs_of Samples.conf_t (Samples.low_script (-30)))
                   (Some ("Z", Fin (inject_Z (-1))))).
  { exact (first_accepted_spec Samples.conf_t Samples.float
             (pairs_of Samples.conf_t (Samples.low_script (-30)))). }
  split; [exact Hans|]. split; [exact Hacc|]. split; [reflexivity|].
  intros H.
  destruct (H Samples.dot (map Samples.low_script angles) 0%nat
              (Samples.low_script (-30)) "Z" (Fin (inject_Z (-1)))
              Hans eq_refl Hacc) as (r & Hr & Hne).
  vm_compute in Hr. injection Hr as <-. now apply Hne.
Qed.

(** C5.  The code does not return a single character in answer to an
    engine that reports the two-letter fragment "AB": it returns both
    letters, so the string returned is neither empty nor one symbol. *)
Theorem two_characters_returned :
  Samples.scripted Samples.pair_script (Samples.rotate Samples.dot (-30))
  = Ok (Samples.data [("AB", Samples.num 90)]) /\
  _recognize_with_rotations Samples.conf_t Samples.float Samples.rotate
    (Samples.scripted Samples.pair_script) Samples.dot = Ok "AB" /\
  String.length "AB" = 2 /\
  ~ (forall img r,
        _recognize_with_rotations Samples.conf_t Samples.float Samples.rotate
          (Samples.scripted Samples.pair_script) img = Ok r ->
        r = "" \/ String.length r = 1).
Proof.
  split; [reflexivity|]. split; [reflexivity|]. split; [reflexivity|].
  intros H. destruct (H Samples.dot "AB" eq_refl) as [E|E]; discriminate.
Qed.

End RecognizeFacts.

(** ** [extract_text] and faults *)

Module ExtractFacts.
Import Img Extract.
Local Open Scope string_scope.

Lemma for_each_ok {A B} (f : A -> result B) l bs :
  Forall2 (fun a b => f a = Ok b) l bs -> for_each f l = Ok bs.
Proof.
  induction 1 as [|a b l bs Ha _ IH]; simpl; [reflexivity|].
  now rewrite Ha, IH.
Qed.

Lemma for_each_raises {A B} (f : A -> result B) done a rest e :
  Forall (fun q => exists b, f q = Ok b) done ->
  f a = Raise e -> for_each f (done ++ a :: rest)%list = Raise e.
Proof.
  induction 1 as [|q done (b & Hq) _ IH]; intros He; simpl.
  - now rewrite He.
  - rewrite Hq. simpl. now rewrite IH.
Qed.

(** C2, as amended.  A missing file, and a fault while the image is
    opened, converted or trimmed, give the empty string.  A fault
    raised by the segmentation or by the recognition of a part is not
    caught: it leaves [extract_text].  Without a fault the assembled
    text is returned. *)
Theorem extract_text_faults
        (path_exists : bool) (open_rgb : result image)
        (trim : image -> result image)
        (segment : image -> result (list image))
        (recognize : image -> result string) :
  let r := extract_text_with path_exists open_rgb trim segment recognize in
  (path_exists = false -> r = Ok "") /\
  (forall e, open_rgb = Raise e -> r = Ok "") /\
  (forall img e, open_rgb = Ok img -> trim img = Raise e -> r = Ok "") /\
  (forall img img' e,
      path_exists = true -> open_rgb = Ok img -> trim img = Ok img' ->
      segment img' = Raise e -> r = Raise e) /\
  (forall img img' done part rest e,
      path_exists = true -> open_rgb = Ok img -> trim img = Ok img' ->
      segment img' = Ok (done ++ part :: rest)%list ->
      Forall (fun q => exists s, recognize q = Ok s) done ->
      recognize part = Raise e -> r = Raise e) /\
  (forall img img' parts chars,
      path_exists = true -> open_rgb = Ok img -> trim img = Ok img' ->
      segment img' = Ok parts ->
      Forall2 (fun q s => recognize q = Ok s) parts chars ->
      r = Ok (Assemble.assemble chars)).
Proof.
  intros r. unfold r, extract_text_with. repeat split.
  - now intros ->.
  - intros e ->. now destruct path_exists.
  - intros img e -> Ht. simpl. rewrite Ht. now destruct path_exists.
  - intros img img' e -> -> Ht Hs. simpl. rewrite Ht. simpl. now rewrite Hs.
  - intros img img' done part rest e -> -> Ht Hs Hdone Hp. simpl.
    rewrite Ht. simpl. rewrite Hs. simpl.
    now rewrite (for_each_raises recognize done part rest e Hdone Hp).
  - intros img img' parts chars -> -> Ht Hs Hall. simpl.
    rewrite Ht. simpl. rewrite Hs. simpl.
    now rewrite (for_each_ok recognize parts chars Hall).
Qed.

Lemma extract_text_faults_witness :
  extract_text Samples.conf_t Samples.float Samples.rotate
               Samples.failing_engine true (Ok Samples.strip_image)
  = Raise (OtherException "TesseractError") /\
  extract_text Samples.conf_t Samples.float Samples.rotate
               Samples.failing_engine true (Raise (OtherException "cannot identify image file"))
  = Ok "".
Proof.
  split.
  - apply (proj1 (proj2 (proj2 (proj2 (proj2
             (extract_text_faults true (Ok Samples.strip_image) _ _ _))))))
      with (img := Samples.strip_image) (img' := Samples.strip_image)
           (done := []) (part := crop Samples.strip_image 0 0 6 1)
           (rest := [crop Samples.strip_image 11 0 16 1]);
      try reflexivity. constructor.
  - apply (proj1 (proj2 (extract_text_faults true _ _ _ _)))
      with (e := OtherException "cannot identify image file").
    reflexivity.
Defined.

(** C2 as it is stated fails: a fault of the recognition engine on the
    first part of an image leaves [extract_text] as an exception. *)
Lemma recognition_fault_escapes :
  extract_text Samples.conf_t Samples.float Samples.rotate
               Samples.failing_engine true (Ok Samples.strip_image)
  = Raise (OtherException "TesseractError") /\
  extract_text Samples.conf_t Samples.float Samples.rotate
               Samples.failing_engine true (Ok Samples.strip_image)
  <> Ok "".
Proof.
  assert (E : extract_text Samples.conf_t Samples.float Samples.rotate
                Samples.failing_engine true (Ok Samples.strip_image)
              = Raise (OtherException "TesseractError"))
    by (vm_compute; reflexivity).
  split; [exact E|]. rewrite E. discriminate.
Qed.

End ExtractFacts.

(** ** The solve-retry controller *)

Module SolverFacts.
Import PyStr Solver.
Local Open Scope Z_scope.

(** Case analysis on what the browser answers, in the order in which
    the body asks. *)
Ltac browser_cases :=
  repeat match goal with
         | |- context [match ?x with _ => _ end] =>
             is_var x; destruct x; cbn; try easy
         end.

Ltac open_body o :=
  destruct o as [d s e rl rc rn il cl sk sl sc st];
  unfold attempt_body, submit_and_verify, raise_unless, emit, exit, ret, then_;
  cbn.

Lemma body_started o attempt max_attempts :
  attempts_started (fst (attempt_body o attempt max_attempts)) = [attempt].
Proof.
  open_body o.
  destruct d; cbn; try easy. destruct s; cbn; try easy.
  destruct e as [text|]; cbn; try easy.
  destruct (is_empty (keep_chars isalnum text)); cbn;
    [destruct (attempt <? max_attempts); cbn|]; browser_cases.
Qed.

(** The body is left by [return True], by [continue] or by an
    exception; never by [return False], and never by falling off its
    end. *)
Lemma body_flow o attempt max_attempts :
  snd (attempt_body o attempt max_attempts) = inr Continue \/
  snd (attempt_body o attempt max_attempts) = inr (Return true) \/
  snd (attempt_body o attempt max_attempts) = inr Raised.
Proof.
  open_body o.
  destruct d; cbn; auto. destruct s; cbn; auto.
  destruct e as [text|]; cbn; auto.
  destruct (is_empty (keep_chars isalnum text)); cbn;
    [destruct (attempt <? max_attempts); cbn|];
    repeat match goal with
           | |- context [match ?x with _ => _ end] =>
               is_var x; destruct x; cbn; auto
           end.
Qed.

Lemma body_stays o attempt max_attempts :
  detect o <> DetectTimeout -> still_captcha o <> NotFound ->
  snd (attempt_body o attempt max_attempts) <> inr (Return true).
Proof.
  open_body o. intros Hd Hs.
  destruct d; cbn; try easy. destruct s; cbn; try easy.
  destruct e as [text|]; cbn; try easy.
  destruct (is_empty (keep_chars isalnum text)); cbn;
    [destruct (attempt <? max_attempts); cbn|]; browser_cases.
Qed.

Lemma range_from_S lo k :
  range_from lo (S k) = lo :: range_from (lo + 1) k.
Proof.
  unfold range_from. cbn [seq map]. rewrite Z.add_0_r. f_equal.
  rewrite <- seq_shift, map_map. apply map_ext. intros i. lia.
Qed.

Lemma started_app ev ev' :
  attempts_started (ev ++ ev') = (attempts_started ev ++ attempts_started ev')%list.
Proof. apply flat_map_app. Qed.

(** What one turn of the loop does, by the way its body is left. *)
Lemma loop_cons env max_attempts attempt rest :
  exists ev,
    attempts_started ev = [attempt] /\
    ((snd (attempt_body (env attempt) attempt max_attempts) = inr (Return true) /\
      attempts_loop env max_attempts (attempt :: rest) = (ev, true))
     \/
     (snd (attempt_body (env attempt) attempt max_attempts) = inr Raised /\
      max_attempts <= attempt /\
      attempts_loop env max_attempts (attempt :: rest) = (ev, false))
     \/
     ((snd (attempt_body (env attempt) attempt max_attempts) = inr Continue \/
       (snd (attempt_body (env attempt) attempt max_attempts) = inr Raised /\
        attempt < max_attempts)) /\
      attempts_loop env max_attempts (attempt :: rest) =
        ((ev ++ fst (attempts_loop env max_attempts rest))%list,
         snd (attempts_loop env max_attempts rest)))).
Proof.
  pose proof (body_started (env attempt) attempt max_attempts) as Hs.
  pose proof (body_flow (env attempt) attempt max_attempts) as Hf.
  cbn [attempts_loop].
  destruct (attempt_body (env attempt) attempt max_attempts) as [ev r].
  cbn [fst snd] in *. exists ev. split; [exact Hs|].
  destruct (attempts_loop env max_attempts rest) as [ev' b]. cbn [fst snd].
  destruct Hf as [ -> | [ -> | -> ] ].
  - right. right. split; [now left|reflexivity].
  - now left.
  - destruct (Z.leb_spec max_attempts attempt).
    + right. left. repeat split; auto.
    + right. right. split; [right; now split|reflexivity].
Qed.

(** The attempts that are started are the first ones of the range. *)
Lemma loop_started_prefix env max_attempts atts :
  exists rest,
    atts = (attempts_started (fst (attempts_loop env max_attempts atts)) ++ rest)%list.
Proof.
  induction atts as [|a atts (rest & IH)].
  - now exists [].
  - destruct (loop_cons env max_attempts a atts)
      as (ev & Hev & [(_ & ->)|[(_ & _ & ->)|(_ & ->)]]); cbn [fst].
    + exists atts. now rewrite Hev.
    + exists atts. now rewrite Hev.
    + exists rest. rewrite started_app, Hev. simpl. now rewrite <- IH.
Qed.

Lemma loop_never env max_attempts atts :
  never_disappears env -> snd (attempts_loop env max_attempts atts) = false.
Proof.
  intros Hnever. induction atts as [|a atts IH]; [reflexivity|].
  destruct (loop_cons env max_attempts a atts)
    as (ev & Hev & [(Hr & _)|[(_ & _ & ->)|(_ & ->)]]); cbn [snd]; auto.
  exfalso. destruct (Hnever a) as [Hd Hs].
  now apply (body_stays (env a) a max_attempts Hd Hs).
Qed.

(** Failure is reported only after every attempt has been started. *)
Lemma loop_false_all env max_attempts k :
  forall lo, lo + Z.of_nat k = max_attempts + 1 ->
    snd (attempts_loop env max_attempts (range_from lo k)) = false ->
    attempts_started (fst (attempts_loop env max_attempts (range_from lo k)))
    = range_from lo k.
Proof.
  induction k as [|k IH]; intros lo Hlo; [reflexivity|].
  rewrite range_from_S.
  destruct (loop_cons env max_attempts lo (range_from (lo + 1) k))
    as (ev & Hev & [(_ & ->)|[(_ & Hle & ->)|(_ & ->)]]); cbn [fst snd].
  - discriminate.
  - intros _. rewrite Hev. destruct k; [reflexivity|lia].
  - intros Hb. rewrite started_app, Hev. simpl. f_equal.
    apply IH; [lia|exact Hb].
Qed.

(** After a [continue] the next attempt is started. *)
Lemma loop_continue env max_attempts a k :
  forall lo, lo + Z.of_nat k = max_attempts + 1 ->
    In a (attempts_started (fst (attempts_loop env max_attempts (range_from lo k)))) ->
    snd (attempt_body (env a) a max_attempts) = inr Continue ->
    a < max_attempts ->
    In (a + 1)
       (attempts_started (fst (attempts_loop env max_attempts (range_from lo k)))).
Proof.
  induction k as [|k IH]; intros lo Hlo; [intros []|].
  rewrite range_from_S.
  destruct (loop_cons env max_attempts lo (range_from (lo + 1) k))
    as (ev & Hev & [(Hr & ->)|[(Hr & _ & ->)|(_ & ->)]]); cbn [fst].
  - rewrite Hev. intros [<-|[]] Hc. congruence.
  - rewrite Hev. intros [<-|[]] Hc. congruence.
  - rewrite started_app, Hev. simpl. intros [<-|Hin] Hc Hlt.
    + right. destruct k as [|k]; [lia|]. rewrite range_from_S.
      destruct (loop_cons env max_attempts (lo + 1) (range_from (lo + 1 + 1) k))
        as (ev' & Hev' & [(_ & ->)|[(_ & _ & ->)|(_ & ->)]]); cbn [fst];
        rewrite ?started_app, Hev'; now left.
    + right. apply IH; auto. lia.
Qed.

(** The events of the body are the steps of the cycle that were
    carried out. *)
Lemma body_events o attempt max_attempts :
  fst (attempt_body o attempt max_attempts)
  = carried_out (cycle_steps o attempt max_attempts).
Proof.
  destruct o as [d s e rl rc rn il cl sk sl sc st].
  unfold attempt_body, submit_and_verify, raise_unless, emit, exit, ret, then_,
    cycle_steps, refreshing, recognized.
  cbn.
  destruct d; cbn; try reflexivity. destruct s; cbn; try reflexivity.
  destruct e as [text|]; cbn; try reflexivity.
  destruct (is_empty (keep_chars isalnum text)); cbn;
    [destruct (attempt <? max_attempts); cbn;
     [destruct rl; cbn; [destruct rc; cbn; [reflexivity|destruct rn; cbn]| |];
      try reflexivity|]|];
    destruct il; cbn; try reflexivity;
    destruct cl; cbn; try reflexivity;
    destruct sk; cbn; try reflexivity;
    destruct sl; cbn; try reflexivity;
    destruct sc; cbn; try reflexivity;
    destruct st; reflexivity.
Qed.

Lemma cooperative_cycle o attempt max_attempts :
  detect o = Detected -> cooperative o ->
  carried_out (cycle_steps o attempt max_attempts) = full_cycle o attempt.
Proof.
  intros Hd (Hs & (text & He) & Hr & Hil & Hcl & Hsk & Hsl & Hsc).
  unfold cycle_steps, refreshing, full_cycle.
  rewrite Hd, Hs, He, Hil, Hcl, Hsk, Hsl, Hsc.
  destruct (recognized o) eqn:Er; [congruence|reflexivity].
Qed.

(** Against a challenge that never disappears the run is the sequence
    of the cycles of all attempts. *)
Lemma loop_trace env max_attempts k :
  never_disappears env ->
  forall lo, lo + Z.of_nat k = max_attempts + 1 ->
    fst (attempts_loop env max_attempts (range_from lo k))
    = flat_map (fun attempt =>
                  carried_out (cycle_steps (env attempt) attempt max_attempts))
               (range_from lo k).
Proof.
  intros Hnever. induction k as [|k IH]; intros lo Hlo; [reflexivity|].
  rewrite range_from_S. cbn [attempts_loop flat_map].
  rewrite <- body_events, <- (IH (lo + 1)) by lia.
  pose proof (body_flow (env lo) lo max_attempts) as Hf.
  destruct (Hnever lo) as [Hd Hs].
  pose proof (body_stays (env lo) lo max_attempts Hd Hs) as Hst.
  destruct (attempt_body (env lo) lo max_attempts) as [ev r].
  cbn [fst snd] in *.
  destruct (attempts_loop env max_attempts (range_from (lo + 1) k)) as [ev' b]
    eqn:El.
  cbn [fst].
  destruct Hf as [ -> | [ -> | -> ] ]; [reflexivity|congruence|].
  destruct (Z.leb_spec max_attempts lo) as [Hle|Hlt]; [|reflexivity].
  cbn [fst]. destruct k; [|lia].
  cbn in El. injection El as <- _. now rewrite app_nil_r.
Qed.

(** C6.  The attempts started are the first ones of 1, ..., max_attempts
    in this order, so there are at most max_attempts of them.  Against
    a challenge that never disappears every one of them is started and
    the controller returns false, and what it does is the cycle of
    attempt 1, then that of attempt 2, and so on to max_attempts, each
    carried out step by step up to the first step that raises.  With
    max_attempts = 3 these are the cycles of the attempts 1, 2, 3 and
    no other; when the browser cooperates each of the three is a full
    cycle: screenshot, input field cleared, text typed, submit clicked. *)
Theorem retry_bound (env : Z -> attempt_obs) :
  (forall max_attempts, exists rest,
      py_range 1 (max_attempts + 1) =
      (attempts_started (fst (_solve_captcha env max_attempts)) ++ rest)%list) /\
  (forall max_attempts,
      (length (attempts_started (fst (_solve_captcha env max_attempts)))
       <= Z.to_nat max_attempts)%nat) /\
  (never_disappears env ->
   forall max_attempts,
     snd (_solve_captcha env max_attempts) = false /\
     attempts_started (fst (_solve_captcha env max_attempts))
     = py_range 1 (max_attempts + 1) /\
     fst (_solve_captcha env max_attempts)
     = flat_map (fun attempt =>
                   carried_out (cycle_steps (env attempt) attempt max_attempts))
                (py_range 1 (max_attempts + 1))) /\
  (never_disappears env ->
   snd (_solve_captcha env 3) = false /\
   attempts_started (fst (_solve_captcha env 3)) = [1; 2; 3] /\
   fst (_solve_captcha env 3)
   = (carried_out (cycle_steps (env 1) 1 3)
      ++ carried_out (cycle_steps (env 2) 2 3)
      ++ carried_out (cycle_steps (env 3) 3 3))%list) /\
  ((forall attempt, detect (env attempt) = Detected /\
                    still_captcha (env attempt) = Found) ->
   (forall attempt, cooperative (env attempt)) ->
   _solve_captcha env 3
   = ([LogAttempt 1; Screenshot 1;
       ClearInput; SendKeys (recognized (env 1)); ClickSubmit;
       LogAttempt 2; Screenshot 2;
       ClearInput; SendKeys (recognized (env 2)); ClickSubmit;
       LogAttempt 3; Screenshot 3;
       ClearInput; SendKeys (recognized (env 3)); ClickSubmit], false)).
Proof.
  assert (Hprefix : forall max_attempts, exists rest,
             py_range 1 (max_attempts + 1) =
             (attempts_started (fst (_solve_captcha env max_attempts)) ++ rest)%list).
  { intros m. apply loop_started_prefix. }
  assert (Hall : never_disappears env -> forall max_attempts,
             snd (_solve_captcha env max_attempts) = false /\
             attempts_started (fst (_solve_captcha env max_attempts))
             = py_range 1 (max_attempts + 1) /\
             fst (_solve_captcha env max_attempts)
             = flat_map (fun attempt =>
                           carried_out
                             (cycle_steps (env attempt) attempt max_attempts))
                        (py_range 1 (max_attempts + 1))).
  { intros Hnever m. unfold _solve_captcha.
    pose proof (loop_never env m (py_range 1 (m + 1)) Hnever) as Hb.
    split; [exact Hb|].
    unfold py_range in *. replace (m + 1 - 1) with m in * by lia.
    destruct (Z.le_gt_cases 0 m) as [Hm|Hm].
    - split; [apply loop_false_all; [lia|exact Hb]|].
      apply loop_trace; [exact Hnever|lia].
    - now replace (Z.to_nat m) with 0%nat by lia. }
  assert (Hthree : never_disappears env ->
             snd (_solve_captcha env 3) = false /\
             attempts_started (fst (_solve_captcha env 3)) = [1; 2; 3] /\
             fst (_solve_captcha env 3)
             = (carried_out (cycle_steps (env 1) 1 3)
                ++ carried_out (cycle_steps (env 2) 2 3)
                ++ carried_out (cycle_steps (env 3) 3 3))%list).
  { intros Hnever. destruct (Hall Hnever 3) as (Hb & Hst & Htr).
    split; [exact Hb|]. split; [exact Hst|].
    rewrite Htr. change (py_range 1 (3 + 1)) with [1; 2; 3].
    cbn [flat_map]. now rewrite app_nil_r. }
  split; [exact Hprefix|]. split; [|split; [exact Hall|split; [exact Hthree|]]].
  - intros m. destruct (Hprefix m) as (rest & Hrest).
    apply (f_equal (@length Z)) in Hrest.
    unfold py_range, range_from in Hrest.
    rewrite length_map, length_seq, length_app in Hrest.
    replace (m + 1 - 1) with m in Hrest by lia. lia.
  - intros Hthere Hcoop.
    assert (Hnever : never_disappears env).
    { intros a. destruct (Hthere a) as [Hd Hs]. rewrite Hd, Hs.
      split; discriminate. }
    destruct (Hthree Hnever) as (Hb & _ & Htr).
    rewrite !cooperative_cycle in Htr
      by (try apply Hthere; try apply Hcoop).
    destruct (_solve_captcha env 3) as [ev b]. cbn [fst snd] in *.
    now subst.
Qed.

Lemma retry_bound_witness :
  never_disappears Samples.stubborn_env /\
  _solve_captcha Samples.stubborn_env 3
  = ([LogAttempt 1; Screenshot 1; ClearInput; SendKeys "KXRTP"; ClickSubmit;
      LogAttempt 2; Screenshot 2; ClearInput; SendKeys "KXRTP"; ClickSubmit;
      LogAttempt 3; Screenshot 3; ClearInput; SendKeys "KXRTP"; ClickSubmit],
     false) /\
  attempts_started (fst (_solve_captcha Samples.stubborn_env 3)) = [1; 2; 3].
Proof.
  assert (H : never_disappears Samples.stubborn_env)
    by (intros a; split; discriminate).
  split; [exact H|].
  destruct (retry_bound Samples.stubborn_env) as (_ & _ & _ & Hthree & Hfull).
  split.
  - apply Hfull.
    + intros a. split; reflexivity.
    + intros a. unfold cooperative. cbn.
      repeat split; try reflexivity; [now exists "KXRTP"%string|discriminate].
  - exact (proj1 (proj2 (Hthree H))).
Defined.

(** C1, as amended.  On an attempt whose recognized text has no
    alphanumeric character: when the attempt is not the last one and
    the refresh control is found and clicked, the body takes the
    screenshot, clicks the refresh control, performs none of the
    submission steps and continues, and the next attempt is started; on
    the last attempt no refresh is clicked.  The controller returns
    false only after all max_attempts attempts have been started.  When
    the recognized text has an alphanumeric character and the elements
    are found, the input field is cleared, the text typed and the
    submit control clicked, in this order. *)
Theorem empty_text_refresh (env : Z -> attempt_obs)
        (max_attempts attempt : Z) (text : string) :
  detect (env attempt) = Detected ->
  screenshot_ok (env attempt) = true ->
  extracted (env attempt) = Ok text ->
  let captcha_text := keep_chars isalnum text in
  let body := attempt_body (env attempt) attempt max_attempts in
  let started := attempts_started (fst (_solve_captcha env max_attempts)) in
  (captcha_text = ""%string -> attempt < max_attempts ->
   refresh_lookup (env attempt) = Found ->
   refresh_click_ok (env attempt) = true ->
   body = ([LogAttempt attempt; Screenshot attempt; ClickRefresh], inr Continue) /\
   existsb is_submit_event (fst body) = false /\
   (In attempt started -> In (attempt + 1) started)) /\
  (captcha_text = ""%string -> max_attempts <= attempt ->
   ~ In ClickRefresh (fst body)) /\
  (snd (_solve_captcha env max_attempts) = false ->
   started = py_range 1 (max_attempts + 1)) /\
  (captcha_text <> ""%string ->
   input_lookup (env attempt) = true -> clear_ok (env attempt) = true ->
   send_keys_ok (env attempt) = true -> submit_lookup (env attempt) = true ->
   submit_click_ok (env attempt) = true ->
   fst body = [LogAttempt attempt; Screenshot attempt;
               ClearInput; SendKeys captcha_text; ClickSubmit]).
Proof.
  intros Hd Hs He captcha_text body started.
  assert (Hbody : captcha_text = ""%string -> attempt < max_attempts ->
                  refresh_lookup (env attempt) = Found ->
                  refresh_click_ok (env attempt) = true ->
                  body = ([LogAttempt attempt; Screenshot attempt; ClickRefresh],
                          inr Continue)).
  { intros Ht Hlt Hrl Hrc. unfold body, captcha_text in *.
    destruct (env attempt) as [d s e rl rc rn il cl sk sl sc st]. cbn in *. subst.
    unfold attempt_body, raise_unless, emit, exit, ret, then_. cbn.
    rewrite Ht. cbn. now rewrite (proj2 (Z.ltb_lt _ _) Hlt). }
  split; [|split; [|split]].
  - intros Ht Hlt Hrl Hrc. specialize (Hbody Ht Hlt Hrl Hrc).
    split; [exact Hbody|]. split; [now rewrite Hbody|].
    intros Hin. unfold started, _solve_captcha, py_range in *.
    replace (max_attempts + 1 - 1) with max_attempts in * by lia.
    destruct (Z.le_gt_cases 0 max_attempts) as [Hm|Hm].
    + apply loop_continue; [lia|exact Hin| |exact Hlt].
      fold body. now rewrite Hbody.
    + replace (Z.to_nat max_attempts) with 0%nat in Hin by lia.
      destruct Hin.
  - intros Ht Hge. unfold body, captcha_text in *.
    destruct (env attempt) as [d s e rl rc rn il cl sk sl sc st]. cbn in *. subst.
    unfold attempt_body, submit_and_verify, raise_unless, emit, exit, ret, then_.
    cbn. rewrite Ht. cbn.
    rewrite (proj2 (Z.ltb_ge _ _) Hge). cbn.
    destruct il, cl, sk, sl, sc, st; cbn; intuition discriminate.
  - intros Hb. unfold started, _solve_captcha, py_range in *.
    replace (max_attempts + 1 - 1) with max_attempts in * by lia.
    destruct (Z.le_gt_cases 0 max_attempts) as [Hm|Hm].
    + apply loop_false_all; [lia|exact Hb].
    + now replace (Z.to_nat max_attempts) with 0%nat by lia.
  - intros Ht Hil Hcl Hsk Hsl Hsc. unfold body, captcha_text in *.
    destruct (env attempt) as [d s e rl rc rn il cl sk sl sc st]. cbn in *. subst.
    unfold attempt_body, submit_and_verify, raise_unless, emit, exit, ret, then_.
    cbn. destruct (keep_chars isalnum text) eqn:Ek; [congruence|]. cbn.
    destruct st; reflexivity.
Qed.

Lemma empty_text_refresh_witness :
  attempt_body (Samples.refresh_env 1) 1 3
  = ([LogAttempt 1; Screenshot 1; ClickRefresh], inr Continue) /\
  fst (attempt_body (Samples.refresh_env 2) 2 3)
  = [LogAttempt 2; Screenshot 2; ClearInput; SendKeys "KXRTP"; ClickSubmit].
Proof.
  split.
  - destruct (empty_text_refresh Samples.refresh_env 3 1 "?!"
                eq_refl eq_refl eq_refl) as (Hrefresh & _).
    destruct Hrefresh as (Hbody & _); [reflexivity|lia|reflexivity|reflexivity|].
    exact Hbody.
  - destruct (empty_text_refresh Samples.refresh_env 3 2 "KXRTP"
                eq_refl eq_refl eq_refl) as (_ & _ & _ & Hsubmit).
    apply Hsubmit; reflexivity || discriminate.
Defined.

(** What the body does otherwise with an empty text: on the last
    attempt, without a refresh control, or when the click on the
    refresh control raises a [NoSuchElementException], it goes on to the
    submission with the empty text. *)
Lemma empty_text_falls_through (o : attempt_obs)
      (attempt max_attempts : Z) (text : string) :
  detect o = Detected -> screenshot_ok o = true -> extracted o = Ok text ->
  keep_chars isalnum text = ""%string ->
  max_attempts <= attempt \/ refresh_lookup o = NotFound \/
  (refresh_lookup o = Found /\ refresh_click_ok o = false /\
   refresh_click_no_such o = true) ->
  attempt_body o attempt max_attempts =
  ((LogAttempt attempt :: Screenshot attempt
      :: fst (submit_and_verify o ""))%list,
   snd (submit_and_verify o "")).
Proof.
  intros Hd Hs He Ht Hcase.
  destruct o as [d s e rl rc rn il cl sk sl sc st]. cbn in *. subst.
  unfold attempt_body, raise_unless, emit, exit, ret, then_. cbn.
  rewrite Ht. cbn.
  destruct (Z.ltb_spec attempt max_attempts) as [Hlt|Hge];
    [destruct Hcase as [Hle|[Hrl|(Hrl & Hrc & Hrn)]]; [lia|subst rl|subst rl rc rn]|];
    cbn; now destruct (submit_and_verify _ "").
Qed.

(** C1 as it is stated fails: with nothing recognized and no refresh
    control at the first of two attempts, the controller goes through
    the submission with the empty text, starts the second attempt and
    reports success there; it does not report failure. *)
Lemma missing_refresh_not_exhausted :
  extracted (Samples.no_refresh_env 1) = Ok ""%string /\
  refresh_lookup (Samples.no_refresh_env 1) = NotFound /\
  _solve_captcha Samples.no_refresh_env 2
  = ([LogAttempt 1; Screenshot 1; ClearInput; SendKeys ""; ClickSubmit;
      LogAttempt 2], true) /\
  snd (_solve_captcha Samples.no_refresh_env 2) <> false /\
  existsb is_submit_event (fst (_solve_captcha Samples.no_refresh_env 2)) = true.
Proof.
  repeat split; try reflexivity. discriminate.
Qed.

End SolverFacts.

(** ** More on strings and text files *)

Module PyTextFacts.
Import PyStr PyStrFacts PyText TextFile.
Local Open Scope string_scope.

Lemma LF_space : isspace LF = true.
Proof. reflexivity. Qed.

Lemma first_char_app s t c :
  first_char s = Some c -> first_char (s ++ t) = Some c.
Proof. destruct s; simpl; [discriminate|auto]. Qed.

Lemma lstrip_fixed s :
  (forall c, first_char s = Some c -> isspace c = false) -> lstrip s = s.
Proof.
  destruct s as [|c s]; simpl; [reflexivity|].
  intros H. now rewrite (H c eq_refl).
Qed.

Lemma rstrip_fixed s :
  (forall c, last_char s = Some c -> isspace c = false) -> rstrip s = s.
Proof.
  induction s as [|c s IH]; simpl; [reflexivity|].
  destruct (last_char s) as [d|] eqn:E; intros H.
  - rewrite IH by exact H.
    destruct s; [discriminate|reflexivity].
  - apply last_char_none in E. subst s. simpl.
    now rewrite (H c eq_refl).
Qed.

Lemma clean_strip s : clean s -> strip s = s.
Proof.
  intros (_ & Hf & Hl). unfold strip.
  rewrite (lstrip_fixed s Hf). now apply rstrip_fixed.
Qed.

Lemma strip_clean s : strip s <> "" -> clean (strip s).
Proof.
  intros Hne. destruct (strip_spec s) as (pre & post & _ & _ & _ & Hf & Hl).
  repeat split; assumption.
Qed.

Lemma strip_idempotent s : strip (strip s) = strip s.
Proof.
  destruct (strip s) eqn:E; [reflexivity|].
  rewrite <- E. apply clean_strip, strip_clean. rewrite E. discriminate.
Qed.

(** What the comprehension keeps is clean. *)
Lemma stripped_nonblank_clean xs : Forall clean (stripped_nonblank xs).
Proof.
  unfold stripped_nonblank. apply Forall_forall. intros p Hp.
  apply in_map_iff in Hp as (x & <- & Hx).
  apply filter_In in Hx as [_ Hx]. apply strip_clean.
  intros E. rewrite E in Hx. discriminate.
Qed.

Lemma stripped_nonblank_cons x xs :
  stripped_nonblank (x :: xs) =
  if is_empty (strip x) then stripped_nonblank xs
  else strip x :: stripped_nonblank xs.
Proof.
  unfold stripped_nonblank. simpl. now destruct (is_empty (strip x)).
Qed.

(** A clean line followed by its line feed strips to the line. *)
Lemma rstrip_line p :
  p <> "" -> (forall c, last_char p = Some c -> isspace c = false) ->
  rstrip (p ++ String LF "") = p.
Proof.
  induction p as [|c p IH]; [congruence|]. intros _ Hl. simpl.
  destruct p as [|d p].
  - simpl. now rewrite (Hl c eq_refl).
  - rewrite IH; [reflexivity|discriminate|].
    intros x Hx. apply Hl. simpl in *.
    destruct (last_char p); exact Hx.
Qed.

Lemma strip_line p : clean p -> strip (p ++ String LF "") = p.
Proof.
  intros (Hne & Hf & Hl). unfold strip.
  rewrite lstrip_fixed.
  - now apply rstrip_line.
  - intros c Hc. destruct p as [|d p]; [congruence|].
    simpl in Hc. apply Hf. exact Hc.
Qed.

Lemma one_line_cons c p :
  one_line (String c p) <->
  Ascii.eqb c LF = false /\ Ascii.eqb c CR = false /\ one_line p.
Proof.
  unfold one_line. simpl. rewrite !orb_false_iff. tauto.
Qed.

Lemma iter_lines_line p rest :
  one_line p -> iter_lines (p ++ String LF rest) = (p ++ String LF "") :: iter_lines rest.
Proof.
  induction p as [|c p IH]; intros Hp; simpl.
  - reflexivity.
  - apply one_line_cons in Hp as (Hlf & _ & Hp).
    rewrite Hlf, (IH Hp). reflexivity.
Qed.

Lemma universal_newlines_line p linesep rest :
  one_line p -> is_linesep linesep ->
  universal_newlines (p ++ linesep ++ rest) =
  p ++ String LF (universal_newlines rest).
Proof.
  intros Hp Hsep. induction p as [|c p IH].
  - destruct Hsep as [-> | ->]; reflexivity.
  - apply one_line_cons in Hp as (_ & Hcr & Hp). simpl.
    rewrite Hcr, (IH Hp). reflexivity.
Qed.

Lemma write_text_line p linesep :
  one_line p -> write_text linesep (p ++ String LF "") = p ++ linesep.
Proof.
  induction p as [|c p IH]; intros Hp; simpl.
  - apply append_nil_r.
  - apply one_line_cons in Hp as (Hlf & _ & Hp).
    rewrite Hlf, (IH Hp). reflexivity.
Qed.

End PyTextFacts.

(** ** validate_proxies.py *)

Module ProxyFileFacts.
Import PyStr PyStrFacts PyText PyTextFacts TextFile ProxyFile.
Local Open Scope string_scope.

Lemma has_char_app p a b : has_char p (a ++ b) = has_char p a || has_char p b.
Proof.
  induction a as [|c a IH]; simpl; [reflexivity|].
  now rewrite IH, orb_assoc.
Qed.

Lemma rstrip_app_space s c :
  isspace c = true -> rstrip (s ++ String c "") = rstrip s.
Proof.
  intros Hc. induction s as [|d s IH]; simpl.
  - now rewrite Hc.
  - now rewrite IH.
Qed.

Lemma lstrip_app_space s c :
  isspace c = true ->
  lstrip (s ++ String c "") =
  if is_empty (lstrip s) then "" else lstrip s ++ String c "".
Proof.
  intros Hc. induction s as [|d s IH]; simpl.
  - now rewrite Hc.
  - destruct (isspace d); [exact IH|reflexivity].
Qed.

Lemma strip_app_space s c :
  isspace c = true -> strip (s ++ String c "") = strip s.
Proof.
  intros Hc. unfold strip. rewrite (lstrip_app_space s c Hc).
  destruct (lstrip s) eqn:E; simpl is_empty; cbv iota.
  - reflexivity.
  - now apply rstrip_app_space.
Qed.

Lemma strip_one_line s : one_line s -> one_line (strip s).
Proof.
  unfold one_line. intros H.
  destruct (strip_spec s) as (pre & post & Hs & _).
  rewrite Hs, !has_char_app, !orb_false_iff in H. tauto.
Qed.

Lemma no_cr_cons c s :
  no_cr (String c s) <-> Ascii.eqb c CR = false /\ no_cr s.
Proof. unfold no_cr. simpl. now rewrite orb_false_iff. Qed.

Lemma universal_newlines_no_cr s : no_cr (universal_newlines s).
Proof.
  assert (H : forall n s, (String.length s <= n)%nat -> no_cr (universal_newlines s)).
  { clear s. induction n as [|n IH]; intros [|c s] Hlen; simpl in Hlen;
      try reflexivity; try lia.
    cbn [universal_newlines]. destruct (Ascii.eqb c CR) eqn:Ec.
    - destruct s as [|d s]; [reflexivity|].
      destruct (Ascii.eqb d LF);
        (apply no_cr_cons; split; [reflexivity|apply IH; simpl in *; lia]).
    - apply no_cr_cons. split; [exact Ec|]. apply IH. lia. }
  now apply (H (String.length s)).
Qed.

Lemma iter_lines_file_lines t : no_cr t -> Forall file_line (iter_lines t).
Proof.
  induction t as [|c t IH]; intros Hcr; simpl; [constructor|].
  apply no_cr_cons in Hcr as [Hc Hcr].
  specialize (IH Hcr).
  destruct (Ascii.eqb c LF) eqn:Elf.
  - constructor; [|exact IH]. exists "". split; [reflexivity|now right].
  - destruct (iter_lines t) as [|l ls].
    + repeat constructor. exists (String c ""). split; [|now left].
      apply one_line_cons. repeat split; auto.
    + inversion IH as [|? ? (body & Hb & Hl) Hls]; subst.
      constructor; [|exact Hls].
      exists (String c body). split.
      * apply one_line_cons. repeat split; auto.
      * destruct Hl as [-> | ->]; [now left|now right].
Qed.

Lemma file_line_strip l : file_line l -> one_line (strip l).
Proof.
  intros (body & Hb & [-> | ->]).
  - now apply strip_one_line.
  - rewrite strip_app_space by reflexivity. now apply strip_one_line.
Qed.

(** What is loaded from a file is clean and free of line breaks. *)
Lemma read_proxies_shape text :
  Forall (fun p => clean p /\ one_line p) (stripped_nonblank (read_lines text)).
Proof.
  apply Forall_forall. intros p Hp. split.
  - pose proof (stripped_nonblank_clean (read_lines text)) as H.
    rewrite Forall_forall in H. now apply H.
  - unfold stripped_nonblank in Hp.
    apply in_map_iff in Hp as (l & <- & Hl). apply filter_In in Hl as [Hl _].
    apply file_line_strip.
    pose proof (iter_lines_file_lines _ (universal_newlines_no_cr text)) as H.
    rewrite Forall_forall in H. now apply H.
Qed.

Lemma save_cons linesep p l :
  one_line p ->
  save_valid_proxies linesep (p :: l) =
  p ++ linesep ++ save_valid_proxies linesep l.
Proof.
  intros Hp. unfold save_valid_proxies. cbn [map].
  change (String.concat "" ?x) with (join x).
  rewrite join_cons, write_text_line by exact Hp.
  now rewrite append_assoc.
Qed.

Lemma load_saved linesep l :
  is_linesep linesep -> Forall (fun p => clean p /\ one_line p) l ->
  stripped_nonblank (read_lines (save_valid_proxies linesep l)) = l.
Proof.
  intros Hsep. induction 1 as [|p l [Hc Hp] _ IH]; [reflexivity|].
  rewrite save_cons by exact Hp. unfold read_lines in *.
  rewrite universal_newlines_line, iter_lines_line by assumption.
  rewrite stripped_nonblank_cons, strip_line by exact Hc.
  destruct Hc as (Hne & _). destruct p; [congruence|].
  simpl is_empty. cbv iota. now rewrite IH.
Qed.

(** X1.  Saving a list of proxies and loading the file gives the list
    back, on a platform whose line separator is a line feed or a
    carriage return and a line feed, when every proxy is non-empty,
    has no whitespace at its ends and no line break inside. *)
Theorem save_load_round_trip (linesep : string) (l : list string) :
  is_linesep linesep ->
  Forall clean l -> Forall one_line l ->
  load_proxies (Content (save_valid_proxies linesep l)) = Ok l.
Proof.
  intros Hsep Hc Hl. unfold load_proxies. f_equal.
  apply load_saved; [exact Hsep|].
  rewrite Forall_forall in *. intros p Hp. split; auto.
Qed.

Lemma save_load_round_trip_witness :
  load_proxies
    (Content (save_valid_proxies MoreSamples.crlf MoreSamples.three_proxies))
  = Ok MoreSamples.three_proxies.
Proof.
  apply save_load_round_trip.
  - now right.
  - repeat constructor; try discriminate;
      intros c [= <-]; reflexivity.
  - repeat constructor.
Defined.

(** X2.  Whatever a file holds, the proxies loaded from it are
    non-empty, without whitespace at their ends and without line
    breaks, and saving them and loading again gives the same list. *)
Theorem load_save_load (text linesep : string) (l : list string) :
  is_linesep linesep ->
  load_proxies (Content text) = Ok l ->
  Forall clean l /\ Forall one_line l /\
  load_proxies (Content (save_valid_proxies linesep l)) = Ok l.
Proof.
  intros Hsep [= <-].
  pose proof (read_proxies_shape text) as H.
  assert (Hc : Forall clean (stripped_nonblank (read_lines text))).
  { eapply Forall_impl; [|exact H]. now intros p [Hp _]. }
  assert (Hl : Forall one_line (stripped_nonblank (read_lines text))).
  { eapply Forall_impl; [|exact H]. now intros p [_ Hp]. }
  split; [exact Hc|]. split; [exact Hl|].
  unfold load_proxies. f_equal. apply load_saved; [exact Hsep|exact H].
Qed.

Lemma load_save_load_witness :
  load_proxies (Content MoreSamples.proxy_text) = Ok MoreSamples.three_proxies /\
  load_proxies
    (Content (save_valid_proxies MoreSamples.nl MoreSamples.three_proxies))
  = Ok MoreSamples.three_proxies.
Proof.
  split; [reflexivity|].
  apply (load_save_load MoreSamples.proxy_text MoreSamples.nl);
    [now left|reflexivity].
Defined.

Lemma flat_map_incl {A B} (f : A -> list B) (g : B -> Prop) l :
  (forall a b, In b (f a) -> g b) -> Forall g (flat_map f l).
Proof.
  intros H. apply Forall_forall. intros b Hb.
  apply in_flat_map in Hb as (a & _ & Hb). eauto.
Qed.

(** X3.  When the submissions complete in any order, each once,
    [validate_proxies] writes nothing if no proxy passes the test (or
    none was loaded); otherwise the file it writes loads back to a
    list that holds exactly the proxies that passed, each as often as
    it passed. *)
Theorem validate_proxies_spec (input : file_state) (proxies : list string)
        (is_valid : nat -> string -> bool) (completed : list nat)
        (linesep : string) :
  is_linesep linesep ->
  load_proxies input = Ok proxies ->
  Permutation completed (seq 0 (length proxies)) ->
  (working is_valid proxies = [] ->
   validate_proxies input is_valid completed linesep = Ok None) /\
  (working is_valid proxies <> [] ->
   exists text valid,
     validate_proxies input is_valid completed linesep = Ok (Some text) /\
     load_proxies (Content text) = Ok valid /\
     Permutation valid (working is_valid proxies)).
Proof.
  intros Hsep Hload Hperm.
  set (f := fun i => match nth_error proxies i with
                     | Some proxy => if is_valid i proxy then [proxy] else []
                     | None => []
                     end).
  assert (Hvalid : Permutation (flat_map f completed) (working is_valid proxies)).
  { unfold working. fold f. now apply Permutation_flat_map. }
  assert (Hshape : Forall (fun p => clean p /\ one_line p) (flat_map f completed)).
  { apply flat_map_incl. intros i p Hp. unfold f in Hp.
    destruct (nth_error proxies i) as [q|] eqn:E; [|destruct Hp].
    destruct (is_valid i q); [|destruct Hp]. destruct Hp as [<-|[]].
    apply nth_error_In in E.
    destruct input as [|e|text]; simpl in Hload.
    - injection Hload as <-. destruct E.
    - discriminate.
    - injection Hload as <-.
      pose proof (read_proxies_shape text) as H.
      rewrite Forall_forall in H. now apply H. }
  unfold validate_proxies. rewrite Hload. cbn [bind]. fold f.
  split.
  - intros Hnone. rewrite Hnone in Hvalid.
    apply Permutation_sym, Permutation_nil in Hvalid.
    rewrite Hvalid. now destruct (length proxies =? 0)%nat.
  - intros Hsome.
    destruct proxies as [|p0 ps] eqn:Ep; [now elim Hsome|].
    rewrite <- Ep in *. replace (length proxies =? 0)%nat with false
      by (rewrite Ep; reflexivity).
    destruct (flat_map f completed) as [|v vs] eqn:Ev.
    + apply Permutation_nil in Hvalid. congruence.
    + cbn [length Nat.eqb]. exists (save_valid_proxies linesep (v :: vs)), (v :: vs).
      split; [reflexivity|]. split; [|exact Hvalid].
      unfold load_proxies. f_equal. now apply load_saved.
Qed.

Lemma validate_proxies_spec_witness :
  exists text valid,
    validate_proxies (Content MoreSamples.proxy_text)
                     (fun i _ => negb (i =? 1)%nat) [2; 0; 1]%nat MoreSamples.nl
    = Ok (Some text) /\
    load_proxies (Content text) = Ok valid /\
    Permutation valid ["10.0.0.1:8080"; "10.0.0.3:80"].
Proof.
  apply (validate_proxies_spec (Content MoreSamples.proxy_text)
           MoreSamples.three_proxies (fun i _ => negb (i =? 1)%nat)
           [2; 0; 1]%nat MoreSamples.nl).
  - now left.
  - reflexivity.
  - apply Permutation_sym. simpl.
    apply perm_trans with (l' := [0; 2; 1]%nat);
      [apply perm_skip, perm_swap|apply perm_swap].
  - discriminate.
Defined.

End ProxyFileFacts.

(** ** proxy_manager.py *)

Module ProxyManagerFacts.
Import PyStr PyStrFacts PyText PyTextFacts TextFile ProxyManager.

Lemma choice_In rnd seq : seq <> [] -> In (choice rnd seq) seq.
Proof.
  intros H. unfold choice. apply nth_In. apply Nat.mod_upper_bound.
  destruct seq; [congruence|discriminate].
Qed.

Lemma list_remove_incl x l : incl (list_remove x l) l.
Proof.
  induction l as [|y l IH]; simpl; [easy|].
  destruct (String.eqb x y).
  - now apply incl_tl.
  - intros z [<-|Hz]; [now left|right; now apply IH].
Qed.

Lemma list_remove_perm x l : In x l -> Permutation l (x :: list_remove x l).
Proof.
  induction l as [|y l IH]; [intros []|]. simpl.
  destruct (String.eqb_spec x y) as [->|Hne]; [reflexivity|].
  intros [Hy|Hin]; [congruence|].
  rewrite (IH Hin) at 1. apply perm_swap.
Qed.

Lemma set_add_incl x s l : In x l -> incl s l -> incl (set_add x s) l.
Proof.
  intros Hx Hs. unfold set_add. destruct (existsb (String.eqb x) s); [exact Hs|].
  apply incl_app; [exact Hs|]. intros y [<-|[]]. exact Hx.
Qed.

Ltac fields :=
  cbn [proxies rotation_seconds current_proxy current_proxy_start_time
       used_proxies available_proxies api_url
       ProxyManager.reset_proxy_rotation].

Section Clock.

Variable time_t : Type.
Variable time_truthy : time_t -> bool.
Variable elapsed_ge : time_t -> time_t -> Z -> bool.

Local Abbreviation manager := (manager time_t).
Local Abbreviation get_next_proxy := (get_next_proxy time_t).
Local Abbreviation get_current_proxy :=
  (get_current_proxy time_t time_truthy elapsed_ge).
Local Abbreviation should_rotate_proxy :=
  (should_rotate_proxy time_t time_truthy elapsed_ge).
Local Abbreviation reset_proxy_rotation := (reset_proxy_rotation time_t).
Local Abbreviation next_proxies := (next_proxies time_t).
Local Abbreviation consistent := (consistent time_t).

(** What a call of [get_next_proxy] does, by cases. *)
Lemma get_next_cases (m : manager) rnd now :
  (available_proxies time_t m = [] /\ proxies time_t m = [] /\
   get_next_proxy m rnd now = (None, reset_proxy_rotation m))
  \/
  (exists m1 p m',
      (m1 = m /\ available_proxies time_t m <> [] \/
       m1 = reset_proxy_rotation m /\ available_proxies time_t m = [] /\
       proxies time_t m <> []) /\
      get_next_proxy m rnd now = (Some p, m') /\
      In p (available_proxies time_t m1) /\
      proxies time_t m' = proxies time_t m /\
      rotation_seconds time_t m' = rotation_seconds time_t m /\
      current_proxy time_t m' = Some p /\
      current_proxy_start_time time_t m' = Some now /\
      used_proxies time_t m' = set_add p (used_proxies time_t m1) /\
      available_proxies time_t m' = list_remove p (available_proxies time_t m1)).
Proof.
  unfold ProxyManager.get_next_proxy.
  destruct (available_proxies time_t m) as [|a av] eqn:Ea.
  - fields. destruct (proxies time_t m) as [|q qs] eqn:Ep.
    + left. repeat split; reflexivity.
    + right. exists (reset_proxy_rotation m).
      eexists. eexists.
      split; [right; repeat split; congruence|].
      split; [reflexivity|]. fields. rewrite Ep.
      split; [apply choice_In; discriminate|]. repeat split; reflexivity.
  - right. rewrite Ea. exists m. eexists. eexists.
    split; [left; split; [reflexivity|discriminate]|].
    split; [reflexivity|]. fields. rewrite Ea.
    split; [apply choice_In; discriminate|]. repeat split; reflexivity.
Qed.

(** X4.  [get_next_proxy] answers [None] exactly when no proxy is
    configured and none is waiting; otherwise it answers one of the
    waiting proxies, or one of the configured ones after a reset. *)
Theorem get_next_proxy_none_iff (m : manager) (rnd : nat) (now : time_t) :
  (fst (get_next_proxy m rnd now) = None <->
   available_proxies time_t m = [] /\ proxies time_t m = []) /\
  (forall p, fst (get_next_proxy m rnd now) = Some p ->
             In p (available_proxies time_t m) \/
             available_proxies time_t m = [] /\ In p (proxies time_t m)).
Proof using.
  clear time_truthy elapsed_ge.
  destruct (get_next_cases m rnd now)
    as [(Ha & Hp & ->)|(m1 & p & m' & Hm1 & -> & Hin & _)]; cbn [fst].
  - split; [tauto|]. discriminate.
  - split.
    + split; [discriminate|]. intros [Ha Hp].
      destruct Hm1 as [(_ & H)|(_ & _ & H)]; congruence.
    + intros q [= <-].
      destruct Hm1 as [(-> & _)|(-> & Ha & _)]; [now left|right].
      split; [exact Ha|exact Hin].
Qed.

Lemma reset_consistent (m : manager) : consistent (reset_proxy_rotation m).
Proof.
  unfold ProxyManager.consistent. fields.
  split; [apply incl_refl|]. split; [easy|discriminate].
Qed.

(** X5.  A consistent manager stays consistent through
    [get_current_proxy]: the configured proxies are not changed, and
    the proxy it answers, like those it keeps as waiting, used and
    current, is a configured one. *)
Theorem get_current_proxy_consistent (m : manager) (now : time_t)
        (rnd : nat) (later : time_t) :
  consistent m ->
  let r := get_current_proxy m now rnd later in
  consistent (snd r) /\
  proxies time_t (snd r) = proxies time_t m /\
  fst r = current_proxy time_t (snd r) /\
  forall p, fst r = Some p -> In p (proxies time_t m).
Proof.
  intros Hc r. unfold r, ProxyManager.get_current_proxy.
  destruct (should_rotate_proxy m now).
  - destruct (get_next_cases m rnd later)
      as [(Ha & Hp & ->)|(m1 & p & m' & Hm1 & -> & Hin & Hps & _ & Hcur & _ & Hu & Hav)];
      cbn [fst snd].
    + split; [apply reset_consistent|]. repeat split; try easy.
    + assert (Hc1 : consistent m1 /\ proxies time_t m1 = proxies time_t m).
      { destruct Hm1 as [(-> & _)|(-> & _)]; [now split|].
        split; [apply reset_consistent|reflexivity]. }
      destruct Hc1 as ((Hi1 & Hi2 & _) & Hp1).
      assert (Hinp : In p (proxies time_t m)) by (rewrite <- Hp1; now apply Hi1).
      split; [|repeat split; [exact Hps|now rewrite Hcur|now intros q [= <-]]].
      unfold ProxyManager.consistent. rewrite Hps, Hav, Hu, Hcur, <- Hp1.
      repeat split.
      * intros x Hx. apply Hi1. now apply (list_remove_incl p).
      * apply set_add_incl; [now apply Hi1|exact Hi2].
      * intros q [= <-]. now apply Hi1.
  - cbn [fst snd]. split; [exact Hc|]. split; [reflexivity|].
    split; [reflexivity|]. intros p Hp. destruct Hc as (_ & _ & H).
    now apply H.
Qed.

Lemma cycle_from (draws : list (nat * time_t)) :
  forall m : manager,
    length draws = length (available_proxies time_t m) ->
    Permutation (fst (next_proxies m draws))
                (map Some (available_proxies time_t m)) /\
    available_proxies time_t (snd (next_proxies m draws)) = [] /\
    proxies time_t (snd (next_proxies m draws)) = proxies time_t m.
Proof.
  induction draws as [|[rnd now] rest IH]; intros m Hlen.
  - cbn [ProxyManager.next_proxies fst snd].
    destruct (available_proxies time_t m); [|discriminate].
    split; [constructor|]. split; reflexivity.
  - cbn [ProxyManager.next_proxies].
    destruct (get_next_cases m rnd now)
      as [(Ha & _)|(m1 & p & m' & Hm1 & -> & Hin & Hps & _ & _ & _ & _ & Hav)].
    + rewrite Ha in Hlen. discriminate.
    + destruct Hm1 as [(-> & _)|(_ & Ha & _)];
        [|rewrite Ha in Hlen; discriminate].
      pose proof (list_remove_perm p _ Hin) as Hperm.
      assert (Hlen' : length rest = length (available_proxies time_t m')).
      { rewrite Hav. apply Permutation_length in Hperm.
        simpl in *. lia. }
      destruct (IH m' Hlen') as (Hres & Hempty & Hsame).
      destruct (next_proxies m' rest) as [ps m2]. cbn [fst snd] in *.
      split; [|split; [exact Hempty|congruence]].
      rewrite Hres, Hav.
      change (Some p :: map Some (list_remove p (available_proxies time_t m)))
        with (map Some (p :: list_remove p (available_proxies time_t m))).
      apply Permutation_map. now apply Permutation_sym.
Qed.

(** X6.  One round of the rotation: from a manager whose waiting
    list is the configured list (or is empty, all proxies being
    used), as many calls of [get_next_proxy] as there are configured
    proxies answer every configured proxy, each as often as it is
    listed, whatever the random draws; after them no proxy is
    waiting. *)
Theorem rotation_round (m : manager) (draws : list (nat * time_t)) :
  available_proxies time_t m = proxies time_t m \/
  available_proxies time_t m = [] ->
  length draws = length (proxies time_t m) ->
  Permutation (fst (next_proxies m draws)) (map Some (proxies time_t m)) /\
  available_proxies time_t (snd (next_proxies m draws)) = [].
Proof.
  intros Hstart Hlen.
  destruct Hstart as [Hav|Hav].
  - destruct (cycle_from draws m) as (H1 & H2 & _); [congruence|].
    rewrite Hav in H1. now split.
  - destruct draws as [|[rnd now] rest].
    + destruct (proxies time_t m); [|discriminate]. now split.
    + assert (Hreset : get_next_proxy m rnd now
                       = get_next_proxy (reset_proxy_rotation m) rnd now).
      { destruct (proxies time_t m) as [|q qs] eqn:Ep; [discriminate Hlen|].
        unfold ProxyManager.get_next_proxy. rewrite Hav.
        cbn [ProxyManager.reset_proxy_rotation available_proxies].
        rewrite Ep. fields. rewrite Ep. reflexivity. }
      assert (Hsame : next_proxies m ((rnd, now) :: rest)
                      = next_proxies (reset_proxy_rotation m) ((rnd, now) :: rest)).
      { cbn [ProxyManager.next_proxies]. now rewrite Hreset. }
      rewrite Hsame.
      destruct (cycle_from ((rnd, now) :: rest) (reset_proxy_rotation m))
        as (H1 & H2 & _); [exact Hlen|].
      now split.
Qed.

(** X7.  Between rotations the proxy is kept: after [get_next_proxy]
    has answered a non-empty proxy at a time that is not zero, a
    call of [get_current_proxy] for which the rotation time has not
    elapsed answers the same proxy and changes nothing; once it has
    elapsed the call is a call of [get_next_proxy]. *)
Theorem current_proxy_kept (m m' : manager) (rnd : nat) (start : time_t)
        (p : string) (now : time_t) (rnd' : nat) (later : time_t) :
  get_next_proxy m rnd start = (Some p, m') ->
  p <> EmptyString -> time_truthy start = true ->
  (elapsed_ge now start (rotation_seconds time_t m) = false ->
   get_current_proxy m' now rnd' later = (Some p, m')) /\
  (elapsed_ge now start (rotation_seconds time_t m) = true ->
   get_current_proxy m' now rnd' later = get_next_proxy m' rnd' later).
Proof.
  intros Hnext Hp Ht.
  destruct (get_next_cases m rnd start)
    as [(_ & _ & E)|(m1 & q & m2 & _ & E & _ & _ & Hrot & Hcur & Hst & _)];
    rewrite E in Hnext; [discriminate|].
  injection Hnext as <- <-.
  unfold ProxyManager.get_current_proxy, ProxyManager.should_rotate_proxy.
  rewrite Hcur, Hst, Hrot. cbn [falsy_str falsy_time]. rewrite Ht.
  destruct q; [congruence|]. cbn [is_empty negb orb].
  split; intros ->; reflexivity.
Qed.

Local Abbreviation __init__ := (__init__ time_t).


End Clock.

Lemma get_next_proxy_none_iff_witness :
  In "10.0.0.2:3128"%string
     (available_proxies _ MoreSamples.sample_manager).
Proof.
  destruct (get_next_proxy_none_iff MoreSamples.seconds
              MoreSamples.sample_manager 4 100%Z) as (_ & H).
  destruct (H "10.0.0.2:3128"%string eq_refl) as [Hin|(Hempty & _)].
  - exact Hin.
  - discriminate Hempty.
Defined.

Lemma get_current_proxy_consistent_witness :
  consistent _ MoreSamples.sample_manager /\
  In "10.0.0.2:3128"%string (proxies _ MoreSamples.sample_manager).
Proof.
  assert (H : consistent _ MoreSamples.sample_manager).
  { split; [apply incl_refl|]. split; [easy|discriminate]. }
  split; [exact H|].
  apply (get_current_proxy_consistent MoreSamples.seconds
           MoreSamples.seconds_truthy MoreSamples.seconds_elapsed_ge
           MoreSamples.sample_manager 100%Z 4 100%Z H).
  reflexivity.
Defined.

Lemma rotation_round_witness :
  Permutation
    (fst (next_proxies _ MoreSamples.sample_manager
                       [(4, 100%Z); (7, 230%Z); (0, 360%Z)]))
    (map Some MoreSamples.three_proxies).
Proof.
  apply (rotation_round MoreSamples.seconds MoreSamples.sample_manager
           [(4, 100%Z); (7, 230%Z); (0, 360%Z)]).
  - now left.
  - reflexivity.
Defined.

Lemma current_proxy_kept_witness :
  exists m',
    get_next_proxy _ MoreSamples.sample_manager 4 100%Z
    = (Some "10.0.0.2:3128"%string, m') /\
    get_current_proxy _ MoreSamples.seconds_truthy
                      MoreSamples.seconds_elapsed_ge m' 219%Z 9 219%Z
    = (Some "10.0.0.2:3128"%string, m').
Proof.
  eexists. split; [reflexivity|].
  apply (current_proxy_kept MoreSamples.seconds MoreSamples.seconds_truthy
           MoreSamples.seconds_elapsed_ge MoreSamples.sample_manager _
           4 100%Z "10.0.0.2:3128"%string 219%Z 9 219%Z);
    reflexivity || discriminate.
Defined.


End ProxyManagerFacts.

(** ** data_processing.py *)

Module RatingFacts.
Import PyStr PyStrFacts PyText PyTextFacts Rating.
Local Open Scope string_scope.

Lemma digit_not_space c : is_digit c = true -> isspace c = false.
Proof.
  destruct c as [[|] [|] [|] [|] [|] [|] [|] [|]]; cbv; congruence.
Qed.

Lemma take_digits_spec s :
  s = fst (take_digits s) ++ snd (take_digits s) /\
  all_chars is_digit (fst (take_digits s)) = true /\
  (forall c, first_char (snd (take_digits s)) = Some c -> is_digit c = false).
Proof.
  induction s as [|c s (Hs & Hd & Hr)]; simpl.
  - repeat split. discriminate.
  - destruct (is_digit c) eqn:E.
    + destruct (take_digits s) as [ds rest]. simpl in *.
      rewrite E, Hd. repeat split; [now rewrite <- Hs|exact Hr].
    + simpl. repeat split. intros d [= <-]. exact E.
Qed.

Lemma take_digits_app ds rest :
  all_chars is_digit ds = true ->
  (forall c, first_char rest = Some c -> is_digit c = false) ->
  take_digits (ds ++ rest) = (ds, rest).
Proof.
  intros Hd Hr. induction ds as [|c ds IH]; simpl.
  - destruct rest as [|c rest]; [reflexivity|].
    simpl. now rewrite (Hr c eq_refl).
  - simpl in Hd. apply andb_true_iff in Hd as [Hc Hd].
    now rewrite Hc, (IH Hd).
Qed.

Lemma take_digits_all ds :
  all_chars is_digit ds = true -> take_digits ds = (ds, "").
Proof.
  intros Hd. rewrite <- (append_nil_r ds) at 1.
  apply take_digits_app; [exact Hd|discriminate].
Qed.

Lemma numeral_first m :
  numeral m -> exists c m', m = String c m' /\ is_digit c = true.
Proof.
  intros (ds & Hne & Hd & Hm).
  destruct ds as [|c ds]; [congruence|].
  simpl in Hd. apply andb_true_iff in Hd as [Hc _].
  destruct Hm as [->|(fs & _ & _ & ->)]; eexists _, _; split;
    reflexivity || exact Hc.
Qed.

Lemma match_number_at_spec s m :
  match_number_at s = Some m -> numeral m /\ exists post, s = m ++ post.
Proof.
  unfold match_number_at.
  destruct (take_digits_spec s) as (Hs & Hd & _).
  destruct (take_digits s) as [ds rest]. cbn [fst snd] in *.
  destruct (is_empty ds) eqn:E; [discriminate|].
  assert (Hne : ds <> "") by (intros ->; discriminate).
  assert (Hplain : numeral ds /\ exists post, s = ds ++ post).
  { split; [exists ds; auto|now exists rest]. }
  destruct rest as [|c rest']; [now intros [= <-]|].
  destruct (Ascii.eqb_spec c ".") as [->|_]; [|now intros [= <-]].
  destruct (take_digits_spec rest') as (Hs' & Hd' & _).
  destruct (take_digits rest') as [fs rest'']. cbn [fst snd] in *.
  destruct (is_empty fs) eqn:E'; [now intros [= <-]|].
  intros [= <-]. split.
  - exists ds. repeat split; auto. right. exists fs.
    repeat split; auto. intros ->. discriminate.
  - exists rest''. rewrite Hs, Hs'. now rewrite !append_assoc.
Qed.

Lemma match_number_at_none s :
  match_number_at s = None <->
  (forall c, first_char s = Some c -> is_digit c = false).
Proof.
  unfold match_number_at. destruct s as [|c s]; simpl.
  - split; [discriminate|reflexivity].
  - destruct (is_digit c) eqn:E.
    + destruct (take_digits s) as [ds rest]. simpl. split.
      * destruct rest as [|d rest]; [discriminate|].
        destruct (Ascii.eqb d "."); [|discriminate].
        destruct (take_digits rest) as [fs ?].
        destruct (is_empty fs); discriminate.
      * intros H. specialize (H c eq_refl). congruence.
    + simpl. split; [|reflexivity]. intros _ d [= <-]. exact E.
Qed.

(** A numeral matches itself, whole. *)
Lemma match_number_at_numeral m : numeral m -> match_number_at m = Some m.
Proof.
  intros (ds & Hne & Hd & Hm). unfold match_number_at.
  destruct Hm as [->|(fs & Hfne & Hfd & ->)].
  - rewrite take_digits_all by exact Hd.
    destruct ds; [congruence|reflexivity].
  - rewrite take_digits_app; [|exact Hd|now intros c [= <-]].
    destruct ds; [congruence|]. cbn [is_empty append].
    change (Ascii.eqb "." ".") with true. cbv iota.
    rewrite take_digits_all by exact Hfd.
    destruct fs; [congruence|reflexivity].
Qed.

Lemma search_number_spec s m :
  search_number s = Some m ->
  numeral m /\
  exists pre post, s = pre ++ m ++ post /\ has_char is_digit pre = false.
Proof.
  induction s as [|c s IH]; cbn [search_number].
  - destruct (match_number_at "") eqn:E; [|discriminate].
    intros [= <-]. apply match_number_at_spec in E as (Hn & post & Hs).
    split; [exact Hn|]. now exists "", post.
  - destruct (match_number_at (String c s)) as [m'|] eqn:E.
    + intros [= <-]. apply match_number_at_spec in E as (Hn & post & Hs).
      split; [exact Hn|]. now exists "", post.
    + intros H. destruct (IH H) as (Hn & pre & post & Hs & Hpre).
      split; [exact Hn|]. exists (String c pre), post.
      split; [simpl; now rewrite <- Hs|].
      simpl. rewrite Hpre.
      rewrite match_number_at_none in E. now rewrite (E c eq_refl).
Qed.

Lemma search_number_none s :
  search_number s = None <-> has_char is_digit s = false.
Proof.
  induction s as [|c s IH]; cbn [search_number].
  - split; reflexivity.
  - destruct (match_number_at (String c s)) as [m|] eqn:E.
    + split; [discriminate|]. intros H. simpl in H.
      apply orb_false_iff in H as [Hc _].
      assert (En : match_number_at (String c s) = None)
        by (apply match_number_at_none; now intros d [= <-]).
      congruence.
    + rewrite IH. simpl. rewrite match_number_at_none in E.
      rewrite (E c eq_refl). reflexivity.
Qed.

(** A numeral is neither blank nor "N/A". *)
Lemma numeral_not_blank m :
  numeral m ->
  String.eqb (strip m) "" || String.eqb (strip m) "N/A" = false.
Proof.
  intros Hn. destruct (numeral_first m Hn) as (c & m' & -> & Hc).
  assert (Hf : first_char (strip (String c m')) = Some c).
  { unfold strip. rewrite lstrip_fixed.
    - apply rstrip_first; [reflexivity|now apply digit_not_space].
    - intros d [= <-]. now apply digit_not_space. }
  destruct (strip (String c m')) as [|d r]; [discriminate|].
  injection Hf as ->. simpl.
  destruct (Ascii.eqb_spec c "N") as [->|_]; [discriminate|reflexivity].
Qed.

(** X9.  [extract_rating] is idempotent: applied to its own result it
    gives that result. *)
Theorem extract_rating_idempotent (rating_str : string) :
  extract_rating (extract_rating rating_str) = extract_rating rating_str.
Proof.
  remember (extract_rating rating_str) as r eqn:Hr.
  unfold extract_rating in Hr.
  destruct (String.eqb (strip rating_str) "" || String.eqb (strip rating_str) "N/A");
    [now subst r|].
  destruct (search_number rating_str) as [m|] eqn:E; [|now subst r].
  subst r. apply search_number_spec in E as (Hn & _).
  unfold extract_rating. rewrite (numeral_not_blank m Hn).
  destruct (numeral_first m Hn) as (c & m' & Hm & Hc).
  rewrite Hm at 1. cbn [search_number]. rewrite <- Hm.
  now rewrite (match_number_at_numeral m Hn).
Qed.

(** X10.  The result of [extract_rating] is "N/A" or a numeral (digits,
    optionally followed by a point and digits) that occurs in the
    input with no digit before it. *)
Theorem extract_rating_shape (rating_str : string) :
  extract_rating rating_str = "N/A" \/
  (numeral (extract_rating rating_str) /\
   exists pre post,
     rating_str = pre ++ extract_rating rating_str ++ post /\
     has_char is_digit pre = false).
Proof.
  unfold extract_rating.
  destruct (String.eqb (strip rating_str) "" || String.eqb (strip rating_str) "N/A");
    [now left|].
  destruct (search_number rating_str) as [m|] eqn:E; [|now left].
  right. now apply search_number_spec.
Qed.

(** X11.  [extract_rating] answers "N/A" exactly when the input is
    blank, is "N/A" up to surrounding whitespace, or holds no digit. *)
Theorem extract_rating_na_iff (rating_str : string) :
  extract_rating rating_str = "N/A" <->
  strip rating_str = "" \/ strip rating_str = "N/A" \/
  has_char is_digit rating_str = false.
Proof.
  unfold extract_rating.
  destruct (String.eqb_spec (strip rating_str) "") as [E1|E1];
    [simpl; tauto|].
  destruct (String.eqb_spec (strip rating_str) "N/A") as [E2|E2];
    [simpl; tauto|].
  simpl. destruct (search_number rating_str) as [m|] eqn:E.
  - pose proof E as E'. apply search_number_spec in E' as (Hn & _).
    split.
    + intros ->. destruct (numeral_first _ Hn) as (c & m' & [= <- _] & Hc).
      discriminate.
    + intros [H|[H|H]]; try contradiction.
      apply search_number_none in H. congruence.
  - split; [|reflexivity]. intros _. right. right.
    now apply search_number_none.
Qed.

End RatingFacts.

(** ** More on the pipeline of OCR.py *)

Module PipelineFacts.
Import Img ImgFacts Trim TrimFacts Segment SegmentFacts.

Lemma is_white_eq p : is_white p = true -> p = white.
Proof.
  destruct p as [[r g] b]. unfold is_white, white.
  rewrite !andb_true_iff, !Z.eqb_eq. now intros [[-> ->] ->].
Qed.

(** X12.  When an image has a pixel that is not pure white, the
    trimmer returns the crop of the image to a box that lies inside
    the image, holds every pixel that is not pure white, and has such
    a pixel in its first and last row and column: the bounding box of
    these pixels. *)
Theorem trim_bounding_box (img : image) (x0 y0 : nat) :
  x0 < width img -> y0 < height img ->
  is_white (pixel_at img x0 y0) = false ->
  exists left top right bottom,
    left < right /\ right <= width img /\
    top < bottom /\ bottom <= height img /\
    _trim_whitespace img = crop img left top right bottom /\
    (forall x y, x < width img -> y < height img ->
                 is_white (pixel_at img x y) = false ->
                 left <= x < right /\ top <= y < bottom) /\
    no_white_border (_trim_whitespace img).
Proof.
  intros Hx0 Hy0 Hp0.
  assert (Hrow : forall x y, x < width img -> y < height img ->
                   is_white (pixel_at img x y) = false -> In y (rows img)).
  { intros x y Hx Hy Hp. apply rows_In. split; [exact Hy|].
    apply row_white_false. now exists x. }
  assert (Hcol : forall x y, x < width img -> y < height img ->
                   is_white (pixel_at img x y) = false -> In x (cols img)).
  { intros x y Hx Hy Hp. apply cols_In. split; [exact Hx|].
    apply col_white_false. now exists y. }
  assert (HR : rows img <> []).
  { intros E. pose proof (Hrow _ _ Hx0 Hy0 Hp0) as H. now rewrite E in H. }
  assert (HC : cols img <> []).
  { intros E. pose proof (Hcol _ _ Hx0 Hy0 Hp0) as H. now rewrite E in H. }
  assert (E : _trim_whitespace img =
              crop img (hd 0 (cols img)) (hd 0 (rows img))
                   (last (cols img) 0 + 1) (last (rows img) 0 + 1)).
  { unfold _trim_whitespace.
    destruct (rows img); [congruence|]. destruct (cols img); [congruence|].
    reflexivity. }
  exists (hd 0 (cols img)), (hd 0 (rows img)),
         (last (cols img) 0 + 1), (last (rows img) 0 + 1).
  pose proof (last_In _ 0 HR) as Hbot. pose proof (last_In _ 0 HC) as Hright.
  assert (Hrange : forall y, In y (rows img) ->
                     hd 0 (rows img) <= y <= last (rows img) 0).
  { intros y Hy. split; [apply filter_seq_hd_le|apply filter_seq_last_ge]; exact Hy. }
  assert (Crange : forall x, In x (cols img) ->
                     hd 0 (cols img) <= x <= last (cols img) 0).
  { intros x Hx. split; [apply filter_seq_hd_le|apply filter_seq_last_ge]; exact Hx. }
  pose proof (Hrange _ Hbot) as Htb. pose proof (Crange _ Hright) as Hlr.
  apply rows_In in Hbot as [Hbot _]. apply cols_In in Hright as [Hright _].
  split; [lia|]. split; [lia|]. split; [lia|]. split; [lia|].
  split; [exact E|]. split.
  - intros x y Hx Hy Hp.
    pose proof (Crange x (Hcol x y Hx Hy Hp)).
    pose proof (Hrange y (Hrow x y Hx Hy Hp)). lia.
  - rewrite E. now apply cropped_no_white_border.
Qed.

Lemma trim_bounding_box_witness :
  exists left top right bottom,
    _trim_whitespace Samples.framed_dot
    = crop Samples.framed_dot left top right bottom /\
    left <= 1 < right /\ top <= 1 < bottom.
Proof.
  destruct (trim_bounding_box Samples.framed_dot 1 1)
    as (l & t & r & b & _ & _ & _ & _ & E & Hin & _).
  - cbv. lia.
  - cbv. lia.
  - reflexivity.
  - exists l, t, r, b. split; [exact E|].
    apply Hin; [cbv; lia|cbv; lia|reflexivity].
Defined.

Lemma blank_vsum img x :
  rectangular img -> all_white img -> x < width img -> nth x (vsum img) 0 = 0.
Proof.
  intros Hrect Hwhite Hx. rewrite vsum_ink_count by assumption.
  unfold ink_count.
  rewrite (filter_ext_in _ (fun _ => false)); [now rewrite filter_false|].
  intros y Hy. apply in_seq in Hy.
  rewrite (is_white_eq _ (Hwhite x y Hx ltac:(lia))). reflexivity.
Qed.

Lemma blank_no_parts img :
  rectangular img -> all_white img -> _segment_letters_by_projection img = [].
Proof.
  intros Hrect Hwhite. unfold _segment_letters_by_projection.
  destruct (segment_spans (vsum img)) as [|[s e] l] eqn:E; [reflexivity|].
  assert (Hin : In (s, e) (segment_spans (vsum img))) by (rewrite E; now left).
  apply segment_spans_exact in Hin as ((Hse & Hle & Hink & _) & _).
  rewrite vsum_length in Hle.
  specialize (Hink s ltac:(lia)).
  rewrite blank_vsum in Hink by (assumption || lia). lia.
Qed.

(** X13.  For an image all of whose pixels are pure white
    [extract_text] returns the empty string, and it does so without
    the recognition engine: the result is the same for every engine,
    also for one that fails at every call. *)
Theorem extract_text_blank (conf_t : Type)
        (float : conf_t -> option PyFloat.pyfloat)
        (rotate : image -> Z -> image)
        (image_to_data : image -> result (Recognize.ocr_data conf_t))
        (img : image) :
  rectangular img -> all_white img ->
  Extract.extract_text conf_t float rotate image_to_data true (Ok img)
  = Ok EmptyString.
Proof.
  intros Hrect Hwhite.
  unfold Extract.extract_text, Extract.extract_text_with. cbn [negb bind].
  rewrite (trim_all_white img Hwhite).
  now rewrite (blank_no_parts img Hrect Hwhite).
Qed.

Lemma extract_text_blank_witness :
  Extract.extract_text Samples.conf_t Samples.float Samples.rotate
                       Samples.failing_engine true (Ok Samples.blank)
  = Ok EmptyString.
Proof.
  apply extract_text_blank.
  - repeat constructor.
  - intros x y Hx Hy. cbv in Hx, Hy.
    destruct x as [|[|x]]; destruct y as [|[|y]]; try lia; reflexivity.
Defined.

Lemma spans_bound n (l : list (nat * nat)) :
  StronglySorted before l ->
  Forall (fun p => fst p + 5 <= snd p /\ snd p <= n) l ->
  forall lo, lo <= n + 1 -> Forall (fun p => lo <= fst p) l ->
             lo + 6 * length l <= n + 1.
Proof.
  induction 1 as [|[s e] l Hl IH Hhd]; intros Hw lo Hlo Hge; simpl.
  - lia.
  - inversion Hw as [|? ? [Hw1 Hw2] Hw']; subst. simpl in *.
    inversion Hge as [|? ? Hs _]; subst. simpl in Hs.
    specialize (IH Hw' (e + 1) ltac:(lia)).
    assert (Hnext : Forall (fun p => e + 1 <= fst p) l).
    { eapply Forall_impl; [|exact Hhd]. intros [s' e'].
      unfold before. simpl. lia. }
    specialize (IH Hnext). lia.
Qed.

(** X14.  The parts of an image are at least 5 columns wide and
    separated by a column without ink, so an image of width w gives at
    most (w + 1) / 6 parts. *)
Theorem segment_count_bound (img : image) :
  6 * length (_segment_letters_by_projection img) <= width img + 1.
Proof.
  unfold _segment_letters_by_projection. rewrite length_map.
  apply (spans_bound (width img) _ (segment_spans_sorted (vsum img)))
    with (lo := 0); [|lia|].
  - apply Forall_forall. intros [s e] Hin.
    apply segment_spans_exact in Hin as ((_ & Hle & _) & Hw).
    rewrite vsum_length in Hle. simpl. lia.
  - apply Forall_forall. intros p _. lia.
Qed.

End PipelineFacts.

(** ** More on the recognizer and the controller *)

Module ControlFacts.
Import Img PyStr PyStrFacts Recognize RecognizeFacts Solver SolverFacts.
Local Open Scope Z_scope.

(** X15.  When the engine fails at an angle and has answered at the
    angles before it, the recognizer raises the exception of the
    engine, whatever was recognized before. *)
Theorem recognizer_raises_first_fault (conf_t : Type)
        (float : conf_t -> option PyFloat.pyfloat)
        (rotate : image -> Z -> image)
        (image_to_data : image -> result (ocr_data conf_t))
        (img : image) (done : list Z) (ds : list (ocr_data conf_t))
        (ang : Z) (rest : list Z) (e : exn) :
  angles = (done ++ ang :: rest)%list ->
  answers conf_t rotate image_to_data img done ds ->
  image_to_data (rotate img ang) = Raise e ->
  _recognize_with_rotations conf_t float rotate image_to_data img = Raise e.
Proof.
  intros Hang Hans He. unfold _recognize_with_rotations. rewrite Hang.
  now rewrite (rotations_loop_raises conf_t float rotate image_to_data
                 img done ds ang e rest Hans He).
Qed.

Lemma recognizer_raises_first_fault_witness :
  _recognize_with_rotations Samples.conf_t Samples.float Samples.rotate
                            MoreSamples.fails_at_15 Samples.dot
  = Raise (OtherException "TesseractError").
Proof.
  apply (recognizer_raises_first_fault Samples.conf_t Samples.float
           Samples.rotate MoreSamples.fails_at_15 Samples.dot
           [-30; -15] [Samples.tie_script (-30); Samples.tie_script (-15)]
           15 [30]).
  - reflexivity.
  - repeat constructor.
  - reflexivity.
Defined.

(** The events of a run are events of the bodies of its attempts. *)
Lemma loop_events env max_attempts atts e :
  In e (fst (attempts_loop env max_attempts atts)) ->
  exists attempt,
    In attempt atts /\
    In e (fst (attempt_body (env attempt) attempt max_attempts)).
Proof.
  induction atts as [|a atts IH]; cbn [attempts_loop]; [intros []|].
  destruct (attempt_body (env a) a max_attempts) as [ev r] eqn:Eb.
  destruct (attempts_loop env max_attempts atts) as [ev' b].
  cbn [fst] in IH.
  assert (Hhere : In e ev -> exists attempt,
             In attempt (a :: atts) /\
             In e (fst (attempt_body (env attempt) attempt max_attempts))).
  { intros H. exists a. split; [now left|]. now rewrite Eb. }
  assert (Hnext : In e (ev ++ ev') -> exists attempt,
             In attempt (a :: atts) /\
             In e (fst (attempt_body (env attempt) attempt max_attempts))).
  { intros H. apply in_app_or in H as [H|H]; [now apply Hhere|].
    destruct (IH H) as (a' & Ha' & He). exists a'. split; [now right|exact He]. }
  destruct r as [u|[|b'|]]; cbn [fst]; auto.
  destruct (max_attempts <=? a); cbn [fst]; auto.
Qed.

Lemma body_types_filtered o attempt max_attempts s :
  In (SendKeys s) (fst (attempt_body o attempt max_attempts)) ->
  exists text, extracted o = Ok text /\ s = keep_chars isalnum text.
Proof.
  destruct o as [d sc e rl rc rn il cl sk sl scl st].
  unfold attempt_body, submit_and_verify, raise_unless, emit, exit, ret, then_.
  cbn.
  destruct d; cbn; try (intuition discriminate).
  destruct sc; cbn; try (intuition discriminate).
  destruct e as [text|]; cbn; try (intuition discriminate).
  intros H. exists text. split; [reflexivity|]. revert H.
  destruct (is_empty (keep_chars isalnum text)); cbn;
    [destruct (attempt <? max_attempts); cbn|];
    repeat match goal with
           | |- context [match ?x with _ => _ end] =>
               is_var x; destruct x; cbn
           end;
    intros H;
    repeat match goal with
           | H : _ \/ _ |- _ => destruct H as [H|H]
           | H : False |- _ => destruct H
           | H : SendKeys _ = SendKeys _ |- _ => now injection H
           | H : _ = SendKeys _ |- _ => discriminate H
           end.
Qed.

(** X16.  Whatever the browser does, every text that the controller
    types into the input field consists of alphanumeric characters
    only (it may be empty). *)
Theorem typed_text_alphanumeric (env : Z -> attempt_obs) (max_attempts : Z)
        (s : string) :
  In (SendKeys s) (fst (_solve_captcha env max_attempts)) ->
  all_chars isalnum s = true.
Proof.
  intros H. apply loop_events in H as (a & _ & H).
  apply body_types_filtered in H as (text & _ & ->).
  apply keep_chars_all.
Qed.

Lemma typed_text_alphanumeric_witness :
  all_chars isalnum "KXRTP" = true.
Proof.
  apply (typed_text_alphanumeric Samples.stubborn_env 3 "KXRTP").
  vm_compute. tauto.
Defined.

Lemma body_true o attempt max_attempts :
  snd (attempt_body o attempt max_attempts) = inr (Return true) ->
  detect o = DetectTimeout \/ still_captcha o = NotFound.
Proof.
  intros H.
  destruct (detect o) eqn:Ed; try (now left);
    destruct (still_captcha o) eqn:Es; try (now right);
    exfalso; revert H; apply body_stays; congruence.
Qed.

Lemma loop_true env max_attempts atts :
  snd (attempts_loop env max_attempts atts) = true ->
  exists attempt,
    In attempt atts /\
    In attempt (attempts_started (fst (attempts_loop env max_attempts atts))) /\
    snd (attempt_body (env attempt) attempt max_attempts) = inr (Return true).
Proof.
  induction atts as [|a atts IH]; [discriminate|].
  destruct (loop_cons env max_attempts a atts)
    as (ev & Hev & [(Hr & ->)|[(_ & _ & ->)|(_ & ->)]]); cbn [fst snd].
  - intros _. exists a. rewrite Hev. repeat split; auto; now left.
  - discriminate.
  - intros Hb. destruct (IH Hb) as (a' & Hin & Hst & Hr).
    exists a'. split; [now right|]. split; [|exact Hr].
    rewrite started_app. apply in_or_app. now right.
Qed.

(** X17.  The controller reports success only when the challenge is
    gone: if it returns true, then at one of the attempts it started,
    numbered between 1 and max_attempts, either the challenge image
    was not found in time or the input field was missing after the
    submission. *)
Theorem success_means_gone (env : Z -> attempt_obs) (max_attempts : Z) :
  snd (_solve_captcha env max_attempts) = true ->
  exists attempt,
    1 <= attempt <= max_attempts /\
    In attempt (attempts_started (fst (_solve_captcha env max_attempts))) /\
    (detect (env attempt) = DetectTimeout \/
     still_captcha (env attempt) = NotFound).
Proof.
  intros H. apply loop_true in H as (a & Hin & Hst & Hr).
  exists a. split; [|split; [exact Hst|now apply body_true in Hr]].
  unfold py_range, range_from in Hin.
  apply in_map_iff in Hin as (i & <- & Hi). apply in_seq in Hi. lia.
Qed.

Lemma success_means_gone_witness :
  exists attempt,
    1 <= attempt <= 2 /\
    In attempt (attempts_started (fst (_solve_captcha Samples.no_refresh_env 2))) /\
    (detect (Samples.no_refresh_env attempt) = DetectTimeout \/
     still_captcha (Samples.no_refresh_env attempt) = NotFound).
Proof.
  apply (success_means_gone Samples.no_refresh_env 2). reflexivity.
Defined.

(** X18.  Two edges of the controller.  With a budget of zero or less
    it returns false at once and touches nothing.  When the challenge
    image is not found at the first attempt it returns true at once: no
    screenshot is taken, nothing is recognized, typed or clicked. *)
Theorem solve_edges (env : Z -> attempt_obs) (max_attempts : Z) :
  (max_attempts <= 0 -> _solve_captcha env max_attempts = ([], false)) /\
  (0 < max_attempts -> detect (env 1) = DetectTimeout ->
   _solve_captcha env max_attempts = ([LogAttempt 1], true)).
Proof.
  unfold _solve_captcha, py_range. split.
  - intros Hm. now replace (Z.to_nat (max_attempts + 1 - 1)) with 0%nat by lia.
  - intros Hm Hd.
    replace (Z.to_nat (max_attempts + 1 - 1))
      with (S (Z.to_nat (max_attempts - 1))) by lia.
    rewrite range_from_S. cbn [attempts_loop].
    assert (Hb : attempt_body (env 1) 1 max_attempts
                 = ([LogAttempt 1], inr (Return true))).
    { unfold attempt_body, emit, exit, then_. now rewrite Hd. }
    now rewrite Hb.
Qed.

Lemma solve_edges_witness :
  _solve_captcha Samples.stubborn_env 0 = ([], false) /\
  _solve_captcha (fun _ => Samples.gone) 5 = ([LogAttempt 1], true).
Proof.
  split.
  - apply (proj1 (solve_edges Samples.stubborn_env 0)). lia.
  - apply (proj2 (solve_edges (fun _ => Samples.gone) 5)); [lia|reflexivity].
Defined.

End ControlFacts.

(** ** amazon_scraper.py: product data *)

Module ProductDataFacts.
Import PyStr PyStrFacts PyText PyTextFacts ProductData.
Local Open Scope string_scope.

Lemma split_once_spec sep s :
  has_char (Ascii.eqb sep) (fst (split_once sep s)) = false /\
  s = fst (split_once sep s) ++
      match snd (split_once sep s) with
      | Some r => String sep r
      | None => ""
      end.
Proof.
  induction s as [|c s (Hno & Hs)]; simpl; [now split|].
  destruct (Ascii.eqb_spec c sep) as [->|Hne]; simpl; [now split|].
  destruct (split_once sep s) as [p q]. simpl in *.
  rewrite Hno. split; [|now rewrite <- Hs].
  destruct (Ascii.eqb_spec sep c); [congruence|reflexivity].
Qed.

Section Browser.

Variable find_element : by_t -> string -> result element.

Local Abbreviation probe := (probe find_element).
Local Abbreviation try_selectors := (try_selectors find_element).
Local Abbreviation passed_over := (passed_over find_element).
Local Abbreviation store := (store).
Local Abbreviation extract_loop := (extract_loop find_element).
Local Abbreviation _extract_product_data :=
  (_extract_product_data find_element).

Lemma try_selectors_skip pre rest value :
  Forall passed_over pre ->
  exists value', try_selectors (pre ++ rest) value = try_selectors rest value'.
Proof.
  intros H. revert value.
  induction H as [|sel pre [Hs|(v & Hs & Hv)] _ IH]; intros value.
  - now exists value.
  - cbn [app ProductData.try_selectors]. rewrite Hs. cbn [is_no_such].
    apply IH.
  - cbn [app ProductData.try_selectors]. rewrite Hs, Hv. apply IH.
Qed.

Lemma try_selectors_not_no_such sels value e :
  try_selectors sels value = Raise e -> is_no_such e = false.
Proof.
  revert value. induction sels as [|sel sels IH]; intros value;
    cbn [ProductData.try_selectors]; [discriminate|].
  destruct (probe sel) as [v|e'].
  - destruct (truthy v); [discriminate|apply IH].
  - destruct (is_no_such e') eqn:E; [apply IH|].
    now intros [= <-].
Qed.

(** X19.  The selectors of a key are tried in order.  The value is
    that of the first selector whose element is there with a value
    that is neither empty nor [None]; the selectors after it are not
    tried.  An exception other than [NoSuchElementException] at a
    selector, the ones before it giving nothing, is raised; a
    [NoSuchElementException] is never raised. *)
Theorem try_selectors_first (pre : list (by_t * string * string))
        (sel : by_t * string * string)
        (post : list (by_t * string * string)) (value : pyval) :
  Forall passed_over pre ->
  (forall v, probe sel = Ok v -> truthy v = true ->
             try_selectors (pre ++ sel :: post) value = Ok v) /\
  (forall e, probe sel = Raise e -> is_no_such e = false ->
             try_selectors (pre ++ sel :: post) value = Raise e) /\
  (forall sels e, try_selectors sels value = Raise e ->
                  e <> NoSuchElementException).
Proof.
  intros Hpre.
  destruct (try_selectors_skip pre (sel :: post) value Hpre) as (value' & ->).
  cbn [ProductData.try_selectors]. repeat split.
  - intros v -> ->. reflexivity.
  - intros e -> ->. reflexivity.
  - intros sels e He ->. apply try_selectors_not_no_such in He. discriminate.
Qed.

Lemma store_not_no_such key value data e :
  store key value data = Raise e -> is_no_such e = false.
Proof.
  unfold ProductData.store.
  destruct (String.eqb key "name" && not_na value).
  - destruct value as [s|]; [|now intros [= <-]].
    destruct (split_once dq_char s). discriminate.
  - destruct (String.eqb key "characteristics").
    + destruct value; [discriminate|now intros [= <-]].
    + discriminate.
Qed.

Lemma extract_loop_not_no_such exts data e :
  extract_loop exts data = Raise e -> is_no_such e = false.
Proof.
  revert data. induction exts as [|[key sels] exts IH]; intros data;
    cbn [ProductData.extract_loop]; [discriminate|].
  destruct (try_selectors sels (VStr "N/A")) as [v|e'] eqn:Et; cbn [bind].
  - destruct (store key v data) as [d|e''] eqn:Es; cbn [bind].
    + apply IH.
    + intros [= <-]. eapply store_not_no_such; eauto.
  - intros [= <-]. eapply try_selectors_not_no_such; eauto.
Qed.

(** The title is a string: its selector reads the text. *)
Lemma title_is_text v :
  try_selectors [(CSS_SELECTOR, "span#productTitle", "text")] (VStr "N/A")
  = Ok v -> exists title, v = VStr title.
Proof.
  cbn. destruct (find_element CSS_SELECTOR "span#productTitle") as [el|e];
    cbn.
  - destruct (text_of el) as [t|e]; cbn.
    + destruct (is_empty t); cbn; intros [= <-]; now exists t.
    + destruct (is_no_such e); [|discriminate]. intros [= <-]. now eexists.
  - destruct (is_no_such e); [|discriminate]. intros [= <-]. now eexists.
Qed.

Ltac next_key :=
  match goal with
  | |- context [ProductData.try_selectors find_element ?l ?v] =>
      destruct (ProductData.try_selectors find_element l v) as [?val|?exc];
      cbn [bind ProductData.store String.eqb Ascii.eqb Bool.eqb andb
           ProductData.not_na];
      try discriminate;
      try match goal with
          | |- context [match ?x with VStr _ => _ | VNone => _ end] =>
              is_var x; destruct x; cbn [bind]; try discriminate
          end
  end.

(** X20.  The dictionary returned for a page has the keys of the
    table in their order and, last, "url" with the URL that was
    passed.  When the title found is "N/A" (no title element) the
    name is "N/A" and there is no "resume"; otherwise the title is
    cut at its first double quote: the name is the stripped part
    before it, without any double quote, and "resume" is the
    stripped part after it, or empty if there is no quote. *)
Theorem product_data_shape (url : string) (data : dict) :
  _extract_product_data url = Ok data ->
  exists title,
    try_selectors [(CSS_SELECTOR, "span#productTitle", "text")] (VStr "N/A")
    = Ok (VStr title) /\
    dict_get "url" data = Some (VStr url) /\
    ((title = "N/A" /\
      keys data = "name" :: keys_after_name /\
      dict_get "name" data = Some (VStr "N/A") /\
      dict_get "resume" data = None)
     \/
     (title <> "N/A" /\
      keys data = "name" :: "resume" :: keys_after_name /\
      exists part0 part1,
        split_once dq_char title = (part0, part1) /\
        title = part0 ++ match part1 with
                         | Some r => String dq_char r
                         | None => ""
                         end /\
        dict_get "name" data = Some (VStr (strip part0)) /\
        has_char (Ascii.eqb dq_char) (strip part0) = false /\
        dict_get "resume" data =
          Some (VStr (match part1 with
                      | Some r => strip r
                      | None => ""
                      end)))).
Proof.
  unfold ProductData._extract_product_data, extractors.
  cbn [ProductData.extract_loop].
  destruct (try_selectors [(CSS_SELECTOR, "span#productTitle", "text")]
                          (VStr "N/A")) as [v|e] eqn:En; [|discriminate].
  destruct (title_is_text v En) as (title & ->).
  cbn [bind]. intros H. exists title. split; [reflexivity|].
  unfold ProductData.store at 1 in H.
  cbn [String.eqb Ascii.eqb Bool.eqb andb not_na] in H.
  destruct (String.eqb_spec title "N/A") as [Et|Et]; cbn [negb] in H.
  - cbn [bind dict_set] in H. revert H. repeat next_key.
    intros [= <-]. subst title. split; [reflexivity|left].
    repeat split; reflexivity.
  - pose proof (split_once_spec dq_char title) as (Hno & Hcut).
    destruct (split_once dq_char title) as [part0 part1] eqn:Esplit.
    cbn [fst snd] in Hno, Hcut.
    assert (Hname : has_char (Ascii.eqb dq_char) (strip part0) = false).
    { destruct (strip_spec part0) as (pre & post & Hs & _).
      rewrite Hs in Hno. rewrite !ProxyFileFacts.has_char_app in Hno.
      rewrite !orb_false_iff in Hno. tauto. }
    cbn [bind dict_set String.eqb Ascii.eqb Bool.eqb] in H. revert H.
    repeat next_key.
    intros [= <-]. split; [reflexivity|right].
    split; [exact Et|]. split; [reflexivity|].
    exists part0, part1. repeat split; auto.
Qed.

Lemma try_selectors_absent sels value :
  (forall by_ selector, find_element by_ selector = Raise NoSuchElementException) ->
  try_selectors sels value = Ok value.
Proof.
  intros Habs. induction sels as [|[[by_ selector] attr] sels IH];
    cbn [ProductData.try_selectors]; [reflexivity|].
  unfold ProductData.probe. rewrite Habs. cbn. exact IH.
Qed.

(** X21.  On a page where no selector finds an element every field
    is "N/A", there is no "resume", and no exception is raised. *)
Theorem product_data_absent (url : string) :
  (forall by_ selector, find_element by_ selector = Raise NoSuchElementException) ->
  _extract_product_data url =
  Ok (map (fun key => (key, VStr "N/A"))
          ("name" :: removelast keys_after_name) ++ [("url", VStr url)])%list.
Proof.
  intros Habs. unfold ProductData._extract_product_data, extractors.
  cbn [ProductData.extract_loop].
  rewrite !(try_selectors_absent _ _ Habs). reflexivity.
Qed.

(** X22.  A [NoSuchElementException] never leaves
    [_extract_product_data]: what it raises is something else. *)
Theorem no_such_element_contained (url : string) (e : exn) :
  _extract_product_data url = Raise e -> e <> NoSuchElementException.
Proof.
  unfold ProductData._extract_product_data.
  destruct (extract_loop extractors []) as [d|e'] eqn:E; [discriminate|].
  intros [= <-] ->. apply extract_loop_not_no_such in E. discriminate.
Qed.

End Browser.

Lemma try_selectors_first_witness :
  try_selectors PageSamples.lamp_page
    [(XPATH, "//missing", "text");
     (CSS_SELECTOR, "span.a-price span.a-offscreen", "text");
     (CSS_SELECTOR, "span.a-price", "text");
     (CSS_SELECTOR, "span#productTitle", "text")] (VStr "N/A")
  = Ok (VStr "$19.99").
Proof.
  assert (Hpre : Forall (passed_over PageSamples.lamp_page)
                   [(XPATH, "//missing", "text");
                    (CSS_SELECTOR, "span.a-price span.a-offscreen", "text")]).
  { constructor; [now left|].
    constructor; [right; now exists (VStr "")|constructor]. }
  destruct (try_selectors_first PageSamples.lamp_page _
              (CSS_SELECTOR, "span.a-price", "text")
              [(CSS_SELECTOR, "span#productTitle", "text")] (VStr "N/A") Hpre)
    as (Hfirst & _).
  apply Hfirst; reflexivity.
Defined.

Lemma product_data_shape_witness :
  exists data,
    _extract_product_data PageSamples.lamp_page "https://a.example/dp/1" = Ok data /\
    dict_get "name" data = Some (VStr "Desk Lamp") /\
    dict_get "resume" data = Some (VStr ("Aura" ++ dq ++ " 12W, warm white")) /\
    dict_get "price" data = Some (VStr "$19.99").
Proof.
  eexists. split; [reflexivity|].
  destruct (product_data_shape PageSamples.lamp_page "https://a.example/dp/1" _ eq_refl)
    as (title & Ht & _ & [(Hna & _)|(_ & _ & p0 & p1 & Hsplit & _ & Hname & _ & Hres)]).
  - injection Ht as <-. discriminate Hna.
  - injection Ht as <-. injection Hsplit as <- <-.
    split; [exact Hname|]. split; [exact Hres|reflexivity].
Defined.

Lemma product_data_absent_witness :
  dict_get "name"
    (map (fun key => (key, VStr "N/A")) ("name" :: removelast keys_after_name)
     ++ [("url", VStr "https://a.example/dp/2")])%list
  = Some (VStr "N/A") /\
  _extract_product_data PageSamples.empty_page "https://a.example/dp/2" =
  Ok (map (fun key => (key, VStr "N/A")) ("name" :: removelast keys_after_name)
      ++ [("url", VStr "https://a.example/dp/2")])%list.
Proof.
  split; [reflexivity|].
  apply product_data_absent. reflexivity.
Defined.

Lemma no_such_element_contained_witness :
  _extract_product_data PageSamples.broken_page "https://a.example/dp/3" =
  Raise (OtherException "WebDriverException") /\
  OtherException "WebDriverException" <> NoSuchElementException.
Proof.
  assert (H : _extract_product_data PageSamples.broken_page
                "https://a.example/dp/3" =
              Raise (OtherException "WebDriverException"))
    by (vm_compute; reflexivity).
  split; [exact H|].
  exact (no_such_element_contained PageSamples.broken_page _ _ H).
Defined.

End ProductDataFacts.

(** ** amazon_scraper.py: loading one product page *)

Module ScraperFacts.
Import PyStr ProductData ProductDataFacts Scraper.
Local Open Scope Z_scope.

Lemma dict_get_set key value d : dict_get key (dict_set key value d) = Some value.
Proof.
  induction d as [|[k v] d IH]; simpl.
  - now rewrite String.eqb_refl.
  - destruct (String.eqb k key) eqn:E; simpl; now rewrite E.
Qed.

Lemma url_stored find url data :
  _extract_product_data find url = Ok data ->
  dict_get "url" data = Some (VStr url).
Proof.
  unfold _extract_product_data.
  destruct (extract_loop find extractors []); [|discriminate].
  intros [= <-]. apply dict_get_set.
Qed.

Lemma dict_set_keeps k key value d :
  dict_get k d <> None -> dict_get k (dict_set key value d) <> None.
Proof.
  induction d as [|[k' v'] d IH]; simpl; [congruence|].
  destruct (String.eqb k' key) eqn:E; simpl;
    destruct (String.eqb k' k); auto; congruence.
Qed.

Lemma store_keeps k key value data data' :
  store key value data = Ok data' ->
  dict_get k data <> None -> dict_get k data' <> None.
Proof.
  unfold store. intros H Hk.
  destruct (String.eqb key "name" && not_na value).
  - destruct value as [s|]; [|discriminate H].
    destruct (PyText.split_once dq_char s) as [part0 part1].
    injection H as <-. now apply dict_set_keeps, dict_set_keeps.
  - destruct (String.eqb key "characteristics").
    + destruct value as [s|]; [|discriminate H].
      injection H as <-. now apply dict_set_keeps.
    + injection H as <-. now apply dict_set_keeps.
Qed.

Lemma extract_loop_keeps find k exts :
  forall data data',
    extract_loop find exts data = Ok data' ->
    dict_get k data <> None -> dict_get k data' <> None.
Proof.
  induction exts as [|[key sels] exts IH]; intros data data' H Hk.
  - now injection H as <-.
  - cbn [extract_loop] in H. unfold bind in H.
    destruct (try_selectors find sels (VStr "N/A")) as [value|];
      [|discriminate H].
    destruct (store key value data) as [data1|] eqn:Es; [|discriminate H].
    apply (IH data1 data' H). exact (store_keeps k key value data data1 Es Hk).
Qed.

Lemma store_name value data' :
  store "name" value [] = Ok data' -> dict_get "name" data' <> None.
Proof.
  unfold store. cbn [String.eqb Ascii.eqb andb].
  change (String.eqb "name" "name") with true.
  change (String.eqb "name" "characteristics") with false.
  cbn [andb]. intros H.
  destruct (not_na value).
  - destruct value as [s|]; [|discriminate].
    destruct (PyText.split_once dq_char s) as [part0 part1].
    injection H as <-. discriminate.
  - injection H as <-. discriminate.
Qed.

Lemma extract_loop_first find key sels rest data data' :
  extract_loop find ((key, sels) :: rest) data = Ok data' ->
  exists value data1,
    store key value data = Ok data1 /\ extract_loop find rest data1 = Ok data'.
Proof.
  cbn [extract_loop]. unfold bind.
  destruct (try_selectors find sels (VStr "N/A")) as [value|]; [|discriminate].
  destruct (store key value data) as [data1|] eqn:Es; [|discriminate].
  intros H. now exists value, data1.
Qed.

(** The dictionary that is returned has a name. *)
Lemma name_present find url data :
  _extract_product_data find url = Ok data -> dict_get "name" data <> None.
Proof.
  unfold _extract_product_data, bind.
  destruct (extract_loop find extractors []) as [data2|] eqn:El; [|discriminate].
  intros [= <-]. apply dict_set_keeps.
  apply extract_loop_first in El. destruct El as (value & data1 & Es & El).
  apply (extract_loop_keeps _ _ _ _ _ El). exact (store_name _ _ Es).
Qed.

(** The three ways through the body of an attempt. *)
Lemma page_body_cases url o attempt browser :
  (* no session is opened *)
  page_body url o attempt browser = (quit_part browser, browser, Raised)
  \/
  (* a session is opened and nothing is recorded *)
  (exists tail fl,
      page_body url o attempt browser =
      ((quit_part browser ++ OpenSession attempt :: tail)%list, Some attempt, fl) /\
      fl <> Break /\
      (tail = [] \/ exists cev solved, tail = [Captcha cev solved]))
  \/
  (* a session is opened and the product is recorded *)
  (exists cev product_data,
      page_body url o attempt browser =
      ((quit_part browser ++
        [OpenSession attempt; Captcha cev true; Append product_data; WriteJson])%list,
       Some attempt, Break) /\
      Solver._solve_captcha (captcha o) 5 = (cev, true) /\
      find_container o container_selectors = Ok true /\
      _extract_product_data (find_element o) url = Ok product_data /\
      has_name product_data = true).
Proof.
  unfold page_body. fold (quit_part browser).
  destruct (match browser with Some _ => negb (quit_ok o) | None => false end);
    [now left|].
  destruct (chrome_ok o); cbn [negb]; [|now left].
  right.
  destruct (get_ok o); cbn [negb];
    [|left; exists [], Raised; repeat split; auto; discriminate].
  destruct (ready_ok o); cbn [negb];
    [|left; exists [], Raised; repeat split; auto; discriminate].
  destruct (Solver._solve_captcha (captcha o) 5) as [cev solved] eqn:Es.
  rewrite <- app_assoc. cbn [app].
  assert (Hnone : forall fl, fl <> Break ->
    exists tail fl',
      ((quit_part browser ++ [OpenSession attempt; Captcha cev solved])%list,
       Some attempt, fl) =
      ((quit_part browser ++ OpenSession attempt :: tail)%list, Some attempt, fl') /\
      fl' <> Break /\
      (tail = [] \/ exists cev' solved', tail = [Captcha cev' solved'])).
  { intros fl Hfl. exists [Captcha cev solved], fl. repeat split; auto.
    right. now exists cev, solved. }
  destruct solved; cbn [negb]; [|left; apply Hnone; discriminate].
  destruct (find_container o container_selectors) as [[|]|e] eqn:Ec;
    try (left; apply Hnone; discriminate).
  destruct (scroll_ok o); cbn [negb]; [|left; apply Hnone; discriminate].
  destruct (_extract_product_data (find_element o) url) as [pd|e] eqn:Ep;
    [|left; apply Hnone; discriminate].
  destruct (has_name pd) eqn:Hn; [|left; apply Hnone; discriminate].
  destruct (dict_get "name" pd) eqn:Hg;
    [|now destruct (name_present _ _ _ Ep)].
  right. exists cev, pd. rewrite <- app_assoc. cbn [app]. repeat split; auto.
Qed.

Lemma sessions_app a b : sessions (a ++ b) = (sessions a ++ sessions b)%list.
Proof. apply flat_map_app. Qed.

Lemma appended_app a b : appended (a ++ b) = (appended a ++ appended b)%list.
Proof. apply flat_map_app. Qed.

Lemma still_open_app a b opened :
  still_open (a ++ b) opened = still_open b (still_open a opened).
Proof.
  revert opened. induction a as [|e a IH]; intros opened; [reflexivity|].
  destruct e; simpl; apply IH.
Qed.

Lemma sessions_quit_part b : sessions (quit_part b) = [].
Proof. now destruct b. Qed.

Lemma appended_quit_part b : appended (quit_part b) = [].
Proof. now destruct b. Qed.

(** The sessions still open are at most the one that is held. *)
Definition held (browser : option Z) (opened : list Z) : Prop :=
  opened = [] \/ exists b, browser = Some b /\ opened = [b].

Lemma still_open_quit_part browser opened :
  held browser opened -> still_open (quit_part browser) opened = [].
Proof.
  intros [->|(b & -> & ->)].
  - now destruct browser.
  - simpl. now rewrite Z.eqb_refl.
Qed.

Lemma page_body_held url o attempt browser opened :
  held browser opened ->
  held (snd (fst (page_body url o attempt browser)))
       (still_open (fst (fst (page_body url o attempt browser))) opened).
Proof.
  intros H.
  destruct (page_body_cases url o attempt browser)
    as [->|[(tail & fl & -> & _ & Ht)|(cev & pd & -> & _)]]; cbn [fst snd].
  - rewrite still_open_quit_part by exact H. now left.
  - rewrite still_open_app, still_open_quit_part by exact H.
    right. exists attempt. split; [reflexivity|].
    destruct Ht as [->|(cev & solved & ->)]; reflexivity.
  - rewrite still_open_app, still_open_quit_part by exact H.
    right. exists attempt. split; reflexivity.
Qed.

Lemma page_loop_held url env atts :
  forall browser opened,
    held browser opened ->
    held (snd (page_loop url env atts browser))
         (still_open (fst (page_loop url env atts browser)) opened).
Proof.
  induction atts as [|a atts IH]; intros browser opened H; [exact H|].
  cbn [page_loop].
  pose proof (page_body_held url (env a) a browser opened H) as Hb.
  destruct (page_body url (env a) a browser) as [[ev b] fl]. cbn [fst snd] in Hb.
  specialize (IH b _ Hb).
  destruct (page_loop url env atts b) as [ev' b']. cbn [fst snd] in IH.
  destruct fl; cbn [fst snd]; try exact Hb;
    now rewrite still_open_app.
Qed.

(** X23.  Every browser session that is opened for a URL is quit: at
    the end of the work on a URL, whatever went wrong on the way, a
    call of [quit] has followed the opening of each session. *)
Theorem sessions_closed (url : string) (env : Z -> page_obs)
        (final_quit_ok : bool) :
  still_open (fst (scrape_url url env final_quit_ok)) [] = [].
Proof.
  unfold scrape_url.
  pose proof (page_loop_held url env
                (Solver.py_range 1 (max_page_load_attempts + 1)) None []
                (or_introl eq_refl)) as H.
  destruct (page_loop url env _ None) as [ev browser]. cbn [fst snd] in H.
  destruct browser as [b|]; cbn [fst].
  - rewrite still_open_app.
    destruct H as [->|(b' & [= <-] & ->)]; [reflexivity|].
    simpl. now rewrite Z.eqb_refl.
  - destruct H as [H|(b' & Hb & _)]; [exact H|discriminate].
Qed.

Lemma page_loop_continue url env a atts browser ev b fl ev' b' :
  page_body url (env a) a browser = (ev, b, fl) ->
  fl <> Break ->
  page_loop url env atts b = (ev', b') ->
  page_loop url env (a :: atts) browser = ((ev ++ ev')%list, b').
Proof.
  intros Hb Hfl Hl. cbn [page_loop]. rewrite Hb, Hl.
  destruct fl; [now destruct Hfl|reflexivity|reflexivity].
Qed.

Lemma page_loop_break url env a atts browser ev b :
  page_body url (env a) a browser = (ev, b, Break) ->
  page_loop url env (a :: atts) browser = (ev, b).
Proof. intros Hb. cbn [page_loop]. now rewrite Hb. Qed.

Lemma appended_tail tail :
  tail = [] \/ (exists cev solved, tail = [Captcha cev solved]) ->
  appended tail = [].
Proof. intros [->|(cev & solved & ->)]; reflexivity. Qed.

Lemma sessions_tail tail :
  tail = [] \/ (exists cev solved, tail = [Captcha cev solved]) ->
  sessions tail = [].
Proof. intros [->|(cev & solved & ->)]; reflexivity. Qed.

(** What the loop records comes from an attempt on which everything
    went through. *)
Lemma page_loop_appended url env atts :
  forall browser,
    appended (fst (page_loop url env atts browser)) = [] \/
    exists attempt cev product_data,
      In attempt atts /\
      appended (fst (page_loop url env atts browser)) = [product_data] /\
      Solver._solve_captcha (captcha (env attempt)) 5 = (cev, true) /\
      find_container (env attempt) container_selectors = Ok true /\
      _extract_product_data (find_element (env attempt)) url = Ok product_data /\
      has_name product_data = true.
Proof.
  induction atts as [|a atts IH]; intros browser; [now left|].
  destruct (page_body_cases url (env a) a browser)
    as [Hb|[(tail & fl & Hb & Hfl & Ht)|(cev & pd & Hb & Hs & Hc & Hp & Hn)]].
  - specialize (IH browser).
    destruct (page_loop url env atts browser) as [ev' b'] eqn:Hl.
    rewrite (page_loop_continue _ _ _ _ _ _ _ _ _ _ Hb ltac:(discriminate) Hl).
    cbn [fst] in *. rewrite appended_app, appended_quit_part. cbn [app].
    destruct IH as [IH|(attempt & cev & pd & Hin & IH)]; [now left|].
    right. exists attempt, cev, pd. split; [now right|exact IH].
  - specialize (IH (Some a)).
    destruct (page_loop url env atts (Some a)) as [ev' b'] eqn:Hl.
    rewrite (page_loop_continue _ _ _ _ _ _ _ _ _ _ Hb Hfl Hl).
    cbn [fst] in *.
    rewrite !appended_app, appended_quit_part.
    change (OpenSession a :: tail) with ([OpenSession a] ++ tail)%list.
    rewrite appended_app, (appended_tail _ Ht). cbn [app appended flat_map].
    destruct IH as [IH|(attempt & cev & pd & Hin & IH)]; [now left|].
    right. exists attempt, cev, pd. split; [now right|exact IH].
  - right. exists a, cev, pd.
    rewrite (page_loop_break _ _ _ _ _ _ _ Hb). cbn [fst].
    rewrite appended_app, appended_quit_part.
    split; [now left|]. split; [reflexivity|]. now repeat split.
Qed.

Lemma good_body url o attempt browser :
  good url o ->
  exists ev, page_body url o attempt browser = (ev, Some attempt, Break) /\
             exists product_data, appended ev = [product_data].
Proof.
  intros (Hq & Hc & Hg & Hr & Hs & Hf & Hsc & pd & Hp & Hn).
  unfold page_body. rewrite Hq, Hc, Hg, Hr, Hf, Hsc, Hp, Hn.
  destruct (Solver._solve_captcha (captcha o) 5) as [cev solved].
  cbn [snd] in Hs. subst solved.
  destruct (dict_get "name" pd) eqn:Hg';
    [|now destruct (name_present _ _ _ Hp)].
  destruct browser; cbn [negb]; eexists; (split; [reflexivity|]);
    exists pd; reflexivity.
Qed.

Lemma page_loop_good url env atts attempt :
  In attempt atts -> good url (env attempt) ->
  forall browser,
  exists product_data,
    appended (fst (page_loop url env atts browser)) = [product_data].
Proof.
  intros Hin Hgood.
  induction atts as [|a atts IH]; intros browser; [destruct Hin|].
  destruct (page_body url (env a) a browser) as [[ev b] fl] eqn:Hb.
  destruct fl.
  - rewrite (page_loop_break _ _ _ _ _ _ _ Hb). cbn [fst].
    destruct (page_body_cases url (env a) a browser)
      as [Hb'|[(tail & fl & Hb' & Hfl & _)|(cev & pd & Hb' & _)]];
      rewrite Hb in Hb'.
    + discriminate Hb'.
    + injection Hb' as _ _ <-. now destruct Hfl.
    + injection Hb' as -> _. exists pd.
      now rewrite appended_app, appended_quit_part.
  - destruct Hin as [<-|Hin].
    + destruct (good_body url (env a) a browser Hgood) as (ev0 & Hb0 & _).
      rewrite Hb in Hb0. discriminate Hb0.
    + destruct (IH Hin b) as (pd & Hpd).
      destruct (page_loop url env atts b) as [ev' b'] eqn:Hl.
      rewrite (page_loop_continue _ _ _ _ _ _ _ _ _ _ Hb ltac:(discriminate) Hl).
      cbn [fst] in *. exists pd. rewrite appended_app, Hpd.
      destruct (page_body_cases url (env a) a browser)
        as [Hb'|[(tail & fl & Hb' & Hfl & Ht)|(cev & pd' & Hb' & _)]];
        rewrite Hb in Hb'.
      * injection Hb' as -> _. now rewrite appended_quit_part.
      * injection Hb' as -> _ _.
        rewrite appended_app, appended_quit_part.
        change (OpenSession a :: tail) with ([OpenSession a] ++ tail)%list.
        now rewrite appended_app, (appended_tail _ Ht).
      * discriminate Hb'.
  - destruct Hin as [<-|Hin].
    + destruct (good_body url (env a) a browser Hgood) as (ev0 & Hb0 & _).
      rewrite Hb in Hb0. discriminate Hb0.
    + destruct (IH Hin b) as (pd & Hpd).
      destruct (page_loop url env atts b) as [ev' b'] eqn:Hl.
      rewrite (page_loop_continue _ _ _ _ _ _ _ _ _ _ Hb ltac:(discriminate) Hl).
      cbn [fst] in *. exists pd. rewrite appended_app, Hpd.
      destruct (page_body_cases url (env a) a browser)
        as [Hb'|[(tail & fl & Hb' & Hfl & Ht)|(cev & pd' & Hb' & _)]];
        rewrite Hb in Hb'.
      * injection Hb' as -> _. now rewrite appended_quit_part.
      * injection Hb' as -> _ _.
        rewrite appended_app, appended_quit_part.
        change (OpenSession a :: tail) with ([OpenSession a] ++ tail)%list.
        now rewrite appended_app, (appended_tail _ Ht).
      * discriminate Hb'.
Qed.

Lemma page_loop_sessions url env atts :
  NoDup atts ->
  forall browser,
  exists keep : Z -> bool,
    sessions (fst (page_loop url env atts browser)) = filter keep atts.
Proof.
  induction 1 as [|a atts Hnin Hnd IH]; intros browser;
    [now exists (fun _ => true)|].
  assert (Hext : forall (keep : Z -> bool) (flag : bool),
             filter (fun x => if x =? a then flag else keep x) atts =
             filter keep atts).
  { intros keep flag. apply filter_ext_in. intros x Hx.
    destruct (Z.eqb_spec x a); [now subst|reflexivity]. }
  destruct (page_body_cases url (env a) a browser)
    as [Hb|[(tail & fl & Hb & Hfl & Ht)|(cev & pd & Hb & _)]].
  - destruct (IH browser) as (keep & Hk).
    destruct (page_loop url env atts browser) as [ev' b'] eqn:Hl.
    rewrite (page_loop_continue _ _ _ _ _ _ _ _ _ _ Hb ltac:(discriminate) Hl).
    cbn [fst] in *. exists (fun x => if x =? a then false else keep x).
    cbn [filter]. rewrite Z.eqb_refl, Hext.
    now rewrite sessions_app, sessions_quit_part.
  - destruct (IH (Some a)) as (keep & Hk).
    destruct (page_loop url env atts (Some a)) as [ev' b'] eqn:Hl.
    rewrite (page_loop_continue _ _ _ _ _ _ _ _ _ _ Hb Hfl Hl).
    cbn [fst] in *. exists (fun x => if x =? a then true else keep x).
    cbn [filter]. rewrite Z.eqb_refl, Hext.
    rewrite !sessions_app, sessions_quit_part.
    change (OpenSession a :: tail) with ([OpenSession a] ++ tail)%list.
    rewrite sessions_app, (sessions_tail _ Ht), Hk. reflexivity.
  - rewrite (page_loop_break _ _ _ _ _ _ _ Hb). cbn [fst].
    exists (fun x => if x =? a then true else false).
    cbn [filter]. rewrite Z.eqb_refl, Hext.
    rewrite sessions_app, sessions_quit_part.
    clear. induction atts as [|x atts IH]; [reflexivity|exact IH].
Qed.

Lemma scrape_url_appended url env final_quit_ok :
  appended (fst (scrape_url url env final_quit_ok)) =
  appended (fst (page_loop url env [1; 2; 3] None)).
Proof.
  unfold scrape_url.
  change (Solver.py_range 1 (max_page_load_attempts + 1)) with [1; 2; 3].
  destruct (page_loop url env [1; 2; 3] None) as [ev [b|]]; cbn [fst];
    [|reflexivity].
  rewrite appended_app. apply app_nil_r.
Qed.

Lemma scrape_url_sessions url env final_quit_ok :
  sessions (fst (scrape_url url env final_quit_ok)) =
  sessions (fst (page_loop url env [1; 2; 3] None)).
Proof.
  unfold scrape_url.
  change (Solver.py_range 1 (max_page_load_attempts + 1)) with [1; 2; 3].
  destruct (page_loop url env [1; 2; 3] None) as [ev [b|]]; cbn [fst];
    [|reflexivity].
  rewrite sessions_app. apply app_nil_r.
Qed.

(** X24.  A URL is recorded at most once, and only from an attempt on
    which [_solve_captcha] returned [True], a product container was
    found and the data extracted have a name other than "N/A"; what is
    recorded is those data, and they hold the URL. *)
Theorem recorded_once (url : string) (env : Z -> page_obs)
        (final_quit_ok : bool) :
  appended (fst (scrape_url url env final_quit_ok)) = [] \/
  exists attempt cev product_data,
    1 <= attempt <= 3 /\
    appended (fst (scrape_url url env final_quit_ok)) = [product_data] /\
    Solver._solve_captcha (captcha (env attempt)) 5 = (cev, true) /\
    find_container (env attempt) container_selectors = Ok true /\
    _extract_product_data (find_element (env attempt)) url = Ok product_data /\
    has_name product_data = true /\
    dict_get "url" product_data = Some (VStr url).
Proof.
  rewrite scrape_url_appended.
  destruct (page_loop_appended url env [1; 2; 3] None)
    as [H|(attempt & cev & pd & Hin & Ha & Hs & Hc & Hp & Hn)]; [now left|].
  right. exists attempt, cev, pd.
  split; [cbn [In] in Hin; lia|].
  repeat (split; [assumption|]). exact (url_stored _ _ _ Hp).
Qed.

(** X25.  If on one of the three attempts nothing fails (the session
    starts, the page loads, [_solve_captcha] returns [True], a
    container is found and the data have a name), the product is
    recorded. *)
Theorem good_attempt_recorded (url : string) (env : Z -> page_obs)
        (final_quit_ok : bool) (attempt : Z) :
  1 <= attempt <= 3 ->
  good url (env attempt) ->
  exists product_data,
    appended (fst (scrape_url url env final_quit_ok)) = [product_data].
Proof.
  intros Hr Hgood. rewrite scrape_url_appended.
  apply (page_loop_good url env [1; 2; 3] attempt); [|exact Hgood].
  cbn [In]. lia.
Qed.

(** X26.  The sessions opened for a URL are some of the attempts 1, 2
    and 3, each at most once and in that order: at most three sessions
    are opened. *)
Theorem sessions_bound (url : string) (env : Z -> page_obs)
        (final_quit_ok : bool) :
  (exists keep : Z -> bool,
      sessions (fst (scrape_url url env final_quit_ok)) = filter keep [1; 2; 3]) /\
  (length (sessions (fst (scrape_url url env final_quit_ok))) <= 3)%nat.
Proof.
  rewrite scrape_url_sessions.
  assert (Hnd : NoDup [1; 2; 3]).
  { repeat constructor; cbn [In]; lia. }
  destruct (page_loop_sessions url env [1; 2; 3] Hnd None) as (keep & Hk).
  split; [now exists keep|].
  rewrite Hk. apply (filter_length_le keep [1; 2; 3]).
Qed.

Lemma good_attempt_recorded_witness :
  exists product_data,
    appended (fst (scrape_url "https://a.example/dp/1"
                              PageSamples.three_loads true)) = [product_data].
Proof.
  apply (good_attempt_recorded "https://a.example/dp/1"
           PageSamples.three_loads true 3); [lia|].
  repeat (split; [vm_compute; reflexivity|]).
  eexists. split; vm_compute; reflexivity.
Defined.

End ScraperFacts.
